(** * ChannelManager: subscription registry, presence, typing and fan-out

    A shallow embedding of [src/channelManager.ts] (class [ChannelManager])
    and of the handlers of [src/websocket.ts] and [src/server.ts] that call
    it, with the properties of the registry that the specification states
    and further properties that the code shows.

    Conventions of the embedding
    - A [WebSocket] is a JavaScript object compared by reference ([===]); it
      is modelled by its identity (a number).  Everything that is read from
      the object ([ws.user], [ws.readyState]) or done through it ([ws.send])
      lives in the environment [Env] of a call, as do the clock and
      [JSON.stringify].
    - JavaScript's [Map] and [Set] iterate in insertion order.  The two maps
      the class iterates over ([channels], [typingUsers]) and every [Set]
      are ordered lists; the maps that are only read by key ([wsToChannels],
      [wsToUser], [onlineUsers]) are [gmap]s.
    - Every method is a computation in the monad [M]: it threads the five
      fields of the class and produces the list of observable events
      (calls of the logger, of [JSON.stringify], of [ws.send], and of
      [broadcast] itself) in program order.

    The first part of the file holds the definitions: the data, the methods
    as they are written, and the plain functions and predicates in which
    the theorems are stated.  The second part proves, method by method,
    that the methods compute those functions, and then the properties. *)

From stdpp Require Import base option list strings gmap numbers pretty.

Set Default Proof Using "Type".
Set Warnings "-register-all".

(** ** Values of the platform *)

(** [any]-typed data ([userInfo], broadcast payloads): JSON trees. *)
Inductive JSON : Type :=
  | JNull
  | JBool (b : bool)
  | JNum (n : Z)
  | JStr (s : string)
  | JArr (items : list JSON)
  | JObj (fields : list (string * JSON)).

(** The keys of an object literal, in the order they are written. *)
Definition json_keys (v : JSON) : list string :=
  match v with
  | JObj fields => fields.*1
  | _ => []
  end.

(** [ws.readyState] of the [ws] library. *)
Inductive ReadyState : Type := CONNECTING | OPEN | CLOSING | CLOSED.

Global Instance ReadyState_eq_dec : EqDecision ReadyState.
Proof. solve_decision. Defined.

(** [src/types.ts]: [enum WSEventType]. *)
Inductive WSEventType : Type :=
  | SUBSCRIBE
  | NEW_MESSAGE
  | MESSAGE_UPDATE
  | MESSAGE_DELETE
  | MEMBER_TYPING
  | MEMBER_STOP_TYPING
  | MEMBER_STATUS_UPDATE.

Global Instance WSEventType_eq_dec : EqDecision WSEventType.
Proof. solve_decision. Defined.

(** The string each member of the enum stands for. *)
Definition WSEventType_value (e : WSEventType) : string :=
  match e with
  | SUBSCRIBE => "subscribe"
  | NEW_MESSAGE => "new-message"
  | MESSAGE_UPDATE => "message-update"
  | MESSAGE_DELETE => "message-delete"
  | MEMBER_TYPING => "member-typing"
  | MEMBER_STOP_TYPING => "member-stop-typing"
  | MEMBER_STATUS_UPDATE => "MEMBER_STATUS_UPDATE"
  end.

(** [src/types.ts]: [interface WebSocketAuthToken]. *)
Record WebSocketAuthToken : Type := {
  token_userId : string;
  token_name : option string;
  token_image : option string;
  token_exp : Z;
}.

(** Identity of a [WebSocket] object. *)
Definition WebSocket : Type := nat.

(** [interface ChannelSubscription]. *)
Record ChannelSubscription : Type := {
  ws : WebSocket;
  userId : string;
  userInfo : JSON;
}.

(** [interface TypingUser]. *)
Record TypingUser : Type := {
  typing_userId : string;
  username : string;
  timestamp : Z;
}.

(** [src/utils/logger.ts]: [enum LogLevel]. *)
Inductive LogLevel : Type := INFO | WARN | ERROR | DEBUG.

Global Instance LogLevel_eq_dec : EqDecision LogLevel.
Proof. solve_decision. Defined.

(** What a call reads from the platform: the identity attached to a
    connection, its liveness, whether [ws.send] throws, the clock and
    [JSON.stringify]. *)
Record Env : Type := {
  user : WebSocket → option WebSocketAuthToken;
  readyState : WebSocket → ReadyState;
  send_throws : WebSocket → string → bool;
  Date_now : Z;
  JSON_stringify : JSON → string;
}.

(** Observable events, in program order.  A logger call is recorded with
    its level and message; its structured argument is not modelled. *)
Inductive Event : Type :=
  | ELog (level : LogLevel) (message : string)
  | EStringify (value : JSON)
  | ESend (to : WebSocket) (message : string)
  | ESendThrew (to : WebSocket) (message : string)
  | EBroadcast (channelName : string) (event : WSEventType) (data : JSON)
      (excludeWs : option WebSocket).

(** ** JavaScript [Map] and [Set] in insertion order *)

(** A [Map<K, V>]: its entries, oldest first. *)
Abbreviation JsMap K V := (list (K * V)) (only parsing).

Section JsMap.
Context {K V : Type} `{EqDecision K}.

Fixpoint jm_get (k : K) (m : list (K * V)) : option V :=
  match m with
  | [] => None
  | (k', v) :: m' => if decide (k' = k) then Some v else jm_get k m'
  end.

Definition jm_has (k : K) (m : list (K * V)) : bool :=
  bool_decide (is_Some (jm_get k m)).

(** [map.set(k, v)]: an existing key keeps its place, a new key goes last. *)
Fixpoint jm_set (k : K) (v : V) (m : list (K * V)) : list (K * V) :=
  match m with
  | [] => [(k, v)]
  | (k', v') :: m' =>
      if decide (k' = k) then (k, v) :: m' else (k', v') :: jm_set k v m'
  end.

Fixpoint jm_delete (k : K) (m : list (K * V)) : list (K * V) :=
  match m with
  | [] => []
  | (k', v') :: m' =>
      if decide (k' = k) then jm_delete k m' else (k', v') :: jm_delete k m'
  end.

Definition jm_keys (m : list (K * V)) : list K := m.*1.
Definition jm_values (m : list (K * V)) : list V := m.*2.

(** Keys are unique in a [Map]. *)
Definition jm_wf (m : list (K * V)) : Prop := NoDup (jm_keys m).
End JsMap.

Section JsSet.
Context {A : Type} `{EqDecision A}.

(** [set.add(x)] *)
Definition set_add (x : A) (s : list A) : list A :=
  if decide (x ∈ s) then s else s ++ [x].

(** [set.delete(x)] *)
Definition set_delete (x : A) (s : list A) : list A :=
  filter (λ y, y ≠ x) s.
End JsSet.

(** ** The state of the class *)

Record ChannelManager : Type := {
  channels : JsMap string (list ChannelSubscription);
  wsToChannels : gmap WebSocket (list string);
  typingUsers : JsMap string (JsMap string TypingUser);
  wsToUser : gmap WebSocket string;
  onlineUsers : gmap string (list string);
}.

(** The fields as the constructor leaves them. *)
Definition empty_manager : ChannelManager := {|
  channels := [];
  wsToChannels := ∅;
  typingUsers := [];
  wsToUser := ∅;
  onlineUsers := ∅;
|}.

Definition set_channels (f : JsMap string (list ChannelSubscription) →
    JsMap string (list ChannelSubscription)) (st : ChannelManager) : ChannelManager :=
  {| channels := f (channels st); wsToChannels := wsToChannels st;
     typingUsers := typingUsers st; wsToUser := wsToUser st;
     onlineUsers := onlineUsers st |}.

Definition set_wsToChannels (f : gmap WebSocket (list string) →
    gmap WebSocket (list string)) (st : ChannelManager) : ChannelManager :=
  {| channels := channels st; wsToChannels := f (wsToChannels st);
     typingUsers := typingUsers st; wsToUser := wsToUser st;
     onlineUsers := onlineUsers st |}.

Definition set_typingUsers (f : JsMap string (JsMap string TypingUser) →
    JsMap string (JsMap string TypingUser)) (st : ChannelManager) : ChannelManager :=
  {| channels := channels st; wsToChannels := wsToChannels st;
     typingUsers := f (typingUsers st); wsToUser := wsToUser st;
     onlineUsers := onlineUsers st |}.

Definition set_wsToUser (f : gmap WebSocket string → gmap WebSocket string)
    (st : ChannelManager) : ChannelManager :=
  {| channels := channels st; wsToChannels := wsToChannels st;
     typingUsers := typingUsers st; wsToUser := f (wsToUser st);
     onlineUsers := onlineUsers st |}.

Definition set_onlineUsers (f : gmap string (list string) →
    gmap string (list string)) (st : ChannelManager) : ChannelManager :=
  {| channels := channels st; wsToChannels := wsToChannels st;
     typingUsers := typingUsers st; wsToUser := wsToUser st;
     onlineUsers := f (onlineUsers st) |}.

(** ** The monad of the methods: state of the class and emitted events *)

Definition M (A : Type) : Type := ChannelManager → A * ChannelManager * list Event.

Definition ret {A} (a : A) : M A := λ st, (a, st, []).

Definition bind {A B} (m : M A) (f : A → M B) : M B := λ st,
  let r1 := m st in
  let r2 := f r1.1.1 r1.1.2 in
  (r2.1.1, r2.1.2, r1.2 ++ r2.2).

Notation "x <- m ;; k" := (bind m (λ x, k))
  (at level 100, m at next level, right associativity).
Notation "m ;; k" := (bind m (λ _, k))
  (at level 100, right associativity).

Definition gets {A} (f : ChannelManager → A) : M A := λ st, (f st, st, []).
Definition modify (f : ChannelManager → ChannelManager) : M unit :=
  λ st, (tt, f st, []).
Definition emit (e : Event) : M unit := λ st, (tt, st, [e]).
Definition emits (es : list Event) : M unit := λ st, (tt, st, es).
Definition when (b : bool) (m : M unit) : M unit := if b then m else ret tt.

Fixpoint forEach {A} (l : list A) (body : A → M unit) : M unit :=
  match l with
  | [] => ret tt
  | x :: l' => body x ;; forEach l' body
  end.

(** The state a computation ends in, and the events it emits. *)
Definition final {A} (m : M A) (st : ChannelManager) : ChannelManager := (m st).1.2.
Definition trace {A} (m : M A) (st : ChannelManager) : list Event := (m st).2.

(** [logger.info], [logger.warn], [logger.error], [logger.debug]. *)
Definition logger (level : LogLevel) (message : string) : M unit :=
  emit (ELog level message).

(** JavaScript truthiness of a string: only the empty string is falsy. *)
Definition truthy (s : string) : bool := negb (bool_decide (s = EmptyString)).

(** ** The methods of [ChannelManager] *)

(** The payload [{ event, data }] that [broadcast] serializes. *)
Definition frame_payload (event : WSEventType) (data : JSON) : JSON :=
  JObj [("event", JStr (WSEventType_value event)); ("data", data)].

(** The counters of [broadcast] ([sentCount], [excludedCount],
    [closedCount]); they are only reported to the logger. *)
Record BroadcastStats : Type := {
  messageSent : nat;
  excluded : nat;
  closedConnections : nat;
}.

(** The [channel.forEach] loop of [broadcast].  [None] means that
    [sub.ws.send] threw: the exception leaves the loop at that subscriber. *)
Fixpoint broadcast_loop (env : Env) (message : string) (excludeWs : option WebSocket)
    (subs : list ChannelSubscription) (stats : BroadcastStats)
    : list Event * option BroadcastStats :=
  match subs with
  | [] => ([], Some stats)
  | sub :: rest =>
      if bool_decide (Some (ws sub) = excludeWs) then
        broadcast_loop env message excludeWs rest
          {| messageSent := messageSent stats; excluded := S (excluded stats);
             closedConnections := closedConnections stats |}
      else if bool_decide (readyState env (ws sub) = OPEN) then
        if send_throws env (ws sub) message then
          ([ESendThrew (ws sub) message], None)
        else
          let r := broadcast_loop env message excludeWs rest
            {| messageSent := S (messageSent stats); excluded := excluded stats;
               closedConnections := closedConnections stats |} in
          (ESend (ws sub) message :: r.1, r.2)
      else
        broadcast_loop env message excludeWs rest
          {| messageSent := messageSent stats; excluded := excluded stats;
             closedConnections := S (closedConnections stats) |}
  end.

(** [broadcast(channelName, event, data, excludeWs?)] *)
Definition broadcast (env : Env) (channelName : string) (event : WSEventType)
    (data : JSON) (excludeWs : option WebSocket) : M unit :=
  emit (EBroadcast channelName event data excludeWs) ;;
  channel <- gets (λ st, jm_get channelName (channels st)) ;;
  match channel with
  | None => logger WARN "Attempted to broadcast to non-existent channel"
  | Some channel =>
      emit (EStringify (frame_payload event data)) ;;
      let message := JSON_stringify env (frame_payload event data) in
      let r := broadcast_loop env message excludeWs channel
                 {| messageSent := 0; excluded := 0; closedConnections := 0 |} in
      emits r.1 ;;
      match r.2 with
      | Some _ => logger DEBUG "Message broadcast complete"
      | None => logger ERROR ("Failed to broadcast message to channel " +:+ channelName)
      end
  end.

(** [updateOnlineStatus(serverId, userId, isOnline)] *)
Definition updateOnlineStatus (env : Env) (serverId userId : string)
    (isOnline : bool) : M unit :=
  has <- gets (λ st, bool_decide (is_Some (onlineUsers st !! serverId))) ;;
  when (negb has) (modify (set_onlineUsers <[serverId := []]>)) ;;
  serverUsers <- gets (λ st, default [] (onlineUsers st !! serverId)) ;;
  let serverUsers :=
    if isOnline then set_add userId serverUsers else set_delete userId serverUsers in
  modify (set_onlineUsers <[serverId := serverUsers]>) ;;
  broadcast env serverId MEMBER_STATUS_UPDATE
    (JObj [("userId", JStr userId); ("isOnline", JBool isOnline);
           ("onlineUsers", JArr (JStr <$> serverUsers))]) None ;;
  logger DEBUG "Updated online status".

(** A [TypingUser] as it appears in a payload. *)
Definition TypingUser_json (u : TypingUser) : JSON :=
  JObj [("userId", JStr (typing_userId u)); ("username", JStr (username u));
        ("timestamp", JNum (timestamp u))].

(** [handleTyping(channelName, userId, username, isTyping)] *)
Definition handleTyping (env : Env) (channelName userId username : string)
    (isTyping : bool) : M unit :=
  logger DEBUG "Handling typing event" ;;
  has <- gets (λ st, jm_has channelName (typingUsers st)) ;;
  when (negb has)
    (modify (set_typingUsers (jm_set channelName [])) ;;
     logger DEBUG "Created new typing map for channel") ;;
  channelTyping <- gets (λ st, default [] (jm_get channelName (typingUsers st))) ;;
  if isTyping then
    let channelTyping :=
      jm_set userId {| typing_userId := userId; username := username;
                       timestamp := Date_now env |} channelTyping in
    modify (set_typingUsers (jm_set channelName channelTyping)) ;;
    logger DEBUG "Updated typing users" ;;
    broadcast env channelName MEMBER_TYPING
      (JObj [("typingUsers", JArr (TypingUser_json <$> jm_values channelTyping))]) None
  else
    let channelTyping := jm_delete userId channelTyping in
    modify (set_typingUsers (jm_set channelName channelTyping)) ;;
    logger DEBUG "User stopped typing" ;;
    broadcast env channelName MEMBER_STOP_TYPING
      (JObj [("userId", JStr userId); ("username", JStr username);
             ("remainingTypingUsers",
              JArr (TypingUser_json <$> jm_values channelTyping))]) None.

(** [TYPING_TIMEOUT] of [startTypingCleanup], in milliseconds. *)
Definition TYPING_TIMEOUT : Z := 3000.

(** The period of the timer of [startTypingCleanup], in milliseconds. *)
Definition TYPING_CLEANUP_INTERVAL : Z := 1000.

(** The body of the inner [typingMap.forEach] of the sweep: a stale entry
    is deleted from the typing map of its channel and a stop-typing event
    is broadcast. *)
Definition typingCleanup_user (env : Env) (now : Z) (channelName : string)
    (entry : string * TypingUser) : M unit :=
  let '(userId, user) := entry in
  when (bool_decide (now - timestamp user > TYPING_TIMEOUT)%Z)
    (modify (set_typingUsers (λ t,
       jm_set channelName (jm_delete userId (default [] (jm_get channelName t))) t)) ;;
     broadcast env channelName MEMBER_STOP_TYPING
       (JObj [("userId", JStr userId); ("username", JStr (username user))]) None).

(** The body of the outer [this.typingUsers.forEach] of the sweep. *)
Definition typingCleanup_channel (env : Env) (now : Z)
    (entry : string * JsMap string TypingUser) : M unit :=
  let '(channelName, typingMap) := entry in
  forEach typingMap (typingCleanup_user env now channelName) ;;
  size <- gets (λ st, length (default [] (jm_get channelName (typingUsers st)))) ;;
  when (bool_decide (size = 0))
    (modify (set_typingUsers (jm_delete channelName))).

(** The callback that [startTypingCleanup] hands to [setInterval]: one
    sweep over the typing maps.  Both [forEach] loops run over the entries
    present when the sweep starts; the only entries deleted meanwhile are
    the ones being visited. *)
Definition typingCleanup (env : Env) : M unit :=
  let now := Date_now env in
  entries <- gets typingUsers ;;
  forEach entries (typingCleanup_channel env now).

(** The identity check that opens [subscribe]:
    [subscription.ws.user && subscription.ws.user.userId !== subscription.userId]. *)
Definition identity_mismatch (env : Env) (subscription : ChannelSubscription) : bool :=
  match user env (ws subscription) with
  | Some token => bool_decide (token_userId token ≠ userId subscription)
  | None => false
  end.

(** [subscribe(channelName, subscription)].  A subscription that reaches
    [channel.add] is a new object that matches no member of the set on
    [(ws, userId)], so [add] appends it. *)
Definition subscribe (env : Env) (channelName : string)
    (subscription : ChannelSubscription) : M unit :=
  if identity_mismatch env subscription then
    logger WARN "User ID mismatch in subscription request"
  else
    has <- gets (λ st, jm_has channelName (channels st)) ;;
    when (negb has) (modify (set_channels (jm_set channelName []))) ;;
    channel <- gets (λ st, default [] (jm_get channelName (channels st))) ;;
    let existingSubscription :=
      list_find (λ sub, ws sub = ws subscription ∧ userId sub = userId subscription)
        channel in
    match existingSubscription with
    | Some _ => logger DEBUG "Skipping duplicate subscription"
    | None =>
        modify (set_wsToUser <[ws subscription := userId subscription]>) ;;
        modify (set_channels (jm_set channelName (channel ++ [subscription]))) ;;
        has <- gets (λ st, bool_decide (is_Some (wsToChannels st !! ws subscription))) ;;
        when (negb has) (modify (set_wsToChannels <[ws subscription := []]>)) ;;
        modify (set_wsToChannels (λ m,
          <[ws subscription :=
              set_add channelName (default [] (m !! ws subscription))]> m)) ;;
        updateOnlineStatus env channelName (userId subscription) true ;;
        logger INFO "New subscription added"
    end.

(** The [for (const sub of channel)] loop of [unsubscribe]: the first
    subscription of the connection is deleted and the loop breaks.  Returns
    [unsubscribedUser] and the set after the loop. *)
Fixpoint unsubscribe_loop (ws0 : WebSocket) (channel : list ChannelSubscription)
    : option string * list ChannelSubscription :=
  match channel with
  | [] => (None, [])
  | sub :: rest =>
      if decide (ws sub = ws0) then (Some (userId sub), rest)
      else let r := unsubscribe_loop ws0 rest in (r.1, sub :: r.2)
  end.

(** [unsubscribe(channelName, ws)].  Nothing inside its [try] block throws. *)
Definition unsubscribe (channelName : string) (ws0 : WebSocket) : M unit :=
  channel <- gets (λ st, jm_get channelName (channels st)) ;;
  match channel with
  | None => logger WARN "Attempted to unsubscribe from non-existent channel"
  | Some channel =>
      let r := unsubscribe_loop ws0 channel in
      let unsubscribedUser := r.1 in
      let channel := r.2 in
      modify (set_channels (jm_set channelName channel)) ;;
      has <- gets (λ st, bool_decide (is_Some (wsToChannels st !! ws0))) ;;
      when has
        (modify (set_wsToChannels (λ m,
           <[ws0 := set_delete channelName (default [] (m !! ws0))]> m)) ;;
         size <- gets (λ st, length (default [] (wsToChannels st !! ws0))) ;;
         when (bool_decide (size = 0))
           (modify (set_wsToChannels (delete ws0)) ;;
            modify (set_wsToUser (delete ws0)))) ;;
      when (from_option truthy false unsubscribedUser)
        (logger INFO "Client unsubscribed from channel") ;;
      when (bool_decide (length channel = 0))
        (modify (set_channels (jm_delete channelName)) ;;
         logger DEBUG "Removed empty channel")
  end.

(** The body of the [forEach] of [handleWebSocketClosure], for one channel
    of the closed connection. *)
Definition closure_channel (env : Env) (ws0 : WebSocket) (userId : string)
    (channelName : string) : M unit :=
  updateOnlineStatus env channelName userId false ;;
  typingMap <- gets (λ st, jm_get channelName (typingUsers st)) ;;
  match typingMap with
  | Some typingMap =>
      match jm_get userId typingMap with
      | Some user =>
          let typingMap := jm_delete userId typingMap in
          modify (set_typingUsers (jm_set channelName typingMap)) ;;
          broadcast env channelName MEMBER_STOP_TYPING
            (JObj [("userId", JStr userId); ("username", JStr (username user));
                   ("remainingTypingUsers",
                    JArr (TypingUser_json <$> jm_values typingMap))]) None ;;
          logger DEBUG "Removed typing indicator for disconnected user"
      | None => ret tt
      end
  | None => ret tt
  end ;;
  unsubscribe channelName ws0.

(** [handleWebSocketClosure(ws)].  The loop runs over the copy
    [[...subscribedChannels]] taken before the first iteration. *)
Definition handleWebSocketClosure (env : Env) (ws0 : WebSocket) : M unit :=
  subscribedChannels <- gets (λ st, wsToChannels st !! ws0) ;;
  userId <- gets (λ st, wsToUser st !! ws0) ;;
  match subscribedChannels, userId with
  | Some subscribedChannels, Some userId =>
      when (truthy userId)
        (forEach subscribedChannels (closure_channel env ws0 userId) ;;
         modify (set_wsToChannels (delete ws0)) ;;
         modify (set_wsToUser (delete ws0)) ;;
         logger INFO "Cleaned up disconnected user")
  | _, _ => ret tt
  end.

(** The [for (const sub of subscribers)] loop of
    [cleanupInactiveConnections] for one channel.  Deleting the visited
    member of a [Set] while iterating over it leaves the rest of the
    iteration as it was, so the loop returns the members that stay, and
    updates [wsToChannels] for each one it deletes. *)
Fixpoint cleanup_loop (env : Env) (channelName : string)
    (subscribers : list ChannelSubscription) : M (list ChannelSubscription) :=
  match subscribers with
  | [] => ret []
  | sub :: rest =>
      if bool_decide (readyState env (ws sub) ≠ OPEN) then
        has <- gets (λ st, bool_decide (is_Some (wsToChannels st !! ws sub))) ;;
        when has
          (modify (set_wsToChannels (λ m,
             <[ws sub := set_delete channelName (default [] (m !! ws sub))]> m)) ;;
           size <- gets (λ st, length (default [] (wsToChannels st !! ws sub))) ;;
           when (bool_decide (size = 0))
             (modify (set_wsToChannels (delete (ws sub))))) ;;
        cleanup_loop env channelName rest
      else
        kept <- cleanup_loop env channelName rest ;;
        ret (sub :: kept)
  end.

(** The body of the outer loop of [cleanupInactiveConnections], for one
    entry of [channels]. *)
Definition cleanup_channel (env : Env)
    (entry : string * list ChannelSubscription) : M unit :=
  let '(channelName, subscribers) := entry in
  let initialSize := length subscribers in
  kept <- cleanup_loop env channelName subscribers ;;
  modify (set_channels (jm_set channelName kept)) ;;
  if bool_decide (length kept = 0) then
    modify (set_channels (jm_delete channelName)) ;;
    logger DEBUG "Removed empty channel during cleanup"
  else
    when (bool_decide (length kept ≠ initialSize))
      (logger DEBUG "Cleaned up inactive connections in channel").

(** [cleanupInactiveConnections()].  The outer loop runs over the entries
    of [channels] present when it starts; only the visited entry is changed
    or deleted.  The counter [cleanupCount] is only reported to the logger. *)
Definition cleanupInactiveConnections (env : Env) : M unit :=
  logger INFO "Starting cleanup of inactive connections" ;;
  entries <- gets channels ;;
  forEach entries (cleanup_channel env) ;;
  logger INFO "Inactive connection cleanup complete".

(** One element of the [channels] array that [getChannelStats] returns:
    [{ name, subscribers }]. *)
Record ChannelStat : Type := {
  stat_name : string;
  stat_subscribers : nat;
}.

(** The object that [getChannelStats] returns. *)
Record ChannelStats : Type := {
  totalChannels : nat;
  stats_channels : list ChannelStat;
}.

(** [getChannelStats()] *)
Definition getChannelStats : M ChannelStats :=
  stats <- gets (λ st,
    {| totalChannels := length (channels st);
       stats_channels :=
         (λ entry, {| stat_name := entry.1; stat_subscribers := length entry.2 |})
           <$> channels st |}) ;;
  logger DEBUG "Channel statistics" ;;
  ret stats.

(** ** Sequences of calls *)

(** The entry points of the class, as the server calls them. *)
Inductive Op : Type :=
  | Subscribe (channelName : string) (subscription : ChannelSubscription)
  | Unsubscribe (channelName : string) (ws0 : WebSocket)
  | HandleWebSocketClosure (ws0 : WebSocket)
  | HandleTyping (channelName userId username : string) (isTyping : bool)
  | Broadcast (channelName : string) (event : WSEventType) (data : JSON)
      (excludeWs : option WebSocket)
  | TypingCleanup
  | CleanupInactiveConnections.

Definition exec (env : Env) (op : Op) : M unit :=
  match op with
  | Subscribe channelName subscription => subscribe env channelName subscription
  | Unsubscribe channelName ws0 => unsubscribe channelName ws0
  | HandleWebSocketClosure ws0 => handleWebSocketClosure env ws0
  | HandleTyping channelName userId username isTyping =>
      handleTyping env channelName userId username isTyping
  | Broadcast channelName event data excludeWs =>
      broadcast env channelName event data excludeWs
  | TypingCleanup => typingCleanup env
  | CleanupInactiveConnections => cleanupInactiveConnections env
  end.

(** A run: each call is made in the environment of its own moment. *)
Definition run (steps : list (Env * Op)) : M unit :=
  forEach steps (λ '(env, op), exec env op).

(** ** Reading a state and a trace *)

(** The subscriber set of a channel (empty when the channel has no entry). *)
Definition subscribers (st : ChannelManager) (channelName : string)
    : list ChannelSubscription :=
  default [] (jm_get channelName (channels st)).

(** The channels that the connection-to-channels index lists for a connection. *)
Definition index (st : ChannelManager) (c : WebSocket) : list string :=
  default [] (wsToChannels st !! c).

(** The online presence set of a channel. *)
Definition presence (st : ChannelManager) (channelName : string) : list string :=
  default [] (onlineUsers st !! channelName).

(** The typing entries of a channel. *)
Definition typing (st : ChannelManager) (channelName : string)
    : JsMap string TypingUser :=
  default [] (jm_get channelName (typingUsers st)).

(** The calls of [broadcast] in a trace. *)
Definition broadcasts (t : list Event) : list (string * WSEventType * JSON) :=
  omap (λ e, match e with
             | EBroadcast channelName event data _ => Some (channelName, event, data)
             | _ => None
             end) t.

(** The frames delivered by [ws.send] in a trace. *)
Definition sends (t : list Event) : list (WebSocket * string) :=
  omap (λ e, match e with ESend c message => Some (c, message) | _ => None end) t.

(** The values handed to [JSON.stringify] in a trace. *)
Definition stringify_calls (t : list Event) : list JSON :=
  omap (λ e, match e with EStringify v => Some v | _ => None end) t.

(** A subscriber that [broadcast] tries to send to: not the excluded
    connection, and open. *)
Definition deliverable (env : Env) (excludeWs : option WebSocket)
    (sub : ChannelSubscription) : Prop :=
  Some (ws sub) ≠ excludeWs ∧ readyState env (ws sub) = OPEN.

Global Instance deliverable_dec env excludeWs sub :
  Decision (deliverable env excludeWs sub).
Proof. unfold deliverable. apply _. Defined.

(** ** Concrete platforms and registries for the examples *)

(** A serializer for the examples: it prints the tree, strings unquoted. *)
Fixpoint demo_stringify (v : JSON) : string :=
  match v with
  | JNull => "null"
  | JBool b => if b then "true" else "false"
  | JNum n => pretty n
  | JStr s => s
  | JArr items =>
      "[" +:+ foldr (λ x acc, demo_stringify x +:+ ";" +:+ acc) "]" items
  | JObj fields =>
      "{" +:+ foldr (λ kv acc, kv.1 +:+ ":" +:+ demo_stringify kv.2 +:+ ";" +:+ acc)
                "}" fields
  end.

(** A platform in which the connections listed in [closed] are closed and
    every other one is open, [ws.send] throws exactly for the connections
    listed in [failing], no connection carries a verified identity, and
    the clock reads [now]. *)
Definition demo_env (closed failing : list WebSocket) (now : Z) : Env := {|
  user := λ _, None;
  readyState := λ c, if bool_decide (c ∈ closed) then CLOSED else OPEN;
  send_throws := λ c _, bool_decide (c ∈ failing);
  Date_now := now;
  JSON_stringify := demo_stringify;
|}.

(** The same platform, except that every connection [c] carries the
    verified identity that [tokens c] gives. *)
Definition with_user (tokens : WebSocket → option WebSocketAuthToken) (env : Env)
    : Env := {|
  user := tokens;
  readyState := readyState env;
  send_throws := send_throws env;
  Date_now := Date_now env;
  JSON_stringify := JSON_stringify env;
|}.

Definition demo_token (uid : string) : WebSocketAuthToken :=
  {| token_userId := uid; token_name := None; token_image := None; token_exp := 0 |}.

Definition demo_sub (c : WebSocket) (uid : string) : ChannelSubscription :=
  {| ws := c; userId := uid; userInfo := JNull |}.

(** A parser for the examples: the first character of a frame is the
    userId and the rest the channel of a subscribe request; the empty
    frame does not parse. *)
Definition demo_parse (message : string) : option JSON :=
  match message with
  | String u channelName =>
      Some (JObj [("type", JStr "subscribe"); ("channelName", JStr channelName);
                  ("userId", JStr (String u EmptyString))])
  | EmptyString => None
  end.

(** ** Closed forms of what the methods do *)

(** The methods are compared, in the second part of the file, with the plain
    functions on registries of this section. *)

(** Events emitted before a result. *)
Definition tell {A} (t : list Event) (r : A * ChannelManager * list Event)
    : A * ChannelManager * list Event := (r.1.1, r.1.2, t ++ r.2).

(** *** Payloads *)

(** The payload of a [MEMBER_STATUS_UPDATE] broadcast. *)
Definition status_payload (userId : string) (isOnline : bool) (serverUsers : list string) : JSON :=
  JObj [("userId", JStr userId); ("isOnline", JBool isOnline);
        ("onlineUsers", JArr (JStr <$> serverUsers))].

(** The payload of the [MEMBER_STOP_TYPING] broadcasts of [handleTyping]
    and [handleWebSocketClosure]. *)
Definition stop_typing_payload (userId username : string)
    (remaining : JsMap string TypingUser) : JSON :=
  JObj [("userId", JStr userId); ("username", JStr username);
        ("remainingTypingUsers", JArr (TypingUser_json <$> jm_values remaining))].

(** The payload of the [MEMBER_STOP_TYPING] broadcast of the sweep. *)
Definition sweep_payload (userId username : string) : JSON :=
  JObj [("userId", JStr userId); ("username", JStr username)].

(** The field of an object. *)
Definition json_field (key : string) (v : JSON) : option JSON :=
  match v with
  | JObj fields => jm_get key fields
  | _ => None
  end.

(** The userId that a payload names. *)
Definition payload_userId (v : JSON) : option string :=
  match json_field "userId" v with
  | Some (JStr userId) => Some userId
  | _ => None
  end.

(** *** [updateOnlineStatus], [subscribe], [unsubscribe] *)

(** What [updateOnlineStatus] does to the presence set of the channel. *)
Definition update_presence (userId : string) (isOnline : bool) (serverUsers : list string) :=
  if isOnline then set_add userId serverUsers else set_delete userId serverUsers.

(** [subscription] repeats a member of the channel's set on [(ws, userId)]. *)
Definition duplicate (st : ChannelManager) (channelName : string)
    (subscription : ChannelSubscription) : Prop :=
  ∃ sub, sub ∈ subscribers st channelName
         ∧ ws sub = ws subscription ∧ userId sub = userId subscription.

Global Instance duplicate_dec st channelName subscription :
  Decision (duplicate st channelName subscription).
Proof.
  unfold duplicate.
  refine (cast_if (decide (Exists (λ sub, ws sub = ws subscription
                                          ∧ userId sub = userId subscription)
                     (subscribers st channelName))));
    rewrite Exists_exists in *; naive_solver.
Defined.

(** The registry after a [subscribe] that adds a subscription. *)
Definition subscribe_state (channelName : string) (subscription : ChannelSubscription)
    (st : ChannelManager) : ChannelManager := {|
  channels :=
    jm_set channelName (subscribers st channelName ++ [subscription]) (channels st);
  wsToChannels :=
    <[ws subscription := set_add channelName (index st (ws subscription))]>
      (wsToChannels st);
  typingUsers := typingUsers st;
  wsToUser := <[ws subscription := userId subscription]> (wsToUser st);
  onlineUsers :=
    <[channelName := set_add (userId subscription) (presence st channelName)]>
      (onlineUsers st);
|}.

(** The registry after [unsubscribe(channelName, ws0)]. *)
Definition unsubscribe_state (channelName : string) (ws0 : WebSocket)
    (st : ChannelManager) : ChannelManager :=
  match jm_get channelName (channels st) with
  | None => st
  | Some channel =>
      let kept := (unsubscribe_loop ws0 channel).2 in
      let emptied :=
        match wsToChannels st !! ws0 with
        | Some l => bool_decide (length (set_delete channelName l) = 0)
        | None => false
        end in
      {| channels :=
           if bool_decide (length kept = 0) then jm_delete channelName (channels st)
           else jm_set channelName kept (channels st);
         wsToChannels :=
           match wsToChannels st !! ws0 with
           | Some l =>
               if emptied then delete ws0 (wsToChannels st)
               else <[ws0 := set_delete channelName l]> (wsToChannels st)
           | None => wsToChannels st
           end;
         typingUsers := typingUsers st;
         wsToUser := if emptied then delete ws0 (wsToUser st) else wsToUser st;
         onlineUsers := onlineUsers st |}
  end.

(** *** [handleWebSocketClosure] *)

(** The guard of [handleWebSocketClosure]: the connection has an index
    entry and a truthy userId. *)
Definition closure_guard (st : ChannelManager) (ws0 : WebSocket)
    : option (list string * string) :=
  match wsToChannels st !! ws0, wsToUser st !! ws0 with
  | Some subscribedChannels, Some userId =>
      if truthy userId then Some (subscribedChannels, userId) else None
  | _, _ => None
  end.

(** What [handleWebSocketClosure] does to the typing maps for one channel. *)
Definition closure_typing (userId channelName : string) (st : ChannelManager)
    : ChannelManager :=
  match jm_get userId (typing st channelName) with
  | Some _ => set_typingUsers (jm_set channelName (jm_delete userId (typing st channelName))) st
  | None => st
  end.

(** The registry after the body of the loop of [handleWebSocketClosure]. *)
Definition closure_channel_state (ws0 : WebSocket) (userId channelName : string)
    (st : ChannelManager) : ChannelManager :=
  unsubscribe_state channelName ws0
    (closure_typing userId channelName
       (set_onlineUsers <[channelName := set_delete userId (presence st channelName)]> st)).

(** The calls of [broadcast] in the body of the loop of [handleWebSocketClosure]. *)
Definition closure_channel_broadcasts (userId channelName : string)
    (st : ChannelManager) : list (string * WSEventType * JSON) :=
  (channelName, MEMBER_STATUS_UPDATE,
   status_payload userId false (set_delete userId (presence st channelName)))
  :: match jm_get userId (typing st channelName) with
     | Some user =>
         [(channelName, MEMBER_STOP_TYPING,
           stop_typing_payload userId (username user)
             (jm_delete userId (typing st channelName)))]
     | None => []
     end.

(** The registry after the loop of [handleWebSocketClosure] over [chs]. *)
Definition closure_loop_state (ws0 : WebSocket) (userId : string) (chs : list string)
    (st : ChannelManager) : ChannelManager :=
  foldl (λ s channelName, closure_channel_state ws0 userId channelName s) st chs.

(** The calls of [broadcast] in the loop of [handleWebSocketClosure]. *)
Fixpoint closure_loop_broadcasts (ws0 : WebSocket) (userId : string) (chs : list string)
    (st : ChannelManager) : list (string * WSEventType * JSON) :=
  match chs with
  | [] => []
  | channelName :: rest =>
      closure_channel_broadcasts userId channelName st
      ++ closure_loop_broadcasts ws0 userId rest
           (closure_channel_state ws0 userId channelName st)
  end.

(** The registry after [handleWebSocketClosure(ws0)]. *)
Definition closure_state (ws0 : WebSocket) (st : ChannelManager) : ChannelManager :=
  match closure_guard st ws0 with
  | Some (subscribedChannels, userId) =>
      set_wsToUser (delete ws0)
        (set_wsToChannels (delete ws0)
           (closure_loop_state ws0 userId subscribedChannels st))
  | None => st
  end.

(** *** [handleTyping] and the sweep *)

(** The typing map of the channel after [handleTyping]. *)
Definition handleTyping_map (env : Env) (userId username : string) (isTyping : bool)
    (typingMap : JsMap string TypingUser) : JsMap string TypingUser :=
  if isTyping then
    jm_set userId {| typing_userId := userId; username := username;
                     timestamp := Date_now env |} typingMap
  else jm_delete userId typingMap.

(** The one call of [broadcast] that [handleTyping] makes. *)
Definition handleTyping_broadcast (channelName userId username : string)
    (isTyping : bool) (typingMap : JsMap string TypingUser)
    : string * WSEventType * JSON :=
  if isTyping then
    (channelName, MEMBER_TYPING,
     JObj [("typingUsers", JArr (TypingUser_json <$> jm_values typingMap))])
  else
    (channelName, MEMBER_STOP_TYPING, stop_typing_payload userId username typingMap).

(** A typing entry that the sweep evicts at time [now]. *)
Definition stale (now : Z) (user : TypingUser) : Prop :=
  (now - timestamp user > TYPING_TIMEOUT)%Z.

Global Instance stale_dec now user : Decision (stale now user).
Proof. unfold stale. apply _. Defined.

(** The typing map [m] of a channel after the inner loop of the sweep has
    run over the entries [l]. *)
Definition sweep_map (now : Z) (l m : JsMap string TypingUser)
    : JsMap string TypingUser :=
  foldl (λ m e, if decide (stale now e.2) then jm_delete e.1 m else m) m l.

(** The registry after the body of the inner loop of the sweep. *)
Definition sweep_user_state (now : Z) (channelName : string)
    (entry : string * TypingUser) (st : ChannelManager) : ChannelManager :=
  if decide (stale now entry.2) then
    set_typingUsers
      (jm_set channelName (jm_delete entry.1 (typing st channelName))) st
  else st.

(** The registry after the body of the outer loop of the sweep. *)
Definition sweep_channel_state (now : Z) (entry : string * JsMap string TypingUser)
    (st : ChannelManager) : ChannelManager :=
  let st1 := foldl (λ s e, sweep_user_state now entry.1 e s) st entry.2 in
  if bool_decide (length (typing st1 entry.1) = 0)
  then set_typingUsers (jm_delete entry.1) st1 else st1.

(** The registry after one sweep. *)
Definition sweep_state (now : Z) (st : ChannelManager) : ChannelManager :=
  foldl (λ s entry, sweep_channel_state now entry s) st (typingUsers st).

(** The calls of [broadcast] that the sweep makes for one channel. *)
Definition sweep_channel_broadcasts (now : Z)
    (entry : string * JsMap string TypingUser) : list (string * WSEventType * JSON) :=
  (λ e, (entry.1, MEMBER_STOP_TYPING, sweep_payload e.1 (username e.2)))
    <$> filter (λ e, stale now e.2) entry.2.

(** The calls of [broadcast] of one sweep over the typing maps [entries]. *)
Definition sweep_broadcasts (now : Z)
    (entries : JsMap string (JsMap string TypingUser))
    : list (string * WSEventType * JSON) :=
  entries ≫= sweep_channel_broadcasts now.

(** The steps of a run that only sweeps, once in each of [envs]. *)
Definition sweep_steps (envs : list Env) : list (Env * Op) :=
  (λ env, (env, TypingCleanup)) <$> envs.

(** The broadcasts of a trace that concern user [userId] in channel
    [channelName]. *)
Definition broadcasts_about (channelName userId : string) (t : list Event)
    : list (string * WSEventType * JSON) :=
  filter (λ b, b.1.1 = channelName ∧ payload_userId b.2 = Some userId)
    (broadcasts t).

(** *** [cleanupInactiveConnections] *)

(** What the cleanup does to the index when it deletes a subscription of
    connection [c] from a channel. *)
Definition index_drop (channelName : string) (c : WebSocket)
    (m : gmap WebSocket (list string)) : gmap WebSocket (list string) :=
  match m !! c with
  | Some l =>
      if bool_decide (length (set_delete channelName l) = 0) then delete c m
      else <[c := set_delete channelName l]> m
  | None => m
  end.

(** The index after the inner loop of the cleanup over [subs]. *)
Definition cleanup_index (env : Env) (channelName : string)
    (subs : list ChannelSubscription) (m : gmap WebSocket (list string))
    : gmap WebSocket (list string) :=
  foldl (λ m sub, if bool_decide (readyState env (ws sub) ≠ OPEN)
                  then index_drop channelName (ws sub) m else m) m subs.

(** The registry after the body of the outer loop of the cleanup. *)
Definition cleanup_channel_state (env : Env)
    (entry : string * list ChannelSubscription) (st : ChannelManager) : ChannelManager :=
  let kept := filter (λ sub, readyState env (ws sub) = OPEN) entry.2 in
  set_channels
    (if bool_decide (length kept = 0) then jm_delete entry.1 else jm_set entry.1 kept)
    (set_wsToChannels (cleanup_index env entry.1 entry.2) st).

(** The registry after [cleanupInactiveConnections()]. *)
Definition cleanup_state (env : Env) (st : ChannelManager) : ChannelManager :=
  foldl (λ s entry, cleanup_channel_state env entry s) st (channels st).

(** ** The handlers of the server *)

(** [src/websocket.ts] and [src/server.ts]: what the server does with the
    registry when a frame, a close, a request or a timer reaches it. *)

(** JavaScript truthiness of a value read from a parsed JSON document; a
    property that is missing ([undefined]) is [None]. *)
Definition js_truthy (v : option JSON) : bool :=
  match v with
  | None | Some JNull => false
  | Some (JBool b) => b
  | Some (JNum n) => negb (bool_decide (n = 0%Z))
  | Some (JStr s) => truthy s
  | Some (JArr _) | Some (JObj _) => true
  end.

(** [Object.values(WSEventType)], in the order of the declaration. *)
Definition WSEventType_values : list WSEventType :=
  [SUBSCRIBE; NEW_MESSAGE; MESSAGE_UPDATE; MESSAGE_DELETE; MEMBER_TYPING;
   MEMBER_STOP_TYPING; MEMBER_STATUS_UPDATE].

(** [Object.values(WSEventType).includes(type)]: the member of the enum
    that the value is, if it is one. *)
Definition WSEventType_of (type : option JSON) : option WSEventType :=
  match type with
  | Some (JStr s) =>
      snd <$> list_find (λ e, WSEventType_value e = s) WSEventType_values
  | _ => None
  end.

(** What a handler of [src/server.ts] answers: [res.status(...).json(...)]. *)
Record Response : Type := {
  res_status : nat;
  res_body : JSON;
}.

(** [src/server.ts]: [broadcastHandler], the handler of [POST /api/broadcast].
    [req_body] is [req.body]; [None] stands for [undefined].  Destructuring
    [undefined] or [null] throws, which the handler catches.  A
    [channelName] that is truthy but not a string is the key of no channel,
    so [broadcast] logs its warning and returns.  The clock is read only
    for the duration that is logged. *)
Definition broadcastHandler (env : Env) (req_body : option JSON) : M Response :=
  match req_body with
  | None | Some JNull =>
      logger ERROR "Broadcast failed" ;;
      ret {| res_status := 500;
             res_body := JObj [("error", JStr "Failed to broadcast message")] |}
  | Some req_body =>
      let type := json_field "type" req_body in
      let channelName := json_field "channelName" req_body in
      let message := json_field "message" req_body in
      logger DEBUG "Received broadcast request" ;;
      match WSEventType_of type with
      | None =>
          logger WARN "Invalid event type" ;;
          ret {| res_status := 400;
                 res_body :=
                   JObj [("error",
                          JStr ("Invalid event type. Must be one of: "
                                +:+ String.concat ", "
                                      (WSEventType_value <$> WSEventType_values)))] |}
      | Some event =>
          let missing :=
            negb (js_truthy type) || negb (js_truthy channelName)
            || negb (js_truthy message) in
          match missing, message with
          | false, Some data =>
              logger INFO "Broadcasting message" ;;
              match channelName with
              | Some (JStr channelName) => broadcast env channelName event data None
              | _ => logger WARN "Attempted to broadcast to non-existent channel"
              end ;;
              logger DEBUG "Broadcast completed" ;;
              ret {| res_status := 200; res_body := JObj [("success", JBool true)] |}
          | _, _ =>
              logger WARN "Invalid broadcast request" ;;
              ret {| res_status := 400;
                     res_body :=
                       JObj [("error",
                              JStr "Missing required fields: type, channelName, or message")] |}
          end
      end
  end.

(** The call [channelManager.subscribe(channelName, { ws, userId, userInfo })]
    of the [message] listener, with [channelName] and [userId] as the
    frame holds them ([None] for a property that is missing): TypeScript's
    types are not checked at run time, so they need not be strings.  The
    identity check opens [subscribe]: on a connection that carries an
    identity, a [userId] that is not the string of the token is [!==] to
    it, whatever [channelName] is, and [subscribe] warns and returns.  Past
    the check, [channelName] and [userId] become keys of the maps of the
    registry, which is modelled with strings as keys: the result is [None]
    for a frame that would store a value that is not a string. *)
Definition subscribe_frame (env : Env) (ws0 : WebSocket)
    (channelName userId : option JSON) (userInfo : JSON) : option (M unit) :=
  match channelName, userId with
  | Some (JStr channelName), Some (JStr userId) =>
      Some (subscribe env channelName
              {| ws := ws0; userId := userId; userInfo := userInfo |})
  | _, _ =>
      match user env ws0, userId with
      | Some token, Some (JStr userId) =>
          if bool_decide (token_userId token ≠ userId)
          then Some (logger WARN "User ID mismatch in subscription request")
          else None
      | Some token, _ =>
          Some (logger WARN "User ID mismatch in subscription request")
      | None, _ => None
      end
  end.

(** [src/websocket.ts]: the [message] listener that [handleConnection]
    registers on a connection.  [JSON_parse] is [JSON.parse] ([None] when
    it throws); reading [data.type] of [null] throws as well, and both are
    caught and logged.  A frame of type ["subscribe"] is handed to
    [subscribe] as it is; the result is [None] where [subscribe_frame] is.
    A [userInfo] that is missing is kept as [null]; nothing reads it. *)
Definition handleConnection_message (JSON_parse : string → option JSON) (env : Env)
    (ws0 : WebSocket) (message : string) : option (M unit) :=
  match JSON_parse message with
  | None | Some JNull => Some (logger ERROR "Failed to process WebSocket message")
  | Some data =>
      match json_field "type" data with
      | Some (JStr "subscribe") =>
          match subscribe_frame env ws0 (json_field "channelName" data)
                  (json_field "userId" data)
                  (default JNull (json_field "userInfo" data)) with
          | Some m => Some (logger INFO "Client subscribing to channel" ;; m)
          | None => None
          end
      | _ => Some (ret tt)
      end
  end.

(** [src/websocket.ts]: the [close] listener that [handleConnection]
    registers. *)
Definition handleConnection_close (env : Env) (ws0 : WebSocket) : M unit :=
  logger INFO "Client disconnected" ;;
  handleWebSocketClosure env ws0.

(** [src/websocket.ts]: the [error] listener that [handleConnection]
    registers. *)
Definition handleConnection_error : M unit :=
  logger ERROR "WebSocket connection error".

(** [src/server.ts]: the callback of the timer that runs every
    [CLEANUP_INTERVAL]. *)
Definition periodicCleanup (env : Env) : M unit :=
  logger INFO "Starting periodic cleanup" ;;
  cleanupInactiveConnections env.

(** What reaches the registry while the server runs: the events of the
    connections, the requests to [POST /api/broadcast] and to
    [GET /health], and the two timers. *)
Inductive ServerEvent : Type :=
  | WsMessage (ws0 : WebSocket) (message : string)
  | WsClose (ws0 : WebSocket)
  | WsError (ws0 : WebSocket)
  | PostBroadcast (req_body : option JSON)
  | GetHealth
  | CleanupTimer
  | TypingTimer.

(** The effect of one event on the registry; [None] for a subscribe frame
    that would store a value that is not a string (see [subscribe_frame]). *)
Definition serve (JSON_parse : string → option JSON) (env : Env) (ev : ServerEvent)
    : option (M unit) :=
  match ev with
  | WsMessage ws0 message => handleConnection_message JSON_parse env ws0 message
  | WsClose ws0 => Some (handleConnection_close env ws0)
  | WsError ws0 => Some handleConnection_error
  | PostBroadcast req_body => Some (broadcastHandler env req_body ;; ret tt)
  | GetHealth => Some (getChannelStats ;; logger DEBUG "Health check requested")
  | CleanupTimer => Some (periodicCleanup env)
  | TypingTimer => Some (typingCleanup env)
  end.

(** A sequence of events, each in the environment of its own moment. *)
Fixpoint serve_all (JSON_parse : string → option JSON) (evs : list (Env * ServerEvent))
    : option (M unit) :=
  match evs with
  | [] => Some (ret tt)
  | (env, ev) :: rest =>
      match serve JSON_parse env ev, serve_all JSON_parse rest with
      | Some m, Some k => Some (m ;; k)
      | _, _ => None
      end
  end.

(** ** Invariants and the conditions of the theorems *)

(** In this step, a [subscribe] that passes the identity check claims the
    userId [uid] gives to its connection. *)
Definition respects (uid : WebSocket → string) (step : Env * Op) : Prop :=
  match step.2 with
  | Subscribe _ subscription =>
      identity_mismatch step.1 subscription = false →
      userId subscription = uid (ws subscription)
  | _ => True
  end.

(** Registry invariant of the runs in which each connection [c] subscribes
    under the one userId [uid c]. *)
Record consistent (uid : WebSocket → string) (st : ChannelManager) : Prop := {
  consistent_userId : ∀ X s, s ∈ subscribers st X → userId s = uid (ws s);
  consistent_once : ∀ X, NoDup (ws <$> subscribers st X);
  consistent_index : ∀ c X, X ∈ index st c ↔ ∃ s, s ∈ subscribers st X ∧ ws s = c;
  consistent_user : ∀ c, index st c ≠ [] → wsToUser st !! c = Some (uid c);
  consistent_nonempty : ∀ c, wsToChannels st !! c ≠ Some [];
  consistent_wf : jm_wf (channels st);
}.

(** The presence set of every channel lists exactly the userIds that hold
    a subscription in the channel. *)
Definition presence_exact (st : ChannelManager) : Prop :=
  ∀ X u, u ∈ presence st X ↔ ∃ s, s ∈ subscribers st X ∧ userId s = u.

(** The entry points other than a stand-alone [unsubscribe] and the
    cleanup of closed connections. *)
Definition keeps_presence (op : Op) : Prop :=
  match op with
  | Unsubscribe _ _ | CleanupInactiveConnections => False
  | _ => True
  end.

(** The entry points that delete from the connection-to-userId map. *)
Definition purges_userId (op : Op) : Prop :=
  match op with
  | Unsubscribe _ _ | HandleWebSocketClosure _ => True
  | _ => False
  end.

(** Two registries that differ at most in their typing maps. *)
Definition only_typing (st st' : ChannelManager) : Prop :=
  channels st' = channels st ∧ wsToChannels st' = wsToChannels st
  ∧ wsToUser st' = wsToUser st ∧ onlineUsers st' = onlineUsers st.

(** Keys are unique in the typing maps. *)
Definition typing_wf (st : ChannelManager) : Prop :=
  jm_wf (typingUsers st) ∧ Forall (λ e, jm_wf e.2) (typingUsers st).

Global Instance typing_wf_dec st : Decision (typing_wf st).
Proof. unfold typing_wf, jm_wf. apply _. Defined.

(** No channel is left without subscribers and no connection with an empty
    index entry. *)
Definition no_empty_entries (st : ChannelManager) : Prop :=
  (∀ X, jm_get X (channels st) ≠ Some [])
  ∧ (∀ c, wsToChannels st !! c ≠ Some []).

(** Every subscriber of a channel is in the presence set of the channel. *)
Definition presence_covers (st : ChannelManager) : Prop :=
  ∀ X s, s ∈ subscribers st X → userId s ∈ presence st X.

(** A trace that holds nothing but calls of the logger. *)
Definition only_logs (t : list Event) : Prop :=
  Forall (λ e, ∃ level message, e = ELog level message) t.

(** In this environment every connection carries the verified identity of
    the user [uid] gives it: [src/server.ts] sets [ws.user] from the token
    before it hands a connection to [handleConnection], and closes the
    connections that have no valid token. *)
Definition authenticated (uid : WebSocket → string) (env : Env) : Prop :=
  ∀ c, ∃ token, user env c = Some token ∧ token_userId token = uid c.

(** The entry points of the registry that the handlers of the server
    call and that change it. *)
Definition server_op (op : Op) : Prop :=
  match op with
  | Subscribe _ _ | HandleWebSocketClosure _ | TypingCleanup
  | CleanupInactiveConnections => True
  | _ => False
  end.

(** The teardown of connection [c] takes a userId offline only in channels
    in which no other connection holds a subscription under that userId:
    with [subscribedChannels] and [userId] as [handleWebSocketClosure]
    reads them, every subscription under [userId] in one of
    [subscribedChannels] is a subscription of [c]. *)
Definition sole_connection (st : ChannelManager) (c : WebSocket) : Prop :=
  match closure_guard st c with
  | Some (subscribedChannels, userId0) =>
      Forall (λ X, Forall (λ s, userId s = userId0 → ws s = c) (subscribers st X))
        subscribedChannels
  | None => True
  end.

Global Instance sole_connection_dec st c : Decision (sole_connection st c).
Proof. unfold sole_connection. destruct (closure_guard st c) as [[? ?]|]; apply _. Defined.

(** Along the run of [steps] from [st], every connection that is torn down
    is, at that moment, the [sole_connection] of its user in its channels. *)
Fixpoint teardowns_sole (steps : list (Env * Op)) (st : ChannelManager) : Prop :=
  match steps with
  | [] => True
  | (env, op) :: rest =>
      match op with
      | HandleWebSocketClosure c => sole_connection st c
      | _ => True
      end
      ∧ teardowns_sole rest (final (exec env op) st)
  end.

Global Instance teardowns_sole_dec steps st : Decision (teardowns_sole steps st).
Proof.
  revert st. induction steps as [|[env op] steps IH]; intros st; cbn [teardowns_sole];
    [apply _|]. destruct op; apply _.
Defined.

(** The entry point is a [subscribe] of connection [c]. *)
Definition subscribes (c : WebSocket) (op : Op) : Prop :=
  match op with
  | Subscribe _ subscription => ws subscription = c
  | _ => False
  end.

Global Instance subscribes_dec c op : Decision (subscribes c op).
Proof. destruct op; cbn [subscribes]; apply _. Defined.

(** What a subscribe frame [data] on connection [ws0] would store as keys
    of the registry are strings: its [channelName] and its [userId] are
    strings, or the connection carries an identity and the frame does not
    name the userId of that identity, so that the identity check of
    [subscribe] rejects it before anything is stored. *)
Definition string_keys (env : Env) (ws0 : WebSocket) (data : JSON) : Prop :=
  (∃ channelName userId,
     json_field "channelName" data = Some (JStr channelName)
     ∧ json_field "userId" data = Some (JStr userId))
  ∨ (∃ token, user env ws0 = Some token
              ∧ json_field "userId" data ≠ Some (JStr (token_userId token))).

(** The same for an event of the server: every subscribe frame has
    [string_keys]; the other events store nothing that they are handed. *)
Definition string_keyed (JSON_parse : string → option JSON) (e : Env * ServerEvent)
    : Prop :=
  match e.2 with
  | WsMessage ws0 message =>
      ∀ data, JSON_parse message = Some data →
              json_field "type" data = Some (JStr "subscribe") →
              string_keys e.1 ws0 data
  | _ => True
  end.

(** ** The monad: equations *)

Lemma final_bind {A B} (m : M A) (f : A → M B) st :
  final (bind m f) st = final (f (m st).1.1) (final m st).
Proof. reflexivity. Qed.

Lemma trace_bind {A B} (m : M A) (f : A → M B) st :
  trace (bind m f) st = trace m st ++ trace (f (m st).1.1) (final m st).
Proof. reflexivity. Qed.

Lemma final_forEach_app {A} (l1 l2 : list A) (body : A → M unit) st :
  final (forEach (l1 ++ l2) body) st = final (forEach l2 body) (final (forEach l1 body) st).
Proof.
  revert st. induction l1 as [|x l1 IH]; intros st; [done|].
  simpl. rewrite !final_bind. apply IH.
Qed.

Lemma trace_forEach_app {A} (l1 l2 : list A) (body : A → M unit) st :
  trace (forEach (l1 ++ l2) body) st
  = trace (forEach l1 body) st ++ trace (forEach l2 body) (final (forEach l1 body) st).
Proof.
  revert st. induction l1 as [|x l1 IH]; intros st; [done|].
  simpl. rewrite !trace_bind, final_bind, IH. by rewrite (assoc_L (++)).
Qed.

(** An invariant of the body of a loop is an invariant of the loop. *)
Lemma forEach_invariant {A} (P : ChannelManager → Prop) (l : list A)
    (body : A → M unit) st :
  P st → (∀ x s, x ∈ l → P s → P (final (body x) s)) → P (final (forEach l body) st).
Proof.
  revert st. induction l as [|x l IH]; intros st Hst Hbody; [done|].
  simpl. rewrite final_bind. apply IH.
  - apply Hbody; [left | done].
  - intros y s Hy. apply Hbody. by right.
Qed.

Lemma run_app steps1 steps2 st :
  final (run (steps1 ++ steps2)) st = final (run steps2) (final (run steps1) st).
Proof. apply final_forEach_app. Qed.

Lemma run_snoc steps env op st :
  final (run (steps ++ [(env, op)])) st = final (exec env op) (final (run steps) st).
Proof. by rewrite run_app. Qed.

(** ** Ordered maps and sets: equations *)

Section JsMap_lemmas.
Context {K V : Type} `{EqDecision K}.
Implicit Types (k : K) (v : V) (m : list (K * V)).

Lemma jm_get_set_eq k v m : jm_get k (jm_set k v m) = Some v.
Proof.
  induction m as [|[k' v'] m IH]; simpl; [by rewrite decide_True|].
  case_decide; simpl; [by rewrite decide_True|]. by rewrite decide_False.
Qed.

Lemma jm_get_set_ne k k' v m : k ≠ k' → jm_get k' (jm_set k v m) = jm_get k' m.
Proof.
  intros Hne. induction m as [|[k0 v0] m IH]; simpl; [by rewrite decide_False|].
  case_decide; simpl; [subst; by rewrite !decide_False|].
  case_decide; done.
Qed.

Lemma jm_get_delete_eq k m : jm_get k (jm_delete k m) = None.
Proof.
  induction m as [|[k0 v0] m IH]; simpl; [done|].
  case_decide; simpl; [done|]. by rewrite decide_False.
Qed.

Lemma jm_get_delete_ne k k' m : k ≠ k' → jm_get k' (jm_delete k m) = jm_get k' m.
Proof.
  intros Hne. induction m as [|[k0 v0] m IH]; simpl; [done|].
  case_decide; simpl; [subst; by rewrite decide_False|].
  case_decide; done.
Qed.

Lemma jm_set_set k v v' m : jm_set k v (jm_set k v' m) = jm_set k v m.
Proof.
  induction m as [|[k0 v0] m IH]; simpl; [by rewrite decide_True|].
  case_decide; simpl; [by rewrite decide_True|]. rewrite decide_False by done.
  by rewrite IH.
Qed.

Lemma jm_delete_set k v m : jm_delete k (jm_set k v m) = jm_delete k m.
Proof.
  induction m as [|[k0 v0] m IH]; simpl; [by rewrite decide_True|].
  case_decide; simpl; [by rewrite decide_True|]. rewrite decide_False by done.
  by rewrite IH.
Qed.

Lemma jm_set_id k v m : jm_get k m = Some v → jm_set k v m = m.
Proof.
  induction m as [|[k0 v0] m IH]; simpl; [done|].
  case_decide; [intros [= ->]; by subst|]. intros ?. by rewrite IH.
Qed.

Lemma jm_has_true k m : jm_has k m = true ↔ is_Some (jm_get k m).
Proof. unfold jm_has. by rewrite bool_decide_eq_true. Qed.

Lemma jm_has_false k m : jm_has k m = false ↔ jm_get k m = None.
Proof. unfold jm_has. by rewrite bool_decide_eq_false, eq_None_not_Some. Qed.

Lemma jm_get_Some_elem k v m : jm_get k m = Some v → (k, v) ∈ m.
Proof.
  induction m as [|[k0 v0] m IH]; simpl; [done|].
  case_decide; [intros [= ->]; subst; left|]. intros ?. right. auto.
Qed.

Lemma jm_get_None_keys k m : jm_get k m = None ↔ k ∉ jm_keys m.
Proof.
  unfold jm_keys. induction m as [|[k0 v0] m IH]; simpl.
  - split; [intros _; apply not_elem_of_nil | done].
  - rewrite not_elem_of_cons. case_decide as Hk; [subst; split; [done|by intros [? _]]|].
    rewrite IH. split; [by split|by intros [_ ?]].
Qed.

Lemma jm_elem_get k v m : jm_wf m → (k, v) ∈ m → jm_get k m = Some v.
Proof.
  unfold jm_wf, jm_keys. induction m as [|[k0 v0] m IH]; simpl.
  - intros _ Hin. by apply elem_of_nil in Hin.
  - intros Hnd Hin. apply NoDup_cons in Hnd as [Hk0 Hnd].
    apply elem_of_cons in Hin as [[= -> ->]|Hin]; [by rewrite decide_True|].
    rewrite decide_False; [by apply IH|].
    intros ->. apply Hk0. apply list_elem_of_fmap. by exists (k, v).
Qed.

Lemma jm_keys_set_in k v m : is_Some (jm_get k m) → jm_keys (jm_set k v m) = jm_keys m.
Proof.
  unfold jm_keys. induction m as [|[k0 v0] m IH]; csimpl; [by intros [? ?]|].
  case_decide; csimpl; [by subst|]. intros ?. f_equal. by apply IH.
Qed.

Lemma jm_keys_set_new k v m : jm_get k m = None → jm_keys (jm_set k v m) = jm_keys m ++ [k].
Proof.
  unfold jm_keys. induction m as [|[k0 v0] m IH]; csimpl; [done|].
  case_decide; csimpl; [done|]. intros ?. f_equal. by apply IH.
Qed.

Lemma jm_keys_delete k m : jm_keys (jm_delete k m) = filter (λ k', k' ≠ k) (jm_keys m).
Proof.
  unfold jm_keys. induction m as [|[k0 v0] m IH]; csimpl; [done|].
  rewrite filter_cons. case_decide; csimpl.
  - rewrite decide_False; [done|]. by intros ?.
  - rewrite decide_True by done. csimpl. f_equal. by apply IH.
Qed.

Lemma jm_wf_set k v m : jm_wf m → jm_wf (jm_set k v m).
Proof.
  unfold jm_wf. intros Hwf. destruct (jm_get k m) as [v0|] eqn:Hget.
  - by rewrite jm_keys_set_in.
  - rewrite jm_keys_set_new by done. apply NoDup_app. split_and!; [done| |apply NoDup_singleton].
    intros k' Hk' ->%list_elem_of_singleton. by apply jm_get_None_keys in Hget.
Qed.

Lemma jm_wf_delete k m : jm_wf m → jm_wf (jm_delete k m).
Proof. unfold jm_wf. rewrite jm_keys_delete. apply NoDup_filter. Qed.
End JsMap_lemmas.

Section JsSet_lemmas.
Context {A : Type} `{EqDecision A}.
Implicit Types (x y : A) (s : list A).

Lemma elem_of_set_add x y s : y ∈ set_add x s ↔ y = x ∨ y ∈ s.
Proof.
  unfold set_add. case_decide as Hx.
  - split; [by right|]. by intros [->|?].
  - rewrite elem_of_app, list_elem_of_singleton. tauto.
Qed.

Lemma elem_of_set_delete x y s : y ∈ set_delete x s ↔ y ≠ x ∧ y ∈ s.
Proof. unfold set_delete. by rewrite list_elem_of_filter. Qed.

Lemma set_delete_notin x s : x ∉ s → set_delete x s = s.
Proof.
  unfold set_delete. induction s as [|y s IH]; [done|].
  rewrite not_elem_of_cons. intros [Hne Hs]. rewrite filter_cons.
  rewrite decide_True by done. by rewrite IH.
Qed.

Lemma NoDup_set_add x s : NoDup s → NoDup (set_add x s).
Proof.
  unfold set_add. case_decide; [done|]. intros Hs.
  apply NoDup_app. split_and!; [done| |apply NoDup_singleton].
  by intros y Hy ->%list_elem_of_singleton.
Qed.

Lemma NoDup_set_delete x s : NoDup s → NoDup (set_delete x s).
Proof. apply NoDup_filter. Qed.
End JsSet_lemmas.

(** ** [broadcast] *)

Lemma broadcast_loop_delivers env message excludeWs subs stats :
  (∀ sub, sub ∈ subs → deliverable env excludeWs sub →
     send_throws env (ws sub) message = false) →
  (broadcast_loop env message excludeWs subs stats).1
    = (λ sub, ESend (ws sub) message) <$> filter (deliverable env excludeWs) subs
  ∧ is_Some (broadcast_loop env message excludeWs subs stats).2.
Proof.
  revert stats. induction subs as [|sub subs IH]; intros stats Hok; [by eauto|].
  simpl. rewrite filter_cons.
  assert (∀ s, s ∈ subs → deliverable env excludeWs s →
            send_throws env (ws s) message = false) as Hrest.
  { intros s Hs. apply Hok. by right. }
  case_bool_decide as Hex.
  { rewrite decide_False by (intros [? _]; done). by apply IH. }
  case_bool_decide as Hopen.
  - rewrite decide_True by done.
    rewrite Hok; [|left|done]. simpl.
    destruct (IH {| messageSent := S (messageSent stats); excluded := excluded stats;
                    closedConnections := closedConnections stats |} Hrest) as [-> ?].
    done.
  - rewrite decide_False by (intros [_ ?]; done). by apply IH.
Qed.

Lemma broadcast_loop_throws env message excludeWs pre sub post stats :
  (∀ p, p ∈ pre → deliverable env excludeWs p →
     send_throws env (ws p) message = false) →
  deliverable env excludeWs sub →
  send_throws env (ws sub) message = true →
  broadcast_loop env message excludeWs (pre ++ sub :: post) stats
  = (((λ p, ESend (ws p) message) <$> filter (deliverable env excludeWs) pre)
       ++ [ESendThrew (ws sub) message], None).
Proof.
  intros Hpre [Hex Hopen] Hthrow. revert stats Hpre.
  induction pre as [|p pre IH]; intros stats Hpre; simpl.
  - rewrite bool_decide_eq_false_2 by done.
    rewrite bool_decide_eq_true_2 by done. by rewrite Hthrow.
  - assert (∀ s, s ∈ pre → deliverable env excludeWs s →
              send_throws env (ws s) message = false) as Hrest.
    { intros s Hs. apply Hpre. by right. }
    rewrite filter_cons.
    case_bool_decide as Hex'.
    { rewrite decide_False by (intros [? _]; done). by apply IH. }
    case_bool_decide as Hopen'.
    + rewrite decide_True by done.
      rewrite Hpre; [|left|done]. simpl. by rewrite IH.
    + rewrite decide_False by (intros [_ ?]; done). by apply IH.
Qed.

(** [broadcast] reads the registry and never writes it. *)
Lemma broadcast_final env channelName event data excludeWs st :
  final (broadcast env channelName event data excludeWs) st = st.
Proof.
  unfold broadcast, final, bind, gets, emit, emits, logger. simpl.
  destruct (jm_get channelName (channels st)); simpl; [|done].
  by destruct (broadcast_loop _ _ _ _ _).2.
Qed.

Lemma broadcast_trace_missing env channelName event data excludeWs st :
  jm_get channelName (channels st) = None →
  trace (broadcast env channelName event data excludeWs) st
  = [EBroadcast channelName event data excludeWs;
     ELog WARN "Attempted to broadcast to non-existent channel"].
Proof.
  intros H. unfold broadcast, trace, bind, gets, emit, logger. simpl. by rewrite H.
Qed.

Lemma broadcast_trace_existing env channelName event data excludeWs st channel :
  jm_get channelName (channels st) = Some channel →
  let message := JSON_stringify env (frame_payload event data) in
  let r := broadcast_loop env message excludeWs channel
             {| messageSent := 0; excluded := 0; closedConnections := 0 |} in
  trace (broadcast env channelName event data excludeWs) st
  = EBroadcast channelName event data excludeWs
      :: EStringify (frame_payload event data)
      :: r.1 ++ [match r.2 with
                 | Some _ => ELog DEBUG "Message broadcast complete"
                 | None => ELog ERROR
                     ("Failed to broadcast message to channel " +:+ channelName)
                 end].
Proof.
  intros H. unfold broadcast, trace, bind, gets, emit, emits, logger. simpl.
  rewrite H. simpl. by destruct (broadcast_loop _ _ _ _ _).2.
Qed.

Lemma broadcast_loop_broadcasts env message excludeWs subs stats :
  broadcasts (broadcast_loop env message excludeWs subs stats).1 = [].
Proof.
  revert stats. induction subs as [|sub subs IH]; intros stats; [done|]. simpl.
  repeat case_bool_decide; try apply IH.
  destruct (send_throws _ _ _); simpl; [done|]. apply IH.
Qed.

(** Every call of [broadcast] emits exactly one [EBroadcast] event. *)
Lemma broadcast_broadcasts env channelName event data excludeWs st :
  broadcasts (trace (broadcast env channelName event data excludeWs) st)
  = [(channelName, event, data)].
Proof.
  destruct (jm_get channelName (channels st)) as [channel|] eqn:H.
  - rewrite (broadcast_trace_existing _ _ _ _ _ _ _ H). simpl.
    unfold broadcasts at 1. simpl. rewrite omap_app.
    fold (broadcasts (broadcast_loop env (JSON_stringify env (frame_payload event data))
      excludeWs channel {| messageSent := 0; excluded := 0; closedConnections := 0 |}).1).
    rewrite broadcast_loop_broadcasts. simpl.
    by destruct (broadcast_loop _ _ _ _ _).2.
  - by rewrite broadcast_trace_missing.
Qed.

Lemma sends_app t1 t2 : sends (t1 ++ t2) = sends t1 ++ sends t2.
Proof. apply omap_app. Qed.

Lemma broadcasts_app t1 t2 : broadcasts (t1 ++ t2) = broadcasts t1 ++ broadcasts t2.
Proof. apply omap_app. Qed.

Lemma stringify_calls_app t1 t2 :
  stringify_calls (t1 ++ t2) = stringify_calls t1 ++ stringify_calls t2.
Proof. apply omap_app. Qed.

Lemma sends_ESend (l : list ChannelSubscription) message :
  sends ((λ sub, ESend (ws sub) message) <$> l) = (λ sub, (ws sub, message)) <$> l.
Proof. unfold sends. induction l as [|x l IH]; csimpl; [done|]. by f_equal. Qed.

Lemma stringify_calls_ESend (l : list ChannelSubscription) message :
  stringify_calls ((λ sub, ESend (ws sub) message) <$> l) = [].
Proof. induction l as [|x l IH]; simpl; done. Qed.

(** C8, as stated, fails: of three open subscribers, when [ws.send] throws
    for the second one, the third one is open, is not excluded, and is sent
    nothing. *)
Lemma broadcast_fan_out_counterexample :
  let env := demo_env [] [2] 0 in
  let st := final (run [(env, Subscribe "x" (demo_sub 1 "u1"));
                        (env, Subscribe "x" (demo_sub 2 "u2"));
                        (env, Subscribe "x" (demo_sub 3 "u3"))]) empty_manager in
  let data := JObj [("id", JStr "m1")] in
  let t := trace (broadcast env "x" NEW_MESSAGE data None) st in
  jm_get "x" (channels st) = Some [demo_sub 1 "u1"; demo_sub 2 "u2"; demo_sub 3 "u3"]
  ∧ readyState env 3 = OPEN
  ∧ ¬ (∃ m, (3, m) ∈ sends t).
Proof.
  intros env st data t.
  assert (sends t = [(1, "{event:new-message;data:{id:m1;};}")]) as Hsends
    by (by vm_compute).
  split_and!; [by vm_compute|by vm_compute|].
  intros [m Hm]. rewrite Hsends in Hm. by apply list_elem_of_singleton in Hm.
Qed.

(** C8, amended. Fan-out of [broadcast] on an existing channel, during
    which no [ws.send] to a subscriber that is open and not excluded
    throws: the payload [{event, data}] goes through [JSON.stringify]
    exactly once; the frames sent are that one encoded string, once for
    each subscription of the channel that is open and not the excluded
    connection, in the order of the subscriber set; hence a connection that
    is not open, or that is the excluded one, is sent nothing. *)
Theorem broadcast_fan_out env st channelName event data excludeWs channel :
  jm_get channelName (channels st) = Some channel →
  (∀ sub, sub ∈ channel → deliverable env excludeWs sub →
     send_throws env (ws sub) (JSON_stringify env (frame_payload event data)) = false) →
  let t := trace (broadcast env channelName event data excludeWs) st in
  let message := JSON_stringify env (frame_payload event data) in
  stringify_calls t = [frame_payload event data]
  ∧ sends t = (λ sub, (ws sub, message)) <$> filter (deliverable env excludeWs) channel
  ∧ (∀ c m, (c, m) ∈ sends t →
       m = message ∧ readyState env c = OPEN ∧ Some c ≠ excludeWs).
Proof.
  intros Hch Hok t message.
  assert (sends t = (λ sub, (ws sub, message)) <$> filter (deliverable env excludeWs) channel
          ∧ stringify_calls t = [frame_payload event data]) as [Hsends Hstr].
  { subst t. rewrite (broadcast_trace_existing _ _ _ _ _ _ _ Hch).
    destruct (broadcast_loop_delivers env message excludeWs channel
                {| messageSent := 0; excluded := 0; closedConnections := 0 |} Hok)
      as [Hev [stats Hres]].
    fold message. rewrite Hev, Hres.
    change (?a :: ?b :: ?l) with ([a; b] ++ l).
    rewrite !sends_app, !stringify_calls_app, sends_ESend, stringify_calls_ESend.
    simpl. by rewrite app_nil_r. }
  split_and!; [done..|].
  intros c m Hin. rewrite Hsends in Hin.
  apply list_elem_of_fmap in Hin as [sub [[= -> ->] Hsub]].
  apply list_elem_of_filter in Hsub as [[Hex Hopen] _]. done.
Qed.

(** Three open subscribers and a closed one: the frame reaches the three;
    excluding one of them leaves two. *)
Lemma broadcast_fan_out_witness :
  let env := demo_env [4] [] 0 in
  let st := final (run [(env, Subscribe "x" (demo_sub 1 "u1"));
                        (env, Subscribe "x" (demo_sub 2 "u2"));
                        (env, Subscribe "x" (demo_sub 3 "u3"));
                        (env, Subscribe "x" (demo_sub 4 "u4"))]) empty_manager in
  let data := JObj [("id", JStr "m1")] in
  sends (trace (broadcast env "x" NEW_MESSAGE data None) st)
    = [(1, "{event:new-message;data:{id:m1;};}");
       (2, "{event:new-message;data:{id:m1;};}");
       (3, "{event:new-message;data:{id:m1;};}")]
  ∧ sends (trace (broadcast env "x" NEW_MESSAGE data (Some 2)) st)
    = [(1, "{event:new-message;data:{id:m1;};}");
       (3, "{event:new-message;data:{id:m1;};}")].
Proof.
  intros env st data. split.
  - by refine (proj1 (proj2 (broadcast_fan_out env st "x" NEW_MESSAGE data None
      [demo_sub 1 "u1"; demo_sub 2 "u2"; demo_sub 3 "u3"; demo_sub 4 "u4"] _ _))).
  - by refine (proj1 (proj2 (broadcast_fan_out env st "x" NEW_MESSAGE data (Some 2)
      [demo_sub 1 "u1"; demo_sub 2 "u2"; demo_sub 3 "u3"; demo_sub 4 "u4"] _ _))).
Defined.

(** C1, as stated, fails: with two open subscribers, when [ws.send] throws
    for the first one the second one is sent nothing. *)
Lemma broadcast_abort_counterexample :
  let env := demo_env [] [1] 0 in
  let st := final (run [(env, Subscribe "x" (demo_sub 1 "u1"));
                        (env, Subscribe "x" (demo_sub 2 "u2"))]) empty_manager in
  let data := JObj [("id", JStr "m1")] in
  let message := JSON_stringify env (frame_payload NEW_MESSAGE data) in
  subscribers st "x" = [demo_sub 1 "u1"; demo_sub 2 "u2"]
  ∧ readyState env 1 = OPEN ∧ readyState env 2 = OPEN
  ∧ send_throws env 1 message = true ∧ send_throws env 2 message = false
  ∧ sends (trace (broadcast env "x" NEW_MESSAGE data None) st) = [].
Proof. vm_compute. done. Qed.

(** C1, amended. When [ws.send] throws for a subscriber during
    [broadcast], the exception leaves the loop and is caught and logged by
    [broadcast] itself: the subscribers before the failing one that are
    open and not excluded have each been sent the frame, no subscriber after
    it is sent anything, and the registry is unchanged. *)
Theorem broadcast_send_failure env st channelName event data excludeWs pre sub post :
  jm_get channelName (channels st) = Some (pre ++ sub :: post) →
  let message := JSON_stringify env (frame_payload event data) in
  (∀ p, p ∈ pre → deliverable env excludeWs p → send_throws env (ws p) message = false) →
  deliverable env excludeWs sub →
  send_throws env (ws sub) message = true →
  trace (broadcast env channelName event data excludeWs) st
    = [EBroadcast channelName event data excludeWs;
       EStringify (frame_payload event data)]
      ++ ((λ p, ESend (ws p) message) <$> filter (deliverable env excludeWs) pre)
      ++ [ESendThrew (ws sub) message;
          ELog ERROR ("Failed to broadcast message to channel " +:+ channelName)]
  ∧ sends (trace (broadcast env channelName event data excludeWs) st)
    = (λ p, (ws p, message)) <$> filter (deliverable env excludeWs) pre
  ∧ final (broadcast env channelName event data excludeWs) st = st.
Proof.
  intros Hch message Hpre Hsub Hthrow.
  assert (trace (broadcast env channelName event data excludeWs) st
    = [EBroadcast channelName event data excludeWs;
       EStringify (frame_payload event data)]
      ++ ((λ p, ESend (ws p) message) <$> filter (deliverable env excludeWs) pre)
      ++ [ESendThrew (ws sub) message;
          ELog ERROR ("Failed to broadcast message to channel " +:+ channelName)]) as Ht.
  { rewrite (broadcast_trace_existing _ _ _ _ _ _ _ Hch). fold message.
    rewrite (broadcast_loop_throws env message excludeWs pre sub post _ Hpre Hsub Hthrow).
    simpl. by rewrite <-(assoc_L (++)). }
  split_and!; [done| |apply broadcast_final].
  rewrite Ht, !sends_app, sends_ESend. simpl. by rewrite app_nil_r.
Qed.

(** Three open subscribers, the second one fails: the first is served,
    the third is not. *)
Lemma broadcast_send_failure_witness :
  let env := demo_env [] [2] 0 in
  let st := final (run [(env, Subscribe "x" (demo_sub 1 "u1"));
                        (env, Subscribe "x" (demo_sub 2 "u2"));
                        (env, Subscribe "x" (demo_sub 3 "u3"))]) empty_manager in
  sends (trace (broadcast env "x" NEW_MESSAGE JNull None) st)
    = [(1, "{event:new-message;data:null;}")].
Proof.
  intros env st.
  refine (proj1 (proj2 (broadcast_send_failure env st "x" NEW_MESSAGE JNull None
    [demo_sub 1 "u1"] (demo_sub 2 "u2") [demo_sub 3 "u3"] _ _ _ _))).
  - reflexivity.
  - intros p Hp _. apply list_elem_of_singleton in Hp as ->. reflexivity.
  - split; [discriminate | reflexivity].
  - reflexivity.
Defined.

(** ** [subscribe]: the identity check *)

(** C6. A [subscribe] whose connection carries a verified identity with
    another userId than the claimed one changes no field of the registry
    and calls [broadcast] not at all; its only effect is one warning in the
    log, and the call returns normally. *)
Theorem subscribe_identity_mismatch env st channelName subscription token :
  user env (ws subscription) = Some token →
  token_userId token ≠ userId subscription →
  subscribe env channelName subscription st
  = (tt, st, [ELog WARN "User ID mismatch in subscription request"]).
Proof.
  intros Htok Hne. unfold subscribe, identity_mismatch. rewrite Htok.
  by rewrite bool_decide_eq_true_2.
Qed.

Lemma subscribe_identity_mismatch_witness :
  let env := with_user (λ _, Some (demo_token "u1")) (demo_env [] [] 0) in
  final (subscribe env "x" (demo_sub 1 "u2")) empty_manager = empty_manager
  ∧ broadcasts (trace (subscribe env "x" (demo_sub 1 "u2")) empty_manager) = [].
Proof.
  intros env. unfold final, trace.
  by rewrite (subscribe_identity_mismatch env empty_manager "x" (demo_sub 1 "u2")
                (demo_token "u1")).
Defined.

(** ** Stepping through the methods *)

Global Arguments broadcast : simpl never.
Global Arguments trace : simpl never.
Global Arguments final : simpl never.
Global Arguments bind : simpl never.
Global Arguments when : simpl never.
Global Arguments gets : simpl never.
Global Arguments modify : simpl never.
Global Arguments emit : simpl never.
Global Arguments emits : simpl never.
Global Arguments ret : simpl never.
Global Arguments logger : simpl never.

Lemma tell_nil {A} (r : A * ChannelManager * list Event) : tell [] r = r.
Proof. by destruct r as [[? ?] ?]. Qed.

Lemma tell_tell {A} t1 t2 (r : A * ChannelManager * list Event) :
  tell t1 (tell t2 r) = tell (t1 ++ t2) r.
Proof. unfold tell. simpl. by rewrite (assoc_L (++)). Qed.

Lemma bind_gets {A B} (f : ChannelManager → A) (k : A → M B) st :
  bind (gets f) k st = k (f st) st.
Proof. unfold bind, gets. simpl. by destruct (k (f st) st) as [[? ?] ?]. Qed.

Lemma bind_modify {B} (f : ChannelManager → ChannelManager) (k : unit → M B) st :
  bind (modify f) k st = k tt (f st).
Proof. unfold bind, modify. simpl. by destruct (k tt (f st)) as [[? ?] ?]. Qed.

Lemma bind_emit {B} e (k : unit → M B) st : bind (emit e) k st = tell [e] (k tt st).
Proof. reflexivity. Qed.

Lemma bind_logger {B} level message (k : unit → M B) st :
  bind (logger level message) k st = tell [ELog level message] (k tt st).
Proof. reflexivity. Qed.

Lemma bind_ret {A B} (a : A) (k : A → M B) st : bind (ret a) k st = k a st.
Proof. unfold bind, ret. simpl. by destruct (k a st) as [[? ?] ?]. Qed.

Lemma bind_bind {A B C} (m : M A) (f : A → M B) (g : B → M C) st :
  bind (bind m f) g st = bind m (λ a, bind (f a) g) st.
Proof. unfold bind. simpl. by rewrite (assoc_L (++)). Qed.

Lemma bind_result {A B} (m : M A) (k : A → M B) st a st1 t1 :
  m st = (a, st1, t1) → bind m k st = tell t1 (k a st1).
Proof. intros H. unfold bind, tell. by rewrite H. Qed.

Lemma bind_when {B} (b : bool) (m : M unit) (k : unit → M B) st :
  bind (when b m) k st = if b then bind m k st else k tt st.
Proof. destruct b; [done|]. apply bind_ret. Qed.

Lemma broadcast_result env channelName event data excludeWs st :
  broadcast env channelName event data excludeWs st
  = (tt, st, trace (broadcast env channelName event data excludeWs) st).
Proof.
  pose proof (broadcast_final env channelName event data excludeWs st) as H.
  unfold final, trace in *. destruct (broadcast _ _ _ _ _ _) as [[[] ?] ?]. simpl in *. by subst.
Qed.

Lemma updateOnlineStatus_result env serverId userId isOnline st :
  let serverUsers := update_presence userId isOnline (presence st serverId) in
  let st' := set_onlineUsers <[serverId := serverUsers]> st in
  updateOnlineStatus env serverId userId isOnline st
  = (tt, st',
     trace (broadcast env serverId MEMBER_STATUS_UPDATE
              (status_payload userId isOnline serverUsers) None) st'
     ++ [ELog DEBUG "Updated online status"]).
Proof.
  intros serverUsers st'. unfold updateOnlineStatus.
  rewrite bind_gets.
  assert (∀ B (k : unit → M B),
    bind (when (negb (bool_decide (is_Some (onlineUsers st !! serverId))))
            (modify (set_onlineUsers <[serverId:=[]]>))) k st
    = k tt (set_onlineUsers (λ m, <[serverId := presence st serverId]> m) st)) as ->.
  { intros B k. rewrite bind_when. unfold presence.
    destruct (onlineUsers st !! serverId) as [l|] eqn:E.
    - rewrite bool_decide_eq_true_2 by eauto. simpl.
      f_equal. unfold set_onlineUsers. destruct st; simpl in *.
      f_equal. by rewrite insert_id.
    - rewrite bool_decide_eq_false_2 by (by intros [? ?]). simpl.
      by rewrite bind_modify. }
  rewrite bind_gets. simpl. rewrite lookup_insert_eq. simpl.
  rewrite bind_modify.
  assert (set_onlineUsers
       <[serverId:=if isOnline
                   then set_add userId (presence st serverId)
                   else set_delete userId (presence st serverId)]>
       (set_onlineUsers
          (λ m : gmap string (list string),
             <[serverId:=presence st serverId]> m)
          st) = st') as ->.
  { unfold st', set_onlineUsers. simpl. by rewrite insert_insert_eq. }
  rewrite (bind_result _ _ _ _ _ _ (broadcast_result _ _ _ _ _ _)).
  reflexivity.
Qed.

Global Arguments updateOnlineStatus : simpl never.

Lemma final_tell {A} t (r : A * ChannelManager * list Event) : (tell t r).1.2 = r.1.2.
Proof. done. Qed.

Lemma trace_tell {A} t (r : A * ChannelManager * list Event) : (tell t r).2 = t ++ r.2.
Proof. done. Qed.

Ltac mgr_simpl :=
  unfold set_channels, set_wsToChannels, set_typingUsers, set_wsToUser, set_onlineUsers;
  cbn [channels wsToChannels typingUsers wsToUser onlineUsers
       fst snd default from_option negb id].

Tactic Notation "mgr_simpl" "in" hyp(H) :=
  unfold set_channels, set_wsToChannels, set_typingUsers, set_wsToUser, set_onlineUsers in H;
  cbn [channels wsToChannels typingUsers wsToUser onlineUsers
       fst snd default from_option negb id] in H.

Ltac mstep :=
  first [ rewrite bind_bind | rewrite bind_gets | rewrite bind_modify
        | rewrite bind_logger | rewrite bind_emit | rewrite bind_ret
        | rewrite final_tell | rewrite trace_tell ];
  cbv beta.
Ltac msteps := repeat mstep.
Ltac msimpl := msteps; mgr_simpl.

Lemma unsubscribe_final channelName ws0 st :
  final (unsubscribe channelName ws0) st = unsubscribe_state channelName ws0 st.
Proof.
  unfold final, unsubscribe, unsubscribe_state. msimpl.
  destruct (jm_get channelName (channels st)) as [channel|] eqn:Hch; [|done].
  cbv zeta. msimpl. rewrite bind_when.
  assert (∀ st1 : ChannelManager,
    ((when (from_option truthy false (unsubscribe_loop ws0 channel).1)
        (logger INFO "Client unsubscribed from channel") ;;
      when (bool_decide (length (unsubscribe_loop ws0 channel).2 = 0))
        (modify (set_channels (jm_delete channelName)) ;;
         logger DEBUG "Removed empty channel")) st1).1.2
    = if bool_decide (length (unsubscribe_loop ws0 channel).2 = 0)
      then set_channels (jm_delete channelName) st1 else st1) as Htail.
  { intros st1. rewrite bind_when.
    assert (∀ st2 : ChannelManager,
      (when (bool_decide (length (unsubscribe_loop ws0 channel).2 = 0))
        (modify (set_channels (jm_delete channelName)) ;;
         logger DEBUG "Removed empty channel") st2).1.2
      = if bool_decide (length (unsubscribe_loop ws0 channel).2 = 0)
        then set_channels (jm_delete channelName) st2 else st2) as Hlast.
    { intros st2. destruct (bool_decide _); [|done]. unfold when. by msimpl. }
    destruct (from_option truthy false _); [msimpl|]; apply Hlast. }
  destruct (wsToChannels st !! ws0) as [l|] eqn:Hl.
  - rewrite bool_decide_eq_true_2 by eauto. msimpl.
    rewrite lookup_insert_eq, Hl. msimpl. rewrite bind_when.
    destruct (bool_decide (length (set_delete channelName l) = 0)) eqn:Hempty.
    + msimpl. rewrite Htail. mgr_simpl.
      rewrite delete_insert_eq.
      destruct (bool_decide (length (unsubscribe_loop ws0 channel).2 = 0)); mgr_simpl;
        [by rewrite jm_delete_set|done].
    + rewrite Htail.
      destruct (bool_decide (length (unsubscribe_loop ws0 channel).2 = 0)); mgr_simpl;
        [by rewrite jm_delete_set|done].
  - rewrite bool_decide_eq_false_2 by (by intros [? ?]).
    rewrite Htail.
    destruct (bool_decide (length (unsubscribe_loop ws0 channel).2 = 0)); mgr_simpl;
        [by rewrite jm_delete_set|done].
Qed.

Lemma unsubscribe_trace channelName ws0 st :
  trace (unsubscribe channelName ws0) st
  = match jm_get channelName (channels st) with
    | None => [ELog WARN "Attempted to unsubscribe from non-existent channel"]
    | Some channel =>
        (if from_option truthy false (unsubscribe_loop ws0 channel).1
         then [ELog INFO "Client unsubscribed from channel"] else [])
        ++ (if bool_decide (length (unsubscribe_loop ws0 channel).2 = 0)
            then [ELog DEBUG "Removed empty channel"] else [])
    end.
Proof.
  unfold trace, unsubscribe. msteps.
  destruct (jm_get channelName (channels st)) as [channel|] eqn:Hch; [|done].
  cbv zeta. msteps. rewrite bind_when.
  assert (∀ st1 : ChannelManager,
    ((when (from_option truthy false (unsubscribe_loop ws0 channel).1)
        (logger INFO "Client unsubscribed from channel") ;;
      when (bool_decide (length (unsubscribe_loop ws0 channel).2 = 0))
        (modify (set_channels (jm_delete channelName)) ;;
         logger DEBUG "Removed empty channel")) st1).2
    = (if from_option truthy false (unsubscribe_loop ws0 channel).1
         then [ELog INFO "Client unsubscribed from channel"] else [])
        ++ (if bool_decide (length (unsubscribe_loop ws0 channel).2 = 0)
            then [ELog DEBUG "Removed empty channel"] else [])) as Htail.
  { intros st1. rewrite bind_when.
    assert (∀ st2 : ChannelManager,
      (when (bool_decide (length (unsubscribe_loop ws0 channel).2 = 0))
        (modify (set_channels (jm_delete channelName)) ;;
         logger DEBUG "Removed empty channel") st2).2
      = if bool_decide (length (unsubscribe_loop ws0 channel).2 = 0)
        then [ELog DEBUG "Removed empty channel"] else []) as Hlast.
    { intros st2. destruct (bool_decide _); [|done]. unfold when. by msteps. }
    destruct (from_option truthy false _); [msteps|]; by rewrite Hlast. }
  destruct (bool_decide (is_Some (wsToChannels _ !! ws0))) eqn:Hhas; [|apply Htail].
  msteps. rewrite bind_when.
  destruct (bool_decide (length (default [] (wsToChannels _ !! ws0)) = 0));
    [msteps|]; apply Htail.
Qed.

Lemma unsubscribe_broadcasts channelName ws0 st :
  broadcasts (trace (unsubscribe channelName ws0) st) = [].
Proof.
  rewrite unsubscribe_trace. destruct (jm_get _ _); [|done].
  by destruct (from_option _ _ _), (bool_decide _).
Qed.

Global Arguments unsubscribe : simpl never.

Lemma list_find_duplicate st channelName subscription :
  is_Some (list_find (λ sub, ws sub = ws subscription ∧ userId sub = userId subscription)
             (subscribers st channelName))
  ↔ duplicate st channelName subscription.
Proof.
  unfold duplicate. split.
  - intros [[i sub] H]. apply list_find_Some in H as (Hi & HP & _).
    exists sub. split; [by eapply list_elem_of_lookup_2|done].
  - intros (sub & Hin & HP). apply list_elem_of_lookup in Hin as [i Hi].
    destruct (list_find_elem_of (λ sub, ws sub = ws subscription
                                     ∧ userId sub = userId subscription)
                (subscribers st channelName) sub) as [r Hr]; [|done|by eauto].
    by eapply list_elem_of_lookup_2.
Qed.

Lemma subscribe_result env channelName subscription st :
  subscribe env channelName subscription st
  = if identity_mismatch env subscription then
      (tt, st, [ELog WARN "User ID mismatch in subscription request"])
    else if decide (duplicate st channelName subscription) then
      (tt, st, [ELog DEBUG "Skipping duplicate subscription"])
    else
      let st' := subscribe_state channelName subscription st in
      (tt, st',
       trace (broadcast env channelName MEMBER_STATUS_UPDATE
                (status_payload (userId subscription) true (presence st' channelName))
                None) st'
       ++ [ELog DEBUG "Updated online status"; ELog INFO "New subscription added"]).
Proof.
  unfold subscribe. destruct (identity_mismatch env subscription); [done|].
  msteps. rewrite bind_when.
  pose proof (list_find_duplicate st channelName subscription) as Hdup.
  destruct (decide (duplicate st channelName subscription)) as [Hd|Hd].
  - (* the channel exists and holds the pair *)
    apply Hdup in Hd as [r Hr].
    assert (jm_has channelName (channels st) = true) as ->.
    { apply jm_has_true. unfold subscribers in Hr.
      destruct (jm_get channelName (channels st)); [by eauto|done]. }
    cbn [negb]. msteps. fold (subscribers st channelName). by rewrite Hr.
  - assert (list_find (λ sub, ws sub = ws subscription ∧ userId sub = userId subscription)
              (subscribers st channelName) = None) as Hnone.
    { apply eq_None_not_Some. by rewrite Hdup. }
    set (st1 := if negb (jm_has channelName (channels st))
                then set_channels (jm_set channelName []) st else st).
    assert (subscribers st1 channelName = subscribers st channelName
            ∧ jm_set channelName (subscribers st channelName ++ [subscription])
                (channels st1)
              = jm_set channelName (subscribers st channelName ++ [subscription])
                  (channels st)
            ∧ wsToChannels st1 = wsToChannels st ∧ wsToUser st1 = wsToUser st
            ∧ onlineUsers st1 = onlineUsers st ∧ typingUsers st1 = typingUsers st)
      as (Hsubs & Hset & Hidx & Husr & Honl & Htyp).
    { subst st1. unfold subscribers.
      destruct (jm_has channelName (channels st)) eqn:Hhas; cbn [negb]; [done|].
      apply jm_has_false in Hhas. mgr_simpl.
      by rewrite jm_get_set_eq, Hhas, jm_set_set. }
    assert (∀ B (k : unit → M B),
      (if negb (jm_has channelName (channels st))
       then bind (modify (set_channels (jm_set channelName []))) k st
       else k tt st) = k tt st1) as ->.
    { intros B k. subst st1. destruct (negb _); [by rewrite bind_modify|done]. }
    msteps. fold (subscribers st1 channelName). rewrite Hsubs, Hnone.
    msteps. rewrite bind_when.
    set (st2 := set_channels _ (set_wsToUser _ st1)).
    set (st3 := if negb (bool_decide (is_Some (wsToChannels st2 !! ws subscription)))
                then set_wsToChannels <[ws subscription := []]> st2 else st2).
    assert (∀ B (k : unit → M B),
      (if negb (bool_decide (is_Some (wsToChannels st2 !! ws subscription)))
       then bind (modify (set_wsToChannels <[ws subscription := []]>)) k st2
       else k tt st2) = k tt st3) as ->.
    { intros B k. subst st3. destruct (negb (bool_decide _)); [by rewrite bind_modify|done]. }
    msteps.
    rewrite (bind_result _ _ _ _ _ _ (updateOnlineStatus_result _ _ _ _ _)).
    msteps. unfold tell. cbn [fst snd].
    set (st4 := set_wsToChannels _ st3).
    assert (set_onlineUsers
              <[channelName := update_presence (userId subscription) true
                                 (presence st4 channelName)]> st4
            = subscribe_state channelName subscription st) as Hst.
    { unfold subscribe_state. subst st4 st3 st2. unfold presence, index.
      destruct (negb (bool_decide _)) eqn:Hhas; mgr_simpl.
      - rewrite Hidx, Husr, Honl, Htyp, Hset. f_equal.
        rewrite insert_insert_eq, lookup_insert_eq.
        rewrite negb_true_iff, bool_decide_eq_false in Hhas.
        mgr_simpl in Hhas. rewrite Hidx in Hhas.
        apply eq_None_not_Some in Hhas. by rewrite Hhas.
      - rewrite Hidx, Husr, Honl, Htyp, Hset. done. }
    rewrite Hst. cbv zeta.
    assert (update_presence (userId subscription) true (presence st4 channelName)
            = presence (subscribe_state channelName subscription st) channelName) as ->.
    { rewrite <-Hst. unfold presence at 2. mgr_simpl. by rewrite lookup_insert_eq. }
    by rewrite <-(assoc_L (++)).
Qed.

(** ** The registry as seen through [subscribers], [index] and [presence] *)

Lemma unsubscribe_loop_sublist c l : (unsubscribe_loop c l).2 `sublist_of` l.
Proof.
  induction l as [|s l IH]; csimpl; [done|].
  case_decide; csimpl; [by apply sublist_cons|by apply sublist_skip].
Qed.

Lemma elem_of_unsubscribe_loop c l s :
  NoDup (ws <$> l) → s ∈ (unsubscribe_loop c l).2 ↔ s ∈ l ∧ ws s ≠ c.
Proof.
  induction l as [|s0 l IH]; csimpl.
  - intros _. split; [by intros ?%elem_of_nil|by intros [?%elem_of_nil _]].
  - intros [Hs0 Hl]%NoDup_cons. rewrite elem_of_cons. case_decide as Hc; csimpl.
    + split.
      * intros Hs. split; [by right|]. intros Heq. apply Hs0.
        rewrite Hc, <-Heq. by apply list_elem_of_fmap_2.
      * intros [[->|Hs] Hne]; done.
    + rewrite elem_of_cons, IH by done. split.
      * intros [->|[? ?]]; [by split; [left|]|by split; [right|]].
      * intros [[->|?] ?]; [by left|by right].
Qed.

Lemma subscribers_unsubscribe channelName c st X :
  subscribers (unsubscribe_state channelName c st) X
  = if decide (X = channelName)
    then (unsubscribe_loop c (subscribers st channelName)).2
    else subscribers st X.
Proof.
  unfold unsubscribe_state, subscribers.
  destruct (jm_get channelName (channels st)) as [channel|] eqn:Hch.
  - cbn [channels default from_option id]. case_decide as HX.
    + subst X. case_bool_decide as Hlen.
      * rewrite jm_get_delete_eq. by apply nil_length_inv in Hlen as ->.
      * by rewrite jm_get_set_eq.
    + case_bool_decide; [by rewrite jm_get_delete_ne|by rewrite jm_get_set_ne].
  - case_decide as HX; [subst X; by rewrite Hch|done].
Qed.

Lemma index_unsubscribe channelName c st c' :
  index (unsubscribe_state channelName c st) c'
  = if decide (c' = c ∧ is_Some (jm_get channelName (channels st)))
    then set_delete channelName (index st c)
    else index st c'.
Proof.
  unfold unsubscribe_state, index.
  destruct (jm_get channelName (channels st)) as [channel|] eqn:Hch.
  - cbn [wsToChannels]. destruct (wsToChannels st !! c) as [l|] eqn:Hl;
      cbn [default from_option id].
    + case_decide as Hc.
      * destruct Hc as [-> _]. case_bool_decide as Hlen.
        -- rewrite lookup_delete_eq. by apply nil_length_inv in Hlen as ->.
        -- by rewrite lookup_insert_eq.
      * assert (c ≠ c') by (intros ->; apply Hc; eauto).
        case_bool_decide; [by rewrite lookup_delete_ne|by rewrite lookup_insert_ne].
    + case_decide as Hc; [|done]. destruct Hc as [-> _]. by rewrite Hl.
  - rewrite decide_False; [done|]. by intros [_ [? ?]].
Qed.

Lemma wsToUser_unsubscribe channelName c st c' :
  wsToUser (unsubscribe_state channelName c st) !! c'
  = if decide (c' = c ∧ is_Some (jm_get channelName (channels st))
               ∧ is_Some (wsToChannels st !! c)
               ∧ set_delete channelName (index st c) = [])
    then None else wsToUser st !! c'.
Proof.
  unfold unsubscribe_state, index.
  destruct (jm_get channelName (channels st)) as [channel|] eqn:Hch.
  - cbn [wsToUser]. destruct (wsToChannels st !! c) as [l|] eqn:Hl;
      cbn [default from_option id].
    + case_bool_decide as Hlen.
      * apply nil_length_inv in Hlen. case_decide as Hc.
        -- destruct Hc as [-> _]. by rewrite lookup_delete_eq.
        -- rewrite lookup_delete_ne; [done|]. intros ->. apply Hc. eauto.
      * rewrite decide_False; [done|]. intros (_ & _ & _ & Heq). by rewrite Heq in Hlen.
    + rewrite decide_False; [done|]. by intros (_ & _ & [? ?] & _).
  - rewrite decide_False; [done|]. by intros (_ & [? ?] & _).
Qed.

Lemma onlineUsers_unsubscribe channelName c st :
  onlineUsers (unsubscribe_state channelName c st) = onlineUsers st.
Proof. unfold unsubscribe_state. by destruct (jm_get _ _). Qed.

Lemma typingUsers_unsubscribe channelName c st :
  typingUsers (unsubscribe_state channelName c st) = typingUsers st.
Proof. unfold unsubscribe_state. by destruct (jm_get _ _). Qed.

Lemma subscribers_subscribe channelName subscription st X :
  subscribers (subscribe_state channelName subscription st) X
  = if decide (X = channelName) then subscribers st channelName ++ [subscription]
    else subscribers st X.
Proof.
  unfold subscribe_state. unfold subscribers at 1. cbn [channels].
  case_decide as HX; [subst; by rewrite jm_get_set_eq|by rewrite jm_get_set_ne].
Qed.

Lemma index_subscribe channelName subscription st c :
  index (subscribe_state channelName subscription st) c
  = if decide (c = ws subscription) then set_add channelName (index st c)
    else index st c.
Proof.
  unfold subscribe_state. unfold index at 1. cbn [wsToChannels].
  case_decide as Hc; [subst; by rewrite lookup_insert_eq|by rewrite lookup_insert_ne].
Qed.

Lemma presence_subscribe channelName subscription st X :
  presence (subscribe_state channelName subscription st) X
  = if decide (X = channelName) then set_add (userId subscription) (presence st X)
    else presence st X.
Proof.
  unfold subscribe_state. unfold presence at 1. cbn [onlineUsers].
  case_decide as Hc; [subst; by rewrite lookup_insert_eq|by rewrite lookup_insert_ne].
Qed.

(** ** The invariant [consistent] *)

Lemma consistent_empty uid : consistent uid empty_manager.
Proof.
  split.
  - intros X s Hs. by apply elem_of_nil in Hs.
  - intros X. apply NoDup_nil_2.
  - intros c X. unfold index, subscribers. cbn. rewrite lookup_empty. cbn.
    split; [by intros ?%elem_of_nil|by intros (? & ?%elem_of_nil & _)].
  - intros c. unfold index. cbn. by rewrite lookup_empty.
  - intros c. cbn. by rewrite lookup_empty.
  - apply NoDup_nil_2.
Qed.

(** Fields other than [channels], [wsToChannels] and [wsToUser] do not
    matter to [consistent]. *)
Lemma consistent_same uid st st' :
  channels st' = channels st → wsToChannels st' = wsToChannels st →
  wsToUser st' = wsToUser st → consistent uid st → consistent uid st'.
Proof.
  intros Hc Hi Hu [H1 H2 H3 H4 H5 H6].
  split; unfold subscribers, index in *; rewrite ?Hc, ?Hi, ?Hu; done.
Qed.

Lemma consistent_unsubscribe uid channelName c st :
  consistent uid st → consistent uid (unsubscribe_state channelName c st).
Proof.
  intros [H1 H2 H3 H4 H5 H6]. split.
  - intros X s. rewrite subscribers_unsubscribe. case_decide as HX; [|by apply H1].
    intros Hs. apply (H1 channelName). eapply elem_of_sublist; [done|apply unsubscribe_loop_sublist].
  - intros X. rewrite subscribers_unsubscribe. case_decide as HX; [|by apply H2].
    eapply sublist_NoDup; [apply (H2 channelName)|].
    apply fmap_sublist, unsubscribe_loop_sublist.
  - intros c' X. rewrite index_unsubscribe, subscribers_unsubscribe.
    case_decide as Hc; case_decide as HX.
    + destruct Hc as [-> _]. subst X. rewrite elem_of_set_delete. split; [by intros [? _]|].
      intros (s & Hs & Hws). apply elem_of_unsubscribe_loop in Hs as [_ ?]; done.
    + destruct Hc as [-> _]. rewrite elem_of_set_delete, H3. split; [by intros [_ ?]|done].
    + subst X. rewrite H3. split.
      * intros (s & Hs & Hws). exists s. split; [|done].
        apply elem_of_unsubscribe_loop; [done|]. split; [done|].
        intros Heq. apply Hc. split; [congruence|].
        unfold subscribers in Hs. destruct (jm_get channelName (channels st)); [by eauto|].
        by apply elem_of_nil in Hs.
      * intros (s & Hs & Hws). exists s. split; [|done].
        eapply elem_of_sublist; [done|apply unsubscribe_loop_sublist].
    + apply H3.
  - intros c'. rewrite index_unsubscribe, wsToUser_unsubscribe.
    case_decide as Hc.
    + destruct Hc as [-> Hch]. intros Hne.
      rewrite decide_False by (by intros (_ & _ & _ & ?)).
      apply H4. intros Heq. by rewrite Heq in Hne.
    + intros Hne. rewrite decide_False; [by apply H4|].
      intros (-> & ? & _). by apply Hc.
  - intros c'. unfold unsubscribe_state.
    destruct (jm_get channelName (channels st)); [|by apply H5]. cbn [wsToChannels].
    destruct (wsToChannels st !! c) as [l0|] eqn:Hl0; [|by apply H5].
    case_bool_decide as Hlen.
    + destruct (decide (c' = c)) as [->|Hc]; [by rewrite lookup_delete_eq|].
      rewrite lookup_delete_ne by done. apply H5.
    + destruct (decide (c' = c)) as [->|Hc].
      * rewrite lookup_insert_eq. intros [= Heq]. by rewrite Heq in Hlen.
      * rewrite lookup_insert_ne by done. apply H5.
  - unfold unsubscribe_state.
    destruct (jm_get channelName (channels st)); [|done]. cbn [channels].
    case_bool_decide; [by apply jm_wf_delete|by apply jm_wf_set].
Qed.

Lemma consistent_subscribe uid channelName subscription st :
  userId subscription = uid (ws subscription) →
  ¬ duplicate st channelName subscription →
  consistent uid st → consistent uid (subscribe_state channelName subscription st).
Proof.
  intros Huid Hdup [H1 H2 H3 H4 H5 H6]. split.
  - intros X s. rewrite subscribers_subscribe. case_decide as HX; [|by apply H1].
    intros [Hs| ->%list_elem_of_singleton]%elem_of_app; [by apply (H1 channelName)|done].
  - intros X. rewrite subscribers_subscribe. case_decide as HX; [|by apply H2].
    rewrite fmap_app. apply NoDup_app. split_and!; [by apply H2| |apply NoDup_singleton].
    intros c Hc1 Hc2. apply list_elem_of_fmap in Hc1 as (s & -> & Hs).
    apply list_elem_of_fmap in Hc2 as (s' & Heq & ->%list_elem_of_singleton).
    apply Hdup. exists s. split_and!; [done..|].
    by rewrite (H1 _ _ Hs), Huid, Heq.
  - intros c X. rewrite index_subscribe, subscribers_subscribe.
    case_decide as Hc; case_decide as HX.
    + subst. rewrite elem_of_set_add. split; [|by left].
      intros _. exists subscription. split; [|done]. apply elem_of_app. right. by left.
    + subst c. rewrite elem_of_set_add, H3. split; [by intros [?|?]|by right].
    + subst X. rewrite H3. split.
      * intros (s & Hs & Hws). exists s. split; [|done]. apply elem_of_app. by left.
      * intros (s & [Hs| ->%list_elem_of_singleton]%elem_of_app & Hws); [by eauto|done].
    + apply H3.
  - intros c. rewrite index_subscribe. unfold subscribe_state. cbn [wsToUser].
    case_decide as Hc.
    + subst c. intros _. by rewrite lookup_insert_eq, Huid.
    + rewrite lookup_insert_ne by done. apply H4.
  - intros c. unfold subscribe_state. cbn [wsToChannels].
    destruct (decide (c = ws subscription)) as [->|Hc].
    + rewrite lookup_insert_eq. intros [= Heq]. unfold set_add in Heq.
      case_decide as Hin; [rewrite Heq in Hin; by apply elem_of_nil in Hin|].
      by apply app_nil in Heq as [_ ?].
    + rewrite lookup_insert_ne by done. apply H5.
  - unfold subscribe_state. cbn [channels]. by apply jm_wf_set.
Qed.

Lemma broadcasts_logs level message : broadcasts [ELog level message] = [].
Proof. done. Qed.

Lemma unsubscribe_result channelName ws0 st :
  unsubscribe channelName ws0 st
  = (tt, unsubscribe_state channelName ws0 st, trace (unsubscribe channelName ws0) st).
Proof.
  rewrite <-unsubscribe_final. unfold final, trace.
  by destruct (unsubscribe channelName ws0 st) as [[[] ?] ?].
Qed.

Lemma closure_channel_result env ws0 userId channelName st :
  ∃ t, closure_channel env ws0 userId channelName st
       = (tt, closure_channel_state ws0 userId channelName st, t)
     ∧ broadcasts t = closure_channel_broadcasts userId channelName st.
Proof.
  unfold closure_channel, closure_channel_state, closure_channel_broadcasts, closure_typing.
  rewrite (bind_result _ _ _ _ _ _ (updateOnlineStatus_result _ _ _ _ _)).
  msteps. unfold typing, update_presence.
  set (st1 := set_onlineUsers _ st).
  assert (typingUsers st1 = typingUsers st) as -> by done.
  destruct (jm_get channelName (typingUsers st)) as [typingMap|] eqn:Htm;
    cbn [default from_option id].
  - destruct (jm_get userId typingMap) as [user|] eqn:Hu.
    + msteps. rewrite (bind_result _ _ _ _ _ _ (broadcast_result _ _ _ _ _ _)).
      msteps. rewrite unsubscribe_result. unfold tell. cbn [fst snd].
      eexists. split; [done|].
      rewrite !broadcasts_app, !broadcast_broadcasts, unsubscribe_broadcasts. done.
    + msteps. rewrite unsubscribe_result. unfold tell. cbn [fst snd].
      eexists. split; [done|].
      rewrite !broadcasts_app, !broadcast_broadcasts, unsubscribe_broadcasts. done.
  - msteps. rewrite unsubscribe_result. unfold tell. cbn [fst snd].
    eexists. split; [done|].
    rewrite !broadcasts_app, !broadcast_broadcasts, unsubscribe_broadcasts. done.
Qed.

Lemma closure_loop_result env ws0 userId chs st :
  ∃ t, forEach chs (closure_channel env ws0 userId) st
       = (tt, closure_loop_state ws0 userId chs st, t)
     ∧ broadcasts t = closure_loop_broadcasts ws0 userId chs st.
Proof.
  revert st. induction chs as [|channelName chs IH]; intros st.
  - by exists [].
  - destruct (closure_channel_result env ws0 userId channelName st) as (t1 & Hr1 & Hb1).
    destruct (IH (closure_channel_state ws0 userId channelName st)) as (t2 & Hr2 & Hb2).
    exists (t1 ++ t2). cbn [forEach closure_loop_state foldl closure_loop_broadcasts].
    rewrite (bind_result _ _ _ _ _ _ Hr1). unfold closure_loop_state in Hr2.
    rewrite Hr2. unfold tell. cbn [fst snd].
    by rewrite broadcasts_app, Hb1, Hb2.
Qed.

Lemma handleWebSocketClosure_noop env ws0 st :
  closure_guard st ws0 = None → handleWebSocketClosure env ws0 st = (tt, st, []).
Proof.
  unfold closure_guard, handleWebSocketClosure. msteps.
  destruct (wsToChannels st !! ws0), (wsToUser st !! ws0) as [u|]; try done.
  by destruct (truthy u).
Qed.

Lemma handleWebSocketClosure_result env ws0 st chs userId :
  closure_guard st ws0 = Some (chs, userId) →
  ∃ t, handleWebSocketClosure env ws0 st = (tt, closure_state ws0 st, t)
     ∧ broadcasts t = closure_loop_broadcasts ws0 userId chs st.
Proof.
  unfold closure_state. intros Hg. rewrite Hg. revert Hg.
  unfold closure_guard, handleWebSocketClosure. msteps.
  destruct (wsToChannels st !! ws0) as [chs'|], (wsToUser st !! ws0) as [u|]; try done.
  destruct (truthy u); [|done]. intros [= -> ->]. unfold when.
  destruct (closure_loop_result env ws0 userId chs st) as (t & Hr & Hb).
  rewrite (bind_result _ _ _ _ _ _ Hr). msteps. unfold tell. cbn [fst snd].
  eexists. split; [done|]. by rewrite broadcasts_app, Hb, app_nil_r.
Qed.

Lemma handleWebSocketClosure_final env ws0 st :
  final (handleWebSocketClosure env ws0) st = closure_state ws0 st.
Proof.
  unfold final. destruct (closure_guard st ws0) as [[chs u]|] eqn:Hg.
  - destruct (handleWebSocketClosure_result env ws0 st chs u Hg) as (t & -> & _). done.
  - rewrite handleWebSocketClosure_noop by done. unfold closure_state. by rewrite Hg.
Qed.

(** *** [consistent] through [handleWebSocketClosure] *)

Lemma consistent_closure_channel uid ws0 userId channelName st :
  consistent uid st → consistent uid (closure_channel_state ws0 userId channelName st).
Proof.
  intros H. apply consistent_unsubscribe.
  eapply consistent_same; [..|exact H]; unfold closure_typing;
    by destruct (jm_get userId _).
Qed.

Lemma index_closure_channel uid ws0 userId channelName st :
  consistent uid st →
  index (closure_channel_state ws0 userId channelName st) ws0
  = set_delete channelName (index st ws0).
Proof.
  intros H. unfold closure_channel_state. rewrite index_unsubscribe.
  set (st1 := closure_typing _ _ _).
  assert (channels st1 = channels st ∧ wsToChannels st1 = wsToChannels st) as [Hc Hi].
  { subst st1. unfold closure_typing. by destruct (jm_get userId _). }
  unfold index. rewrite Hc, Hi. fold (index st ws0).
  case_decide as Hd; [done|].
  rewrite set_delete_notin; [done|].
  rewrite (consistent_index _ _ H). intros (s & Hs & _).
  apply Hd. split; [done|]. unfold subscribers in Hs.
  destruct (jm_get channelName (channels st)); [by eauto|]. by apply elem_of_nil in Hs.
Qed.

Lemma consistent_closure_loop uid ws0 userId chs st :
  consistent uid st → index st ws0 ⊆ chs →
  consistent uid (closure_loop_state ws0 userId chs st)
  ∧ index (closure_loop_state ws0 userId chs st) ws0 = [].
Proof.
  revert st. induction chs as [|channelName chs IH]; intros st H Hsub.
  - split; [done|]. cbn [closure_loop_state foldl].
    destruct (index st ws0) as [|x l]; [done|].
    assert (x ∈ @nil string) as Hx by (apply Hsub; left).
    by apply elem_of_nil in Hx.
  - cbn [closure_loop_state foldl]. apply IH.
    + by apply consistent_closure_channel.
    + rewrite (index_closure_channel uid) by done.
      intros X [HX Hin]%elem_of_set_delete. apply Hsub in Hin.
      by apply elem_of_cons in Hin as [?|?].
Qed.

Lemma consistent_purge uid ws0 st :
  consistent uid st → index st ws0 = [] →
  consistent uid (set_wsToUser (delete ws0) (set_wsToChannels (delete ws0) st)).
Proof.
  intros [H1 H2 H3 H4 H5 H6] Hidx.
  assert (∀ c, index (set_wsToUser (delete ws0) (set_wsToChannels (delete ws0) st)) c
               = index st c) as Hindex.
  { intros c. unfold index. mgr_simpl. destruct (decide (c = ws0)) as [->|Hc].
    - rewrite lookup_delete_eq. symmetry. exact Hidx.
    - by rewrite lookup_delete_ne. }
  split; try done.
  - intros c X. rewrite Hindex. apply H3.
  - intros c. rewrite Hindex. intros Hne. mgr_simpl.
    rewrite lookup_delete_ne; [by apply H4|]. intros <-. done.
  - intros c. mgr_simpl. destruct (decide (c = ws0)) as [->|Hc].
    + by rewrite lookup_delete_eq.
    + rewrite lookup_delete_ne by done. apply H5.
Qed.

Lemma consistent_closure uid ws0 st :
  consistent uid st → consistent uid (closure_state ws0 st).
Proof.
  intros H. unfold closure_state.
  destruct (closure_guard st ws0) as [[chs u]|] eqn:Hg; [|done].
  destruct (consistent_closure_loop uid ws0 u chs st H) as [H' Hidx].
  - unfold closure_guard in Hg. unfold index.
    destruct (wsToChannels st !! ws0); [|done].
    destruct (wsToUser st !! ws0) as [u'|]; [|done].
    destruct (truthy u'); [|done]. by injection Hg as -> ->.
  - by apply consistent_purge.
Qed.

Lemma handleTyping_result env channelName userId username isTyping st :
  let typingMap := handleTyping_map env userId username isTyping (typing st channelName) in
  ∃ t, handleTyping env channelName userId username isTyping st
       = (tt, set_typingUsers (jm_set channelName typingMap) st, t)
     ∧ broadcasts t
       = [handleTyping_broadcast channelName userId username isTyping typingMap].
Proof.
  intros typingMap. unfold handleTyping. msteps. rewrite bind_when.
  set (st1 := if negb (jm_has channelName (typingUsers st))
              then set_typingUsers (jm_set channelName []) st else st).
  assert (typing st1 channelName = typing st channelName
          ∧ ∀ tm, set_typingUsers (jm_set channelName tm) st1
                  = set_typingUsers (jm_set channelName tm) st) as [Htyp Hset].
  { subst st1. unfold typing.
    destruct (jm_has channelName (typingUsers st)) eqn:Hhas; cbn [negb]; [done|].
    apply jm_has_false in Hhas. mgr_simpl. rewrite jm_get_set_eq, Hhas.
    split; [done|]. intros tm. by rewrite jm_set_set. }
  assert (∃ t0, broadcasts t0 = [] ∧ ∀ B (k : unit → M B),
    (if negb (jm_has channelName (typingUsers st))
     then bind (modify (set_typingUsers (jm_set channelName [])) ;;
                logger DEBUG "Created new typing map for channel") k st
     else k tt st) = tell t0 (k tt st1)) as (t0 & Ht0 & ->).
  { subst st1. destruct (negb _).
    - eexists. split; [|intros B k; by msteps]. done.
    - exists []. split; [done|]. intros B k. by rewrite tell_nil. }
  msteps. fold (typing st1 channelName). rewrite Htyp.
  subst typingMap. unfold handleTyping_map, handleTyping_broadcast.
  destruct isTyping; msteps; rewrite broadcast_result, Hset;
    unfold tell; cbn [fst snd]; (eexists; split; [done|]);
    rewrite !broadcasts_app, Ht0, broadcast_broadcasts; done.
Qed.

Lemma only_typing_refl st : only_typing st st.
Proof. done. Qed.

Lemma only_typing_trans st1 st2 st3 :
  only_typing st1 st2 → only_typing st2 st3 → only_typing st1 st3.
Proof. unfold only_typing. intros (-> & -> & -> & ->) (-> & -> & -> & ->). done. Qed.

Lemma only_typing_set f st : only_typing st (set_typingUsers f st).
Proof. done. Qed.

Lemma handleTyping_only_typing env channelName userId username isTyping st :
  only_typing st (final (handleTyping env channelName userId username isTyping) st).
Proof.
  destruct (handleTyping_result env channelName userId username isTyping st)
    as (t & Hr & _).
  unfold final. rewrite Hr. apply only_typing_set.
Qed.

Lemma typingCleanup_user_only_typing env now channelName entry st :
  only_typing st (final (typingCleanup_user env now channelName entry) st).
Proof.
  destruct entry as [userId user]. unfold typingCleanup_user, final.
  destruct (bool_decide _); [|done]. unfold when. msteps.
  rewrite broadcast_result. apply only_typing_set.
Qed.

Lemma typingCleanup_channel_only_typing env now entry st :
  only_typing st (final (typingCleanup_channel env now entry) st).
Proof.
  destruct entry as [channelName typingMap]. unfold typingCleanup_channel.
  rewrite final_bind.
  set (st1 := final (forEach typingMap _) st).
  assert (only_typing st st1) as H1.
  { subst st1. apply (forEach_invariant (only_typing st)); [done|].
    intros x s _ Hs. eapply only_typing_trans; [done|].
    apply typingCleanup_user_only_typing. }
  eapply only_typing_trans; [done|].
  unfold final. msteps. destruct (bool_decide _); [|done]. apply only_typing_set.
Qed.

Lemma typingCleanup_only_typing env st :
  only_typing st (final (typingCleanup env) st).
Proof.
  unfold typingCleanup. rewrite final_bind.
  apply (forEach_invariant (only_typing st)); [done|].
  intros x s _ Hs. eapply only_typing_trans; [done|].
  apply typingCleanup_channel_only_typing.
Qed.

Lemma consistent_only_typing uid st st' :
  only_typing st st' → consistent uid st → consistent uid st'.
Proof. intros (? & ? & ? & _). by apply consistent_same. Qed.

Lemma cleanup_index_cons env channelName sub subs m :
  cleanup_index env channelName (sub :: subs) m
  = cleanup_index env channelName subs
      (if bool_decide (readyState env (ws sub) ≠ OPEN)
       then index_drop channelName (ws sub) m else m).
Proof. done. Qed.

Lemma cleanup_loop_result env channelName subs st :
  cleanup_loop env channelName subs st
  = (filter (λ sub, readyState env (ws sub) = OPEN) subs,
     set_wsToChannels (cleanup_index env channelName subs) st, []).
Proof.
  revert st. induction subs as [|sub subs IH]; intros st.
  - by destruct st.
  - cbn [cleanup_loop]. rewrite filter_cons.
    case_bool_decide as Hclosed.
    + rewrite decide_False by done. msteps. rewrite bind_when.
      assert (∀ B (k : unit → M B),
        (if bool_decide (is_Some (wsToChannels st !! ws sub))
         then bind (modify (set_wsToChannels (λ m,
                      <[ws sub := set_delete channelName (default [] (m !! ws sub))]> m)) ;;
                    size <- gets (λ st, length (default [] (wsToChannels st !! ws sub))) ;;
                    when (bool_decide (size = 0))
                      (modify (set_wsToChannels (delete (ws sub))))) k st
         else k tt st)
        = k tt (set_wsToChannels (index_drop channelName (ws sub)) st)) as ->.
      { intros B k. unfold index_drop.
        destruct (wsToChannels st !! ws sub) as [l|] eqn:Hl.
        - rewrite bool_decide_eq_true_2 by eauto. msteps. mgr_simpl.
          rewrite lookup_insert_eq, Hl. cbn [default from_option id]. rewrite bind_when.
          case_bool_decide.
          + msteps. mgr_simpl. by rewrite delete_insert_eq.
          + done.
        - rewrite bool_decide_eq_false_2 by (by intros [? ?]).
          f_equal. unfold set_wsToChannels. rewrite Hl. by destruct st. }
      rewrite IH. mgr_simpl. by rewrite cleanup_index_cons, bool_decide_eq_true_2.
    + assert (readyState env (ws sub) = OPEN) as Hopen.
      { by destruct (decide (readyState env (ws sub) = OPEN)). }
      rewrite decide_True by done.
      rewrite (bind_result _ _ _ _ _ _ (IH st)). msteps. unfold ret, tell.
      mgr_simpl. by rewrite cleanup_index_cons, bool_decide_eq_false_2 by (by intros ?).
Qed.

Lemma cleanup_channel_final env entry st :
  final (cleanup_channel env entry) st = cleanup_channel_state env entry st.
Proof.
  destruct entry as [channelName subs]. unfold cleanup_channel, cleanup_channel_state, final.
  cbv zeta. rewrite (bind_result _ _ _ _ _ _ (cleanup_loop_result _ _ _ _)).
  msteps. cbn [fst snd]. case_bool_decide.
  - msteps. mgr_simpl. by rewrite jm_delete_set.
  - by destruct (bool_decide _).
Qed.

Lemma cleanupInactiveConnections_final env st :
  final (cleanupInactiveConnections env) st = cleanup_state env st.
Proof.
  unfold cleanupInactiveConnections, cleanup_state.
  rewrite !final_bind. unfold final at 1. unfold logger, emit. cbn [fst snd].
  unfold final at 2 3. unfold gets at 1 2. cbn [fst snd].
  generalize (channels st). intros entries. revert st.
  induction entries as [|entry entries IH]; intros st; [done|].
  cbn [forEach foldl]. rewrite final_bind, cleanup_channel_final. apply IH.
Qed.

(** *** The registry after the cleanup, through [subscribers] and [index] *)

Lemma index_drop_lookup channelName c m c' :
  default [] (index_drop channelName c m !! c')
  = if decide (c' = c) then set_delete channelName (default [] (m !! c))
    else default [] (m !! c').
Proof.
  unfold index_drop. destruct (m !! c) as [l|] eqn:Hl; cbn [default from_option id].
  - case_bool_decide as Hlen; case_decide as Hc; subst.
    + rewrite lookup_delete_eq. by apply nil_length_inv in Hlen as ->.
    + by rewrite lookup_delete_ne.
    + by rewrite lookup_insert_eq.
    + by rewrite lookup_insert_ne.
  - case_decide as Hc; [subst; by rewrite Hl|done].
Qed.

Lemma index_drop_nonempty channelName c m :
  (∀ c', m !! c' ≠ Some []) → ∀ c', index_drop channelName c m !! c' ≠ Some [].
Proof.
  intros Hm c'. unfold index_drop. destruct (m !! c) as [l|] eqn:Hl; [|done].
  case_bool_decide as Hlen.
  - destruct (decide (c' = c)) as [->|Hc]; [by rewrite lookup_delete_eq|].
    by rewrite lookup_delete_ne.
  - destruct (decide (c' = c)) as [->|Hc]; [|by rewrite lookup_insert_ne].
    rewrite lookup_insert_eq. intros [= Heq]. by rewrite Heq in Hlen.
Qed.

Lemma cleanup_index_lookup env channelName subs m c X :
  X ∈ default [] (cleanup_index env channelName subs m !! c)
  ↔ X ∈ default [] (m !! c)
    ∧ ¬ (X = channelName
         ∧ ∃ s, s ∈ subs ∧ ws s = c ∧ readyState env c ≠ OPEN).
Proof.
  revert m. induction subs as [|sub subs IH]; intros m.
  - cbn. split; [|by intros [? _]]. intros ?. split; [done|].
    by intros (_ & s & ?%elem_of_nil & _).
  - rewrite cleanup_index_cons, IH. case_bool_decide as Hclosed.
    + rewrite index_drop_lookup. case_decide as Hc.
      * subst c. rewrite elem_of_set_delete. split.
        -- intros [[Hne Hin] Hno]. split; [done|]. by intros [? _].
        -- intros [Hin Hno]. split_and!; [|done|].
           ++ intros ->. apply Hno. split; [done|]. exists sub. by split; [left|].
           ++ intros (-> & s & Hs & Hws & Hcl). apply Hno. split; [done|].
              exists s. by split; [right|].
      * split; intros [Hin Hno]; (split; [done|]); intros (-> & s & Hs & Hws & Hcl);
          apply Hno; (split; [done|]).
        -- apply elem_of_cons in Hs as [->|Hs]; [done|by exists s].
        -- exists s. by split; [right|].
    + assert (readyState env (ws sub) = OPEN) as Hopen.
      { by destruct (decide (readyState env (ws sub) = OPEN)). }
      split; intros [Hin Hno]; (split; [done|]); intros (-> & s & Hs & Hws & Hcl);
        apply Hno; (split; [done|]).
      * apply elem_of_cons in Hs as [->|Hs]; [by subst c|by exists s].
      * exists s. by split; [right|].
Qed.

Lemma cleanup_index_nonempty env channelName subs m :
  (∀ c, m !! c ≠ Some []) → ∀ c, cleanup_index env channelName subs m !! c ≠ Some [].
Proof.
  revert m. induction subs as [|sub subs IH]; intros m Hm; [done|].
  rewrite cleanup_index_cons. apply IH. case_bool_decide; [|done].
  by apply index_drop_nonempty.
Qed.

Lemma channels_cleanup_channel env k v st X :
  jm_get X (channels (cleanup_channel_state env (k, v) st))
  = if decide (X = k)
    then (let kept := filter (λ sub, readyState env (ws sub) = OPEN) v in
          if bool_decide (length kept = 0) then None else Some kept)
    else jm_get X (channels st).
Proof.
  unfold cleanup_channel_state. mgr_simpl. cbv zeta.
  case_bool_decide; case_decide; subst;
    by rewrite ?jm_get_delete_eq, ?jm_get_delete_ne, ?jm_get_set_eq, ?jm_get_set_ne.
Qed.

Lemma subscribers_cleanup_channel env k v st X :
  subscribers (cleanup_channel_state env (k, v) st) X
  = if decide (X = k) then filter (λ sub, readyState env (ws sub) = OPEN) v
    else subscribers st X.
Proof.
  unfold subscribers. rewrite channels_cleanup_channel. case_decide; [|done].
  cbv zeta. case_bool_decide as Hlen; [|done]. by apply nil_length_inv in Hlen as ->.
Qed.

Lemma index_cleanup_channel env k v st c X :
  X ∈ index (cleanup_channel_state env (k, v) st) c
  ↔ X ∈ index st c
    ∧ ¬ (X = k ∧ ∃ s, s ∈ v ∧ ws s = c ∧ readyState env c ≠ OPEN).
Proof. unfold index, cleanup_channel_state. mgr_simpl. apply cleanup_index_lookup. Qed.

(** The cleanup over the entries [es] of [channels], each still in place. *)
Lemma cleanup_fold env es st :
  NoDup es.*1 → (∀ k v, (k, v) ∈ es → jm_get k (channels st) = Some v) →
  let st' := foldl (λ s entry, cleanup_channel_state env entry s) st es in
  (∀ X, jm_get X (channels st')
        = if decide (X ∈ es.*1)
          then (let kept := filter (λ sub, readyState env (ws sub) = OPEN)
                              (subscribers st X) in
                if bool_decide (length kept = 0) then None else Some kept)
          else jm_get X (channels st))
  ∧ (∀ c X, X ∈ index st' c
        ↔ X ∈ index st c
          ∧ ¬ (X ∈ es.*1
               ∧ ∃ s, s ∈ subscribers st X ∧ ws s = c ∧ readyState env c ≠ OPEN))
  ∧ wsToUser st' = wsToUser st
  ∧ onlineUsers st' = onlineUsers st
  ∧ typingUsers st' = typingUsers st
  ∧ ((∀ c, wsToChannels st !! c ≠ Some []) → ∀ c, wsToChannels st' !! c ≠ Some []).
Proof.
  revert st. induction es as [|[k v] es IH]; intros st Hnd Hes st'.
  - subst st'. cbn [foldl]. split_and!; try done.
    intros c X. split; [|by intros [? _]]. intros ?. split; [done|].
    by intros [?%elem_of_nil _].
  - apply NoDup_cons in Hnd as [Hk Hnd]. csimpl in Hk.
    set (st1 := cleanup_channel_state env (k, v) st).
    assert (jm_get k (channels st) = Some v) as Hkv by (apply Hes; left).
    assert (∀ X, X ≠ k → subscribers st1 X = subscribers st X) as Hsubs1.
    { intros X HX. subst st1. rewrite subscribers_cleanup_channel. by rewrite decide_False. }
    destruct (IH st1) as (Hch & Hidx & Hu & Ho & Ht & Hne); [done| |].
    { intros k' v' Hin. subst st1. rewrite channels_cleanup_channel.
      rewrite decide_False; [apply Hes; by right|].
      intros ->. apply Hk. apply list_elem_of_fmap. by exists (k, v'). }
    assert (∀ X, X ∈ ((k, v) :: es).*1 ↔ X = k ∨ X ∈ es.*1) as Hcons.
    { intros X. csimpl. apply elem_of_cons. }
    subst st'. cbn [foldl]. fold st1. split_and!.
    + intros X. rewrite Hch.
      destruct (decide (X = k)) as [->|HX].
      * rewrite (decide_False (P := k ∈ es.*1)) by done.
        rewrite decide_True by (apply Hcons; by left).
        subst st1. rewrite channels_cleanup_channel, decide_True by done.
        unfold subscribers. by rewrite Hkv.
      * destruct (decide (X ∈ es.*1)) as [Hin|Hin].
        -- rewrite decide_True by (apply Hcons; by right). by rewrite Hsubs1.
        -- rewrite decide_False by (rewrite Hcons; by intros [?|?]).
           subst st1. rewrite channels_cleanup_channel. by rewrite decide_False.
    + intros c X. rewrite Hidx. subst st1. rewrite index_cleanup_channel.
      rewrite Hcons.
      destruct (decide (X = k)) as [->|HX].
      * rewrite subscribers_cleanup_channel, decide_True by done.
        unfold subscribers at 1. rewrite Hkv. cbn [default from_option id]. split.
        -- intros [[Hin Hno] _]. split; [done|]. intros (_ & s & Hs & Hws & Hcl).
           apply Hno. split; [done|]. by exists s.
        -- intros [Hin Hno]. split_and!; [done| |].
           ++ intros (_ & s & Hs & Hws & Hcl). apply Hno. split; [by left|]. by exists s.
           ++ intros (HinX & _). done.
      * rewrite subscribers_cleanup_channel, decide_False by done. split.
        -- intros [[Hin _] Hno]. split; [done|]. intros ([?|HinX] & Hex); [done|].
           by apply Hno.
        -- intros [Hin Hno]. split_and!; [done|by intros [? _]|].
           intros [HinX Hex]. apply Hno. split; [by right|done].
    + by rewrite Hu.
    + by rewrite Ho.
    + by rewrite Ht.
    + intros Hst. apply Hne. subst st1. unfold cleanup_channel_state. mgr_simpl.
      by apply cleanup_index_nonempty.
Qed.

Lemma elem_of_jm_keys {V} (m : JsMap string V) X :
  X ∈ m.*1 ↔ is_Some (jm_get X m).
Proof.
  change (m.*1) with (jm_keys m). destruct (jm_get X m) as [v|] eqn:Hget.
  - split; [by eauto|]. intros _. apply jm_get_Some_elem in Hget.
    apply list_elem_of_fmap. by exists (X, v).
  - apply jm_get_None_keys in Hget. split; [done|by intros [? ?]].
Qed.

(** The registry after [cleanupInactiveConnections()]. *)
Lemma cleanup_state_views env st :
  jm_wf (channels st) →
  let st' := cleanup_state env st in
  (∀ X, jm_get X (channels st')
        = let kept := filter (λ sub, readyState env (ws sub) = OPEN)
                        (subscribers st X) in
          if bool_decide (length kept = 0) then None else Some kept)
  ∧ (∀ c X, X ∈ index st' c
        ↔ X ∈ index st c
          ∧ ¬ ∃ s, s ∈ subscribers st X ∧ ws s = c ∧ readyState env c ≠ OPEN)
  ∧ wsToUser st' = wsToUser st
  ∧ onlineUsers st' = onlineUsers st
  ∧ typingUsers st' = typingUsers st
  ∧ ((∀ c, wsToChannels st !! c ≠ Some []) → ∀ c, wsToChannels st' !! c ≠ Some []).
Proof.
  intros Hwf st'.
  destruct (cleanup_fold env (channels st) st Hwf) as (Hch & Hidx & Hu & Ho & Ht & Hne).
  { intros k v Hin. by apply jm_elem_get. }
  fold (cleanup_state env st) in *. fold st' in Hch, Hidx, Hu, Ho, Ht, Hne.
  split_and!; try done.
  - intros X. rewrite Hch. case_decide as Hin; [done|].
    rewrite elem_of_jm_keys in Hin. apply eq_None_not_Some in Hin.
    unfold subscribers. by rewrite Hin.
  - intros c X. rewrite Hidx. split; intros [Hin Hno]; (split; [done|]).
    + intros (s & Hs & Hws & Hcl). apply Hno. split; [|by exists s].
      apply elem_of_jm_keys. unfold subscribers in Hs.
      destruct (jm_get X (channels st)); [by eauto|]. by apply elem_of_nil in Hs.
    + intros [_ ?]. done.
Qed.

Lemma subscribers_cleanup env st X :
  jm_wf (channels st) →
  subscribers (cleanup_state env st) X
  = filter (λ sub, readyState env (ws sub) = OPEN) (subscribers st X).
Proof.
  intros Hwf. destruct (cleanup_state_views env st Hwf) as (Hch & _).
  unfold subscribers at 1. rewrite Hch. cbv zeta.
  case_bool_decide as Hlen; [|done]. by apply nil_length_inv in Hlen as ->.
Qed.

Lemma cleanup_state_wf env st : jm_wf (channels st) → jm_wf (channels (cleanup_state env st)).
Proof.
  unfold cleanup_state. generalize (channels st) at 2. intros es. revert st.
  induction es as [|[k v] es IH]; intros st Hwf; [done|].
  cbn [foldl]. apply IH. unfold cleanup_channel_state. mgr_simpl.
  case_bool_decide; [by apply jm_wf_delete|by apply jm_wf_set].
Qed.

Lemma consistent_cleanup uid env st :
  consistent uid st → consistent uid (cleanup_state env st).
Proof.
  intros [H1 H2 H3 H4 H5 H6].
  destruct (cleanup_state_views env st H6) as (_ & Hidx & Hu & _ & _ & Hne).
  split.
  - intros X s. rewrite subscribers_cleanup by done.
    intros [_ Hs]%list_elem_of_filter. by eapply H1.
  - intros X. rewrite subscribers_cleanup by done.
    eapply sublist_NoDup; [apply (H2 X)|]. apply fmap_sublist, sublist_filter.
  - intros c X. rewrite Hidx, subscribers_cleanup by done. rewrite H3. split.
    + intros [(s & Hs & Hws) Hno]. exists s. split; [|done].
      apply list_elem_of_filter. split; [|done].
      destruct (decide (readyState env (ws s) = OPEN)) as [|Hcl]; [done|].
      exfalso. apply Hno. exists s. by rewrite <-Hws.
    + intros (s & [Hopen Hs]%list_elem_of_filter & Hws). split; [by exists s|].
      intros (s' & _ & _ & Hcl). by rewrite <-Hws in Hcl.
  - intros c Hc. rewrite Hu. apply H4. intros Hnil.
    destruct (index (cleanup_state env st) c) as [|X l] eqn:Heq; [done|].
    assert (X ∈ index st c) as HX.
    { apply (Hidx c X). rewrite Heq. by left. }
    rewrite Hnil in HX. by apply elem_of_nil in HX.
  - by apply Hne.
  - by apply cleanup_state_wf.
Qed.

(** Every entry point keeps the registry consistent. *)
Lemma consistent_exec uid env op st :
  respects uid (env, op) → consistent uid st → consistent uid (final (exec env op) st).
Proof.
  intros Hop H. destruct op as [ch sub|ch c|c|ch u n b|ch ev d ex| |]; cbn [exec].
  - unfold final. rewrite subscribe_result.
    destruct (identity_mismatch env sub) eqn:Hid; [done|].
    destruct (decide (duplicate st ch sub)); [done|].
    cbv zeta. cbn [fst snd]. apply consistent_subscribe; [|done..]. by apply Hop.
  - rewrite unsubscribe_final. by apply consistent_unsubscribe.
  - rewrite handleWebSocketClosure_final. by apply consistent_closure.
  - eapply consistent_only_typing; [apply handleTyping_only_typing|done].
  - by rewrite broadcast_final.
  - eapply consistent_only_typing; [apply typingCleanup_only_typing|done].
  - rewrite cleanupInactiveConnections_final. by apply consistent_cleanup.
Qed.

Lemma consistent_run uid steps st :
  Forall (respects uid) steps → consistent uid st → consistent uid (final (run steps) st).
Proof.
  intros Hsteps. revert st. induction Hsteps as [|[env op] steps Hop _ IH]; intros st H.
  - done.
  - unfold run. cbn [forEach]. rewrite final_bind. apply IH.
    by apply consistent_exec.
Qed.

(** A platform in which every connection carries a verified identity
    makes every step respect the userIds of those identities. *)
Lemma respects_verified uid env op :
  (∀ c, ∃ token, user env c = Some token ∧ token_userId token = uid c) →
  respects uid (env, op).
Proof.
  intros Hverified. destruct op as [ch sub| | | | | |]; try done.
  unfold respects, identity_mismatch. cbn [fst snd].
  destruct (Hverified (ws sub)) as (token & -> & <-).
  intros Hid. apply bool_decide_eq_false in Hid.
  by destruct (decide (token_userId token = userId sub)).
Qed.

(** C2, as stated, fails: a connection without a verified identity may
    subscribe to one channel under two userIds; [unsubscribe] then removes
    one of the two subscriptions and the whole index entry. *)
Lemma index_divergence_counterexample :
  let env := demo_env [] [] 0 in
  let st := final (run [(env, Subscribe "x" (demo_sub 1 "u1"));
                        (env, Subscribe "x" (demo_sub 1 "u2"));
                        (env, Unsubscribe "x" 1)]) empty_manager in
  (∃ s, s ∈ subscribers st "x" ∧ ws s = 1) ∧ "x" ∉ index st 1.
Proof.
  split.
  - exists (demo_sub 1 "u2"). split; [|done]. vm_compute. by left.
  - vm_compute. apply not_elem_of_nil.
Qed.

(** C2, amended. In every run of entry points, starting from the empty
    registry, in which each connection subscribes under one userId (as
    every connection with a verified identity does), for every connection
    [c] and channel [X]: the subscriber set of [X] holds a subscription of
    [c] if and only if [X] is in the index entry of [c]. *)
Theorem index_consistency uid steps :
  Forall (respects uid) steps →
  let st := final (run steps) empty_manager in
  ∀ c X, (∃ s, s ∈ subscribers st X ∧ ws s = c) ↔ X ∈ index st c.
Proof.
  intros Hsteps st c X. symmetry. apply (consistent_index uid).
  apply consistent_run; [done|apply consistent_empty].
Qed.

Lemma index_consistency_witness :
  let env := with_user (λ c, Some (demo_token (pretty c))) (demo_env [] [] 0) in
  let st := final (run [(env, Subscribe "a" (demo_sub 1 "1"));
                        (env, Subscribe "b" (demo_sub 1 "1"));
                        (env, Subscribe "a" (demo_sub 2 "1"));
                        (env, Subscribe "a" (demo_sub 2 "2"));
                        (env, Unsubscribe "a" 1);
                        (env, HandleWebSocketClosure 2)]) empty_manager in
  (∃ s, s ∈ subscribers st "b" ∧ ws s = 1) ↔ "b" ∈ index st 1.
Proof.
  intros env st.
  apply (index_consistency pretty
    [(env, Subscribe "a" (demo_sub 1 "1"));
     (env, Subscribe "b" (demo_sub 1 "1"));
     (env, Subscribe "a" (demo_sub 2 "1"));
     (env, Subscribe "a" (demo_sub 2 "2"));
     (env, Unsubscribe "a" 1);
     (env, HandleWebSocketClosure 2)]).
  repeat constructor; try done.
  all: unfold respects; cbn; intros H; try done.
Defined.

(** ** Presence *)

Lemma presence_closure_channel ws0 userId channelName st X :
  presence (closure_channel_state ws0 userId channelName st) X
  = if decide (X = channelName) then set_delete userId (presence st X)
    else presence st X.
Proof.
  unfold closure_channel_state, presence. rewrite onlineUsers_unsubscribe.
  assert (∀ s, onlineUsers (closure_typing userId channelName s) = onlineUsers s) as ->.
  { intros s. unfold closure_typing. by destruct (jm_get userId _). }
  mgr_simpl. case_decide; [subst; by rewrite lookup_insert_eq|by rewrite lookup_insert_ne].
Qed.

Lemma subscribers_closure_channel ws0 userId channelName st X :
  subscribers (closure_channel_state ws0 userId channelName st) X
  = if decide (X = channelName)
    then (unsubscribe_loop ws0 (subscribers st channelName)).2
    else subscribers st X.
Proof.
  unfold closure_channel_state. rewrite subscribers_unsubscribe.
  assert (∀ Y, subscribers (closure_typing userId channelName
                 (set_onlineUsers <[channelName := set_delete userId
                    (presence st channelName)]> st)) Y = subscribers st Y) as Hs.
  { intros Y. unfold closure_typing, subscribers. by destruct (jm_get userId _). }
  by rewrite !Hs.
Qed.

Lemma presence_exact_empty : presence_exact empty_manager.
Proof.
  intros X u. unfold presence, subscribers. cbn. rewrite lookup_empty. cbn.
  split; [by intros ?%elem_of_nil|by intros (? & ?%elem_of_nil & _)].
Qed.

Lemma presence_exact_same st st' :
  channels st' = channels st → onlineUsers st' = onlineUsers st →
  presence_exact st → presence_exact st'.
Proof.
  intros Hc Ho H X u. unfold presence, subscribers. rewrite Hc, Ho. apply H.
Qed.

Lemma presence_exact_subscribe channelName subscription st :
  presence_exact st → presence_exact (subscribe_state channelName subscription st).
Proof.
  intros H X u. rewrite presence_subscribe, subscribers_subscribe.
  case_decide as HX; [subst X|apply H].
  rewrite elem_of_set_add, (H channelName u). split.
  - intros [->|(s & Hs & Hu)].
    + exists subscription. split; [|done]. apply elem_of_app. right. by left.
    + exists s. split; [|done]. apply elem_of_app. by left.
  - intros (s & [Hs| ->%list_elem_of_singleton]%elem_of_app & Hu); [|by left].
    right. by exists s.
Qed.

Lemma presence_exact_closure_channel uid ws0 channelName st :
  consistent uid st → presence_exact st →
  Forall (λ s, userId s = uid ws0 → ws s = ws0) (subscribers st channelName) →
  presence_exact (closure_channel_state ws0 (uid ws0) channelName st).
Proof.
  intros Hcons H Hsole X u. rewrite Forall_forall in Hsole.
  rewrite presence_closure_channel, subscribers_closure_channel.
  case_decide as HX; [subst X|apply H].
  rewrite elem_of_set_delete, (H channelName u). split.
  - intros [Hne (s & Hs & Hu)]. exists s. split; [|done].
    apply elem_of_unsubscribe_loop; [apply (consistent_once _ _ Hcons)|].
    split; [done|]. intros Hws. apply Hne.
    by rewrite <-Hu, (consistent_userId _ _ Hcons _ _ Hs), Hws.
  - intros (s & Hs & Hu).
    apply elem_of_unsubscribe_loop in Hs as [Hs Hws];
      [|apply (consistent_once _ _ Hcons)].
    split; [|by exists s]. intros ->. by apply Hws, Hsole.
Qed.

Lemma presence_exact_closure_loop uid ws0 chs st :
  consistent uid st → presence_exact st →
  Forall (λ X, Forall (λ s, userId s = uid ws0 → ws s = ws0) (subscribers st X)) chs →
  presence_exact (closure_loop_state ws0 (uid ws0) chs st).
Proof.
  revert st. induction chs as [|channelName chs IH]; intros st Hcons H Hsole; [done|].
  apply Forall_cons in Hsole as [Hhere Hrest].
  cbn [closure_loop_state foldl]. apply IH.
  - by apply consistent_closure_channel.
  - by apply presence_exact_closure_channel.
  - eapply Forall_impl; [exact Hrest|]. intros X HX. cbv beta in HX.
    rewrite Forall_forall in HX. apply Forall_forall. intros s.
    rewrite subscribers_closure_channel. case_decide as Heq; [subst X|apply HX].
    intros Hs. apply HX. eapply elem_of_sublist; [done|]. apply unsubscribe_loop_sublist.
Qed.

(** The userId that [handleWebSocketClosure] reads for a connection with
    an index entry is the one it subscribed under. *)
Lemma closure_guard_userId uid st ws0 chs userId :
  consistent uid st → closure_guard st ws0 = Some (chs, userId) → userId = uid ws0.
Proof.
  intros Hcons. unfold closure_guard.
  destruct (wsToChannels st !! ws0) as [l|] eqn:Hl; [|done].
  assert (wsToUser st !! ws0 = Some (uid ws0)) as ->.
  { apply (consistent_user _ _ Hcons). unfold index. rewrite Hl. cbn.
    intros ->. by apply (consistent_nonempty _ _ Hcons ws0). }
  destruct (truthy (uid ws0)); [|done]. by intros [= _ <-].
Qed.

Lemma presence_exact_closure uid ws0 st :
  consistent uid st → presence_exact st → sole_connection st ws0 →
  presence_exact (closure_state ws0 st).
Proof.
  intros Hcons H Hsole. unfold closure_state, sole_connection in *.
  destruct (closure_guard st ws0) as [[chs u]|] eqn:Hg; [|done].
  rewrite (closure_guard_userId uid st ws0 chs u Hcons Hg) in *.
  eapply presence_exact_same; [..|by apply presence_exact_closure_loop]; done.
Qed.

Lemma presence_exact_exec uid env op st :
  keeps_presence op →
  match op with HandleWebSocketClosure c => sole_connection st c | _ => True end →
  consistent uid st → presence_exact st →
  presence_exact (final (exec env op) st).
Proof.
  intros Hop Hsole Hcons H.
  destruct op as [ch sub|ch c|c|ch u n b|ch ev d ex| |]; cbn [exec]; try done.
  - unfold final. rewrite subscribe_result.
    destruct (identity_mismatch env sub); [done|].
    destruct (decide (duplicate st ch sub)); [done|].
    by apply presence_exact_subscribe.
  - rewrite handleWebSocketClosure_final. by eapply presence_exact_closure.
  - destruct (handleTyping_only_typing env ch u n b st) as (Hc & _ & _ & Ho).
    by eapply presence_exact_same.
  - by rewrite broadcast_final.
  - destruct (typingCleanup_only_typing env st) as (Hc & _ & _ & Ho).
    by eapply presence_exact_same.
Qed.

Lemma presence_exact_run uid steps st :
  Forall (respects uid) steps →
  Forall (λ step, keeps_presence step.2) steps →
  teardowns_sole steps st →
  consistent uid st → presence_exact st → presence_exact (final (run steps) st).
Proof.
  intros Hsteps. revert st.
  induction Hsteps as [|[env op] steps Hop _ IH]; intros st Hk Hsole Hcons H; [done|].
  apply Forall_cons in Hk as [Hk Hks]. destruct Hsole as [Hhere Hrest].
  unfold run. cbn [forEach]. rewrite final_bind. apply IH; [done|done| |].
  - by apply consistent_exec.
  - by apply presence_exact_exec with uid.
Qed.

(** Connections of different users: then every teardown is that of a
    [sole_connection]. *)
Lemma sole_connection_inj uid st c :
  Inj (=) (=) uid → consistent uid st → sole_connection st c.
Proof.
  intros Hinj Hcons. unfold sole_connection.
  destruct (closure_guard st c) as [[chs u]|] eqn:Hg; [|done].
  rewrite (closure_guard_userId uid st c chs u Hcons Hg).
  apply Forall_forall. intros X _. apply Forall_forall. intros s Hs Hu.
  apply Hinj. by rewrite <- (consistent_userId _ _ Hcons _ _ Hs).
Qed.

Lemma teardowns_sole_inj uid steps st :
  Inj (=) (=) uid → Forall (respects uid) steps → consistent uid st →
  teardowns_sole steps st.
Proof.
  intros Hinj Hsteps. revert st.
  induction Hsteps as [|[env op] steps Hop _ IH]; intros st Hcons; [done|].
  cbn [teardowns_sole]. split.
  - destruct op; try done. by apply sole_connection_inj with uid.
  - apply IH. by apply consistent_exec.
Qed.

(** C3, as stated, fails: [unsubscribe] removes the subscription and leaves
    the presence set as it was. *)
Lemma presence_stale_counterexample :
  let env := demo_env [] [] 0 in
  let st := final (run [(env, Subscribe "x" (demo_sub 1 "u1"));
                        (env, Unsubscribe "x" 1)]) empty_manager in
  ("u1" ∈ presence st "x") ∧ ¬ (∃ s, s ∈ subscribers st "x" ∧ userId s = "u1").
Proof.
  split.
  - vm_compute. by left.
  - intros (s & Hs & _). vm_compute in Hs. by apply elem_of_nil in Hs.
Qed.

(** Nor does the claim hold without [unsubscribe] when one user holds two
    connections in one channel at once: closing one of them takes the user
    out of the presence set while the other connection is still
    subscribed. *)
Lemma presence_second_connection_example :
  let env := demo_env [] [] 0 in
  let st := final (run [(env, Subscribe "x" (demo_sub 1 "u1"));
                        (env, Subscribe "x" (demo_sub 2 "u1"));
                        (env, HandleWebSocketClosure 1)]) empty_manager in
  ("u1" ∉ presence st "x") ∧ ∃ s, s ∈ subscribers st "x" ∧ userId s = "u1".
Proof.
  split.
  - vm_compute. apply not_elem_of_nil.
  - exists (demo_sub 2 "u1"). split; [|done]. vm_compute. by left.
Qed.

(** C3, amended. In every run from the empty registry that makes no
    stand-alone [unsubscribe] (and no cleanup of closed connections), in
    which each connection subscribes under one userId and no connection is
    torn down while another connection holds a subscription under the same
    userId in one of its channels: a userId is in the presence set of a
    channel if and only if the channel holds a subscription for that
    userId. *)
Theorem presence_consistency uid steps :
  Forall (respects uid) steps →
  Forall (λ step, keeps_presence step.2) steps →
  teardowns_sole steps empty_manager →
  let st := final (run steps) empty_manager in
  ∀ X u, u ∈ presence st X ↔ ∃ s, s ∈ subscribers st X ∧ userId s = u.
Proof.
  intros Hsteps Hk Hsole st.
  apply (presence_exact_run uid); [done..|apply consistent_empty|apply presence_exact_empty].
Qed.

(** A user who reconnects: connection 1 of user [alice] is torn down, then
    her connection 2 subscribes to the same channel. *)
Lemma presence_consistency_witness :
  let env := demo_env [] [] 0 in
  let st := final (run [(env, Subscribe "a" (demo_sub 1 "alice"));
                        (env, Subscribe "b" (demo_sub 1 "alice"));
                        (env, Subscribe "a" (demo_sub 3 "bob"));
                        (env, HandleWebSocketClosure 1);
                        (env, Subscribe "a" (demo_sub 2 "alice"))]) empty_manager in
  subscribers st "a" = [demo_sub 3 "bob"; demo_sub 2 "alice"]
  ∧ (("alice" ∈ presence st "a") ↔ ∃ s, s ∈ subscribers st "a" ∧ userId s = "alice").
Proof.
  intros env st. split; [by vm_compute|].
  apply (presence_consistency (λ c, if bool_decide (c = 3) then "bob" else "alice")
    [(env, Subscribe "a" (demo_sub 1 "alice"));
     (env, Subscribe "b" (demo_sub 1 "alice"));
     (env, Subscribe "a" (demo_sub 3 "bob"));
     (env, HandleWebSocketClosure 1);
     (env, Subscribe "a" (demo_sub 2 "alice"))]).
  - repeat constructor.
  - repeat constructor.
  - apply (bool_decide_unpack _). by vm_compute.
Defined.

(** ** [subscribe] twice *)

Lemma filter_none {A} (P : A → Prop) `{!∀ x, Decision (P x)} (l : list A) :
  (∀ x, x ∈ l → ¬ P x) → filter P l = [].
Proof.
  induction l as [|x l IH]; intros Hl; [done|].
  rewrite filter_cons, decide_False by (apply Hl; left).
  apply IH. intros y Hy. apply Hl. by right.
Qed.

Lemma subscribe_broadcasts env channelName subscription st :
  identity_mismatch env subscription = false →
  ¬ duplicate st channelName subscription →
  broadcasts (trace (subscribe env channelName subscription) st)
  = [(channelName, MEMBER_STATUS_UPDATE,
      status_payload (userId subscription) true
        (presence (subscribe_state channelName subscription st) channelName))].
Proof.
  intros Hid Hdup. unfold trace. rewrite subscribe_result, Hid.
  rewrite decide_False by done. cbv zeta. cbn [snd].
  by rewrite broadcasts_app, broadcast_broadcasts.
Qed.

Lemma subscribe_final_new env channelName subscription st :
  identity_mismatch env subscription = false →
  ¬ duplicate st channelName subscription →
  final (subscribe env channelName subscription) st
  = subscribe_state channelName subscription st.
Proof.
  intros Hid Hdup. unfold final. rewrite subscribe_result, Hid.
  by rewrite decide_False by done.
Qed.

(** A [subscribe] of a pair that the channel holds changes nothing and
    broadcasts nothing, whatever the identity check says. *)
Lemma subscribe_duplicate env channelName subscription st :
  duplicate st channelName subscription →
  final (subscribe env channelName subscription) st = st
  ∧ broadcasts (trace (subscribe env channelName subscription) st) = [].
Proof.
  intros Hdup. unfold final, trace. rewrite subscribe_result.
  destruct (identity_mismatch env subscription); [done|].
  by rewrite decide_True by done.
Qed.

(** C4. A [subscribe] that passes the identity check for a pair
    (connection, userId) that the channel does not hold yet, followed at
    once by the same [subscribe]: the channel's set then holds exactly one
    subscription for the pair; the two calls together call [broadcast]
    exactly once, with the presence-online [MEMBER_STATUS_UPDATE] of the
    first call; the second call leaves the registry as the first one left
    it and broadcasts nothing. *)
Theorem subscribe_twice env1 env2 st channelName subscription :
  identity_mismatch env1 subscription = false →
  ¬ duplicate st channelName subscription →
  let st1 := final (subscribe env1 channelName subscription) st in
  let t1 := trace (subscribe env1 channelName subscription) st in
  let st2 := final (subscribe env2 channelName subscription) st1 in
  let t2 := trace (subscribe env2 channelName subscription) st1 in
  length (filter (λ sub, ws sub = ws subscription ∧ userId sub = userId subscription)
            (subscribers st2 channelName)) = 1
  ∧ broadcasts (t1 ++ t2)
    = [(channelName, MEMBER_STATUS_UPDATE,
        status_payload (userId subscription) true (presence st1 channelName))]
  ∧ userId subscription ∈ presence st1 channelName
  ∧ st2 = st1
  ∧ broadcasts t2 = [].
Proof.
  intros Hid Hdup st1 t1 st2 t2.
  assert (st1 = subscribe_state channelName subscription st) as Hst1.
  { by apply subscribe_final_new. }
  assert (duplicate st1 channelName subscription) as Hdup1.
  { exists subscription. split; [|done]. rewrite Hst1, subscribers_subscribe.
    rewrite decide_True by done. apply elem_of_app. right. by left. }
  destruct (subscribe_duplicate env2 channelName subscription st1 Hdup1) as [Hst2 Ht2].
  fold st2 in Hst2. fold t2 in Ht2.
  split_and!; [| | |done..].
  - rewrite Hst2, Hst1, subscribers_subscribe, decide_True by done.
    rewrite filter_app, filter_none.
    + rewrite filter_cons, decide_True by done. done.
    + intros s Hs [Hws Hu]. apply Hdup. by exists s.
  - rewrite broadcasts_app, Ht2, app_nil_r. subst t1.
    rewrite subscribe_broadcasts by done. by rewrite Hst1.
  - rewrite Hst1, presence_subscribe, decide_True by done.
    apply elem_of_set_add. by left.
Qed.

Lemma subscribe_twice_witness :
  let env := with_user (λ c, Some (demo_token "u1")) (demo_env [] [] 0) in
  let sub := demo_sub 1 "u1" in
  let st1 := final (subscribe env "x" sub) empty_manager in
  let st2 := final (subscribe env "x" sub) st1 in
  subscribers st2 "x" = [sub]
  ∧ broadcasts (trace (subscribe env "x" sub) empty_manager
                ++ trace (subscribe env "x" sub) st1)
    = [("x", MEMBER_STATUS_UPDATE, status_payload "u1" true ["u1"])].
Proof.
  intros env sub st1 st2.
  destruct (subscribe_twice env env empty_manager "x" sub) as (_ & Hb & _ & _ & _).
  - reflexivity.
  - intros (s & Hs & _). by apply elem_of_nil in Hs.
  - split; [by vm_compute|]. exact Hb.
Defined.

(** ** [handleWebSocketClosure]: completeness of the teardown *)

Lemma typing_closure_channel_ne ws0 userId channelName st X :
  X ≠ channelName →
  typing (closure_channel_state ws0 userId channelName st) X = typing st X.
Proof.
  intros HX. unfold closure_channel_state, typing. rewrite typingUsers_unsubscribe.
  unfold closure_typing, typing. mgr_simpl.
  destruct (jm_get userId _); mgr_simpl; [|done]. by rewrite jm_get_set_ne.
Qed.

Lemma closure_channel_broadcasts_ne ws0 userId channelName st X :
  X ≠ channelName →
  closure_channel_broadcasts userId X (closure_channel_state ws0 userId channelName st)
  = closure_channel_broadcasts userId X st.
Proof.
  intros HX. unfold closure_channel_broadcasts.
  rewrite presence_closure_channel, decide_False by done.
  by rewrite typing_closure_channel_ne.
Qed.

Lemma closure_loop_broadcasts_elem ws0 userId chs st X b :
  X ∈ chs → b ∈ closure_channel_broadcasts userId X st →
  b ∈ closure_loop_broadcasts ws0 userId chs st.
Proof.
  revert st. induction chs as [|channelName chs IH]; intros st HX Hb.
  - by apply elem_of_nil in HX.
  - cbn [closure_loop_broadcasts]. apply elem_of_app.
    destruct (decide (X = channelName)) as [->|Hne]; [by left|].
    right. apply IH.
    + by apply elem_of_cons in HX as [?|?].
    + by rewrite closure_channel_broadcasts_ne.
Qed.

(** The calls of [broadcast] of a teardown are the presence-offline and
    stop-typing broadcasts of the closed connection's user. *)
Lemma closure_loop_broadcasts_shape ws0 userId chs st b :
  b ∈ closure_loop_broadcasts ws0 userId chs st →
  b.1.1 ∈ chs
  ∧ ((∃ online, b.1.2 = MEMBER_STATUS_UPDATE
                ∧ b.2 = status_payload userId false online)
     ∨ (∃ name remaining, b.1.2 = MEMBER_STOP_TYPING
                          ∧ b.2 = stop_typing_payload userId name remaining)).
Proof.
  revert st. induction chs as [|channelName chs IH]; intros st Hb.
  - by apply elem_of_nil in Hb.
  - cbn [closure_loop_broadcasts] in Hb. apply elem_of_app in Hb as [Hb|Hb].
    + unfold closure_channel_broadcasts in Hb.
      apply elem_of_cons in Hb as [->|Hb]; [split; [by left|left; by eauto]|].
      destruct (jm_get userId _); [|by apply elem_of_nil in Hb].
      apply list_elem_of_singleton in Hb as ->. split; [by left|right; by eauto].
    + destruct (IH _ Hb) as [? ?]. split; [by right|done].
Qed.

Lemma closure_guard_consistent uid st ws0 :
  consistent uid st → index st ws0 ≠ [] → uid ws0 ≠ EmptyString →
  closure_guard st ws0 = Some (index st ws0, uid ws0).
Proof.
  intros Hcons Hidx Hu. unfold closure_guard.
  rewrite (consistent_user _ _ Hcons) by done.
  unfold index in *. destruct (wsToChannels st !! ws0); [|done].
  unfold truthy. by rewrite bool_decide_eq_false_2.
Qed.

(** C5, as stated, fails: a connection without a verified identity that
    holds two subscriptions in channel "a" keeps one of them after the
    teardown. *)
Lemma closure_residue_counterexample :
  let env := demo_env [] [] 0 in
  let st := final (run [(env, Subscribe "a" (demo_sub 1 "u1"));
                        (env, Subscribe "a" (demo_sub 1 "u2"));
                        (env, Subscribe "b" (demo_sub 1 "u2"));
                        (env, HandleTyping "a" "u2" "Bob" true)]) empty_manager in
  let st' := final (handleWebSocketClosure env 1) st in
  index st 1 = ["a"; "b"]
  ∧ is_Some (jm_get "u2" (typing st "a"))
  ∧ subscribers st' "a" = [demo_sub 1 "u2"].
Proof. split_and!; [by vm_compute|vm_compute; by eauto|by vm_compute]. Qed.

(** A userId that is the empty string is falsy: the guard of
    [handleWebSocketClosure] then skips the teardown altogether. *)
Lemma closure_empty_userId_example :
  let env := demo_env [] [] 0 in
  let st := final (run [(env, Subscribe "a" (demo_sub 1 EmptyString));
                        (env, Subscribe "b" (demo_sub 1 EmptyString))]) empty_manager in
  index st 1 = ["a"; "b"]
  ∧ handleWebSocketClosure env 1 st = (tt, st, []).
Proof. by vm_compute. Qed.

(** C5, amended. In a registry in which each connection subscribes under
    one userId, the teardown of a connection [c] with a non-empty userId and
    at least one subscription calls [broadcast] with a presence-offline
    [MEMBER_STATUS_UPDATE] for every channel of [c] (for "a" and "b" when
    these are its channels) and with a [MEMBER_STOP_TYPING] for every such
    channel in which the user has a typing entry (for "a" when the entry is
    there), and with nothing else; afterwards no subscriber set, index entry
    or userId mapping refers to [c]; a second teardown of [c], and the
    teardown of any connection without an index entry, changes nothing and
    emits nothing. *)
Theorem closure_complete uid env env' st c :
  consistent uid st →
  index st c ≠ [] →
  uid c ≠ EmptyString →
  let t := trace (handleWebSocketClosure env c) st in
  let st' := final (handleWebSocketClosure env c) st in
  (∀ X, X ∈ index st c →
     (X, MEMBER_STATUS_UPDATE,
      status_payload (uid c) false (set_delete (uid c) (presence st X))) ∈ broadcasts t)
  ∧ (∀ X user, X ∈ index st c → jm_get (uid c) (typing st X) = Some user →
       (X, MEMBER_STOP_TYPING,
        stop_typing_payload (uid c) (username user)
          (jm_delete (uid c) (typing st X))) ∈ broadcasts t)
  ∧ (∀ b, b ∈ broadcasts t →
       b.1.1 ∈ index st c
       ∧ ((∃ online, b.1.2 = MEMBER_STATUS_UPDATE
                     ∧ b.2 = status_payload (uid c) false online)
          ∨ (∃ name remaining, b.1.2 = MEMBER_STOP_TYPING
                               ∧ b.2 = stop_typing_payload (uid c) name remaining)))
  ∧ (∀ X s, s ∈ subscribers st' X → ws s ≠ c)
  ∧ wsToChannels st' !! c = None
  ∧ wsToUser st' !! c = None
  ∧ handleWebSocketClosure env' c st' = (tt, st', [])
  ∧ (∀ c', wsToChannels st !! c' = None →
       handleWebSocketClosure env' c' st = (tt, st, [])).
Proof.
  intros Hcons Hidx Hu t st'.
  pose proof (closure_guard_consistent uid st c Hcons Hidx Hu) as Hg.
  destruct (handleWebSocketClosure_result env c st _ _ Hg) as (t0 & Hr & Hb).
  assert (t = t0) as -> by (subst t; unfold trace; by rewrite Hr).
  assert (st' = closure_state c st) as Hst' by apply handleWebSocketClosure_final.
  destruct (consistent_closure_loop uid c (uid c) (index st c) st Hcons) as [Hloop Hnil];
    [done|].
  assert (wsToChannels st' !! c = None) as Hnone.
  { rewrite Hst'. unfold closure_state. rewrite Hg. mgr_simpl. apply lookup_delete_eq. }
  split_and!.
  - intros X HX. rewrite Hb. eapply closure_loop_broadcasts_elem; [done|]. by left.
  - intros X user HX Huser. rewrite Hb. eapply closure_loop_broadcasts_elem; [done|].
    unfold closure_channel_broadcasts. rewrite Huser. right. by left.
  - intros b Hin. rewrite Hb in Hin. by apply closure_loop_broadcasts_shape in Hin.
  - intros X s Hs Hws.
    assert (subscribers st' X
            = subscribers (closure_loop_state c (uid c) (index st c) st) X) as Hsame.
    { rewrite Hst'. unfold closure_state. by rewrite Hg. }
    rewrite Hsame in Hs.
    assert (X ∈ index (closure_loop_state c (uid c) (index st c) st) c) as HX.
    { apply (consistent_index _ _ Hloop). by exists s. }
    rewrite Hnil in HX. by apply elem_of_nil in HX.
  - done.
  - rewrite Hst'. unfold closure_state. rewrite Hg. mgr_simpl. apply lookup_delete_eq.
  - apply handleWebSocketClosure_noop. unfold closure_guard. by rewrite Hnone.
  - intros c' Hc'. apply handleWebSocketClosure_noop. unfold closure_guard. by rewrite Hc'.
Qed.

Lemma closure_complete_witness :
  let env := with_user (λ c, Some (demo_token (pretty c))) (demo_env [] [] 0) in
  let steps := [(env, Subscribe "a" (demo_sub 1 "1"));
                (env, Subscribe "b" (demo_sub 1 "1"));
                (env, Subscribe "a" (demo_sub 2 "2"));
                (env, HandleTyping "a" "1" "Alice" true)] in
  let st := final (run steps) empty_manager in
  let st' := final (handleWebSocketClosure env 1) st in
  index st 1 = ["a"; "b"]
  ∧ broadcasts (trace (handleWebSocketClosure env 1) st)
    = [("a", MEMBER_STATUS_UPDATE, status_payload "1" false ["2"]);
       ("a", MEMBER_STOP_TYPING, stop_typing_payload "1" "Alice" []);
       ("b", MEMBER_STATUS_UPDATE, status_payload "1" false [])]
  ∧ (∀ X s, s ∈ subscribers st' X → ws s ≠ 1)
  ∧ handleWebSocketClosure env 1 st' = (tt, st', []).
Proof.
  intros env steps st st'.
  destruct (closure_complete pretty env env st 1)
    as (_ & _ & _ & Hsubs & _ & _ & Hagain & _).
  - apply consistent_run; [|apply consistent_empty].
    subst steps. repeat constructor; done.
  - by vm_compute.
  - by vm_compute.
  - split_and!; [by vm_compute|by vm_compute|exact Hsubs|exact Hagain].
Defined.

(** ** The sweep of the typing maps *)

Lemma typingCleanup_user_result env now channelName entry st :
  ∃ t, typingCleanup_user env now channelName entry st
       = (tt, sweep_user_state now channelName entry st, t)
     ∧ broadcasts t
       = if decide (stale now entry.2)
         then [(channelName, MEMBER_STOP_TYPING, sweep_payload entry.1 (username entry.2))]
         else [].
Proof.
  destruct entry as [userId user]. unfold typingCleanup_user, sweep_user_state, stale.
  cbn [fst snd]. case_bool_decide as Hs.
  - rewrite !decide_True by done. unfold when. msteps. rewrite broadcast_result.
    unfold tell. cbn [fst snd]. eexists. split; [done|].
    by rewrite ?app_nil_l, broadcast_broadcasts.
  - rewrite !decide_False by done. by exists [].
Qed.

Lemma typingCleanup_inner_result env now channelName typingMap st :
  ∃ t, forEach typingMap (typingCleanup_user env now channelName) st
       = (tt, foldl (λ s e, sweep_user_state now channelName e s) st typingMap, t)
     ∧ broadcasts t = sweep_channel_broadcasts now (channelName, typingMap).
Proof.
  revert st. induction typingMap as [|e typingMap IH]; intros st; [by exists []|].
  destruct (typingCleanup_user_result env now channelName e st) as (t1 & Hr1 & Hb1).
  destruct (IH (sweep_user_state now channelName e st)) as (t2 & Hr2 & Hb2).
  exists (t1 ++ t2). cbn [forEach foldl].
  rewrite (bind_result _ _ _ _ _ _ Hr1), Hr2. unfold tell. cbn [fst snd].
  split; [done|]. rewrite broadcasts_app, Hb1, Hb2.
  unfold sweep_channel_broadcasts. cbn [fst snd]. rewrite filter_cons.
  by destruct (decide (stale now e.2)).
Qed.

Lemma typingCleanup_channel_result env now entry st :
  ∃ t, typingCleanup_channel env now entry st
       = (tt, sweep_channel_state now entry st, t)
     ∧ broadcasts t = sweep_channel_broadcasts now entry.
Proof.
  destruct entry as [channelName typingMap].
  destruct (typingCleanup_inner_result env now channelName typingMap st) as (t & Hr & Hb).
  unfold typingCleanup_channel, sweep_channel_state. cbn [fst snd].
  rewrite (bind_result _ _ _ _ _ _ Hr). msteps. unfold typing.
  destruct (bool_decide _); unfold when; msteps; unfold tell, ret; cbn [fst snd];
    (eexists; split; [done|]); by rewrite app_nil_r.
Qed.

Lemma typingCleanup_result env st :
  ∃ t, typingCleanup env st = (tt, sweep_state (Date_now env) st, t)
     ∧ broadcasts t = sweep_broadcasts (Date_now env) (typingUsers st).
Proof.
  unfold typingCleanup, sweep_state, sweep_broadcasts. cbv zeta. msteps.
  generalize (typingUsers st). intros entries. revert st.
  induction entries as [|entry entries IH]; intros st; [by exists []|].
  destruct (typingCleanup_channel_result env (Date_now env) entry st) as (t1 & Hr1 & Hb1).
  destruct (IH (sweep_channel_state (Date_now env) entry st)) as (t2 & Hr2 & Hb2).
  exists (t1 ++ t2). cbn [forEach foldl].
  rewrite (bind_result _ _ _ _ _ _ Hr1), Hr2. unfold tell. cbn [fst snd].
  split; [done|]. by rewrite broadcasts_app, Hb1, Hb2.
Qed.

(** *** The typing maps after a sweep *)

Lemma sweep_map_cons now e l m :
  sweep_map now (e :: l) m
  = sweep_map now l (if decide (stale now e.2) then jm_delete e.1 m else m).
Proof. done. Qed.

Lemma sweep_map_lookup now l m u :
  jm_get u (sweep_map now l m)
  = if decide (Exists (λ e, e.1 = u ∧ stale now e.2) l) then None else jm_get u m.
Proof.
  revert m. induction l as [|e l IH]; intros m.
  - cbn. rewrite decide_False; [done|]. by intros ?%Exists_nil.
  - rewrite sweep_map_cons, IH.
    destruct (decide (Exists (λ e, e.1 = u ∧ stale now e.2) l)) as [Hl|Hl].
    { rewrite decide_True; [done|]. by apply Exists_cons_tl. }
    destruct (decide (stale now e.2)) as [Hs|Hs].
    + destruct (decide (e.1 = u)) as [Hu|Hu].
      * rewrite decide_True by (apply Exists_cons_hd; done).
        subst u. apply jm_get_delete_eq.
      * rewrite decide_False by (intros [[? ?]|?]%Exists_cons; done).
        by apply jm_get_delete_ne.
    + rewrite decide_False by (intros [[? ?]|?]%Exists_cons; done). done.
Qed.

Lemma sweep_map_wf now l m : jm_wf m → jm_wf (sweep_map now l m).
Proof.
  revert m. induction l as [|e l IH]; intros m Hm; [done|].
  rewrite sweep_map_cons. apply IH. destruct (decide _); [by apply jm_wf_delete|done].
Qed.

Lemma typingUsers_sweep_user now channelName e st X :
  jm_get X (typingUsers (sweep_user_state now channelName e st))
  = if decide (stale now e.2 ∧ X = channelName)
    then Some (jm_delete e.1 (typing st channelName))
    else jm_get X (typingUsers st).
Proof.
  unfold sweep_user_state. destruct (decide (stale now e.2)) as [Hs|Hs].
  - mgr_simpl. destruct (decide (X = channelName)) as [->|HX].
    + rewrite decide_True by done. apply jm_get_set_eq.
    + rewrite decide_False by (by intros [_ ?]). by apply jm_get_set_ne.
  - rewrite decide_False; [done|]. by intros [? _].
Qed.

Lemma typingUsers_sweep_inner now channelName l st X tm :
  jm_get channelName (typingUsers st) = Some tm →
  jm_get X (typingUsers (foldl (λ s e, sweep_user_state now channelName e s) st l))
  = if decide (X = channelName) then Some (sweep_map now l tm)
    else jm_get X (typingUsers st).
Proof.
  revert st tm. induction l as [|e l IH]; intros st tm Htm.
  - cbn. case_decide; [by subst|done].
  - cbn [foldl]. rewrite sweep_map_cons.
    destruct (decide (stale now e.2)) as [Hs|Hs].
    + rewrite (IH _ (jm_delete e.1 tm)).
      * case_decide as HX; [done|]. rewrite typingUsers_sweep_user.
        rewrite decide_False; [done|]. by intros [_ ?].
      * rewrite typingUsers_sweep_user, decide_True by done.
        unfold typing. by rewrite Htm.
    + assert (sweep_user_state now channelName e st = st) as ->.
      { unfold sweep_user_state. by rewrite decide_False. }
      by apply IH.
Qed.

Lemma typingUsers_sweep_channel now channelName l st X tm :
  jm_get channelName (typingUsers st) = Some tm →
  jm_get X (typingUsers (sweep_channel_state now (channelName, l) st))
  = if decide (X = channelName)
    then (if bool_decide (length (sweep_map now l tm) = 0) then None
          else Some (sweep_map now l tm))
    else jm_get X (typingUsers st).
Proof.
  intros Htm. unfold sweep_channel_state. cbn [fst snd]. cbv zeta.
  set (st1 := foldl _ st l).
  assert (∀ Y, jm_get Y (typingUsers st1)
               = if decide (Y = channelName) then Some (sweep_map now l tm)
                 else jm_get Y (typingUsers st)) as H1.
  { intros Y. by apply typingUsers_sweep_inner. }
  unfold typing. rewrite (H1 channelName), decide_True by done. cbn [default from_option id].
  case_bool_decide as Hlen.
  - mgr_simpl. case_decide as HX.
    + subst X. apply jm_get_delete_eq.
    + rewrite jm_get_delete_ne by done. rewrite H1. by rewrite decide_False.
  - rewrite H1. by case_decide.
Qed.

Lemma typingUsers_wf_sweep_channel now entry st :
  jm_wf (typingUsers st) → jm_wf (typingUsers (sweep_channel_state now entry st)).
Proof.
  intros Hwf. unfold sweep_channel_state. cbv zeta.
  assert (jm_wf (typingUsers (foldl (λ s e, sweep_user_state now entry.1 e s) st entry.2)))
    as H1.
  { generalize entry.2. intros l. revert st Hwf. induction l as [|e l IH]; intros st Hwf.
    - done.
    - cbn [foldl]. apply IH. unfold sweep_user_state.
      destruct (decide _); [|done]. mgr_simpl. by apply jm_wf_set. }
  case_bool_decide; [|done]. mgr_simpl. by apply jm_wf_delete.
Qed.

(** The sweep over the entries [es] of [typingUsers], each still in place. *)
Lemma sweep_fold now es st :
  NoDup es.*1 → (∀ k v, (k, v) ∈ es → jm_get k (typingUsers st) = Some v) →
  let st' := foldl (λ s entry, sweep_channel_state now entry s) st es in
  ∀ X, jm_get X (typingUsers st')
       = if decide (X ∈ es.*1)
         then (let m := sweep_map now (typing st X) (typing st X) in
               if bool_decide (length m = 0) then None else Some m)
         else jm_get X (typingUsers st).
Proof.
  revert st. induction es as [|[k v] es IH]; intros st Hnd Hes st' X.
  - subst st'. cbn [foldl]. rewrite decide_False; [done|]. apply not_elem_of_nil.
  - apply NoDup_cons in Hnd as [Hk Hnd]. csimpl in Hk.
    set (st1 := sweep_channel_state now (k, v) st).
    assert (jm_get k (typingUsers st) = Some v) as Hkv by (apply Hes; left).
    assert (∀ Y, jm_get Y (typingUsers st1)
                 = if decide (Y = k)
                   then (if bool_decide (length (sweep_map now v v) = 0) then None
                         else Some (sweep_map now v v))
                   else jm_get Y (typingUsers st)) as H1.
    { intros Y. subst st1. by apply typingUsers_sweep_channel. }
    assert (∀ Y, Y ∈ ((k, v) :: es).*1 ↔ Y = k ∨ Y ∈ es.*1) as Hcons.
    { intros Y. csimpl. apply elem_of_cons. }
    subst st'. cbn [foldl]. fold st1. rewrite IH; [|done|].
    + destruct (decide (X = k)) as [->|HX].
      * rewrite (decide_False (P := k ∈ es.*1)) by done.
        rewrite decide_True by (apply Hcons; by left).
        rewrite H1, decide_True by done. unfold typing. by rewrite Hkv.
      * destruct (decide (X ∈ es.*1)) as [Hin|Hin].
        -- rewrite decide_True by (apply Hcons; by right).
           unfold typing. by rewrite H1, decide_False.
        -- rewrite decide_False by (rewrite Hcons; by intros [?|?]).
           by rewrite H1, decide_False.
    + intros k' v' Hin. rewrite H1, decide_False; [apply Hes; by right|].
      intros ->. apply Hk. apply list_elem_of_fmap. by exists (k, v').
Qed.

Lemma typing_sweep now st X :
  jm_wf (typingUsers st) →
  typing (sweep_state now st) X = sweep_map now (typing st X) (typing st X).
Proof.
  intros Hwf. unfold typing at 1, sweep_state.
  rewrite (sweep_fold now (typingUsers st) st Hwf).
  - case_decide as Hin.
    + cbv zeta. case_bool_decide as Hlen; [|done].
      by apply nil_length_inv in Hlen as ->.
    + rewrite elem_of_jm_keys in Hin. apply eq_None_not_Some in Hin.
      unfold typing. by rewrite Hin.
  - intros k v Hin. by apply jm_elem_get.
Qed.

Lemma typing_wf_lookup st X : typing_wf st → jm_wf (typing st X).
Proof.
  intros [Hwf Hall]. unfold typing.
  destruct (jm_get X (typingUsers st)) as [tm|] eqn:Hget; [|apply NoDup_nil_2].
  apply jm_get_Some_elem in Hget. rewrite Forall_forall in Hall. by apply (Hall (X, tm)).
Qed.

Lemma typingUsers_wf_sweep_fold now es st :
  jm_wf (typingUsers st) →
  jm_wf (typingUsers (foldl (λ s entry, sweep_channel_state now entry s) st es)).
Proof.
  revert st. induction es as [|e es IH]; intros st Hwf; [done|].
  cbn [foldl]. apply IH. by apply typingUsers_wf_sweep_channel.
Qed.

Lemma typing_wf_sweep now st : typing_wf st → typing_wf (sweep_state now st).
Proof.
  intros Hwf. pose proof Hwf as [Ho Hi].
  assert (jm_wf (typingUsers (sweep_state now st))) as Ho'.
  { by apply typingUsers_wf_sweep_fold. }
  split; [done|].
  apply Forall_forall. intros [k m] Hin. cbn [snd].
  apply (jm_elem_get _ _ _ Ho') in Hin.
  assert (m = typing (sweep_state now st) k) as ->.
  { unfold typing. by rewrite Hin. }
  rewrite typing_sweep by done. apply sweep_map_wf. by apply typing_wf_lookup.
Qed.

(** *** The broadcasts of a sweep that concern one typing entry *)

Lemma filter_key {V} (Q : V → Prop) `{!∀ v, Decision (Q v)} (m : list (string * V)) u :
  jm_wf m →
  filter (λ e, e.1 = u ∧ Q e.2) m
  = match jm_get u m with
    | Some v => if decide (Q v) then [(u, v)] else []
    | None => []
    end.
Proof.
  unfold jm_wf, jm_keys. induction m as [|[k v] m IH]; [done|].
  csimpl. intros [Hk Hm]%NoDup_cons. rewrite filter_cons. cbn [fst snd].
  destruct (decide (k = u)) as [->|Hne].
  - assert (filter (λ e, e.1 = u ∧ Q e.2) m = []) as ->.
    { apply filter_none. intros e He [Hu _]. apply Hk.
      apply list_elem_of_fmap. exists e. by split. }
    destruct (decide (Q v)); [by rewrite decide_True|].
    rewrite decide_False; [done|]. by intros [_ ?].
  - rewrite decide_False by (by intros [? _]). by apply IH.
Qed.

Lemma payload_userId_sweep userId username :
  payload_userId (sweep_payload userId username) = Some userId.
Proof. done. Qed.

Lemma sweep_channel_about now channelName userId k tm :
  filter (λ b, b.1.1 = channelName ∧ payload_userId b.2 = Some userId)
    (sweep_channel_broadcasts now (k, tm))
  = if decide (k = channelName)
    then (λ e, (channelName, MEMBER_STOP_TYPING, sweep_payload e.1 (username e.2)))
           <$> filter (λ e, e.1 = userId ∧ stale now e.2) tm
    else [].
Proof.
  unfold sweep_channel_broadcasts. cbn [fst snd].
  induction tm as [|e tm IH]; [by case_decide|].
  rewrite !filter_cons. destruct (decide (stale now e.2)) as [Hs|Hs].
  - csimpl. rewrite filter_cons, IH. cbn [fst snd]. rewrite payload_userId_sweep.
    destruct (decide (k = channelName)) as [->|Hk].
    + destruct (decide (e.1 = userId)) as [Hu|Hu].
      * rewrite !decide_True by (by rewrite ?Hu). done.
      * rewrite !decide_False; [done|by intros [? _]|by intros [_ [= ?]]].
    + rewrite decide_False; [done|]. by intros [? _].
  - rewrite IH. case_decide; [|done]. rewrite decide_False; [done|]. by intros [_ ?].
Qed.

Lemma sweep_broadcasts_about now channelName userId entries :
  jm_wf entries →
  filter (λ b, b.1.1 = channelName ∧ payload_userId b.2 = Some userId)
    (sweep_broadcasts now entries)
  = (λ e, (channelName, MEMBER_STOP_TYPING, sweep_payload e.1 (username e.2)))
      <$> filter (λ e, e.1 = userId ∧ stale now e.2)
            (default [] (jm_get channelName entries)).
Proof.
  unfold jm_wf, jm_keys, sweep_broadcasts.
  induction entries as [|[k tm] entries IH]; [done|].
  csimpl. intros [Hk Hnd]%NoDup_cons. rewrite filter_app, sweep_channel_about.
  destruct (decide (k = channelName)) as [->|Hne].
  - cbn [default from_option id].
    assert (jm_get channelName entries = None) as Hget.
    { by apply jm_get_None_keys. }
    rewrite (IH Hnd), Hget. cbn. by rewrite app_nil_r.
  - by apply IH.
Qed.

(** One sweep, seen from one typing entry. *)
Lemma sweep_once env st channelName userId :
  typing_wf st →
  let st' := final (typingCleanup env) st in
  let about := broadcasts_about channelName userId (trace (typingCleanup env) st) in
  typing_wf st'
  ∧ match jm_get userId (typing st channelName) with
    | Some user =>
        if decide (stale (Date_now env) user)
        then jm_get userId (typing st' channelName) = None
             ∧ about = [(channelName, MEMBER_STOP_TYPING,
                         sweep_payload userId (username user))]
        else jm_get userId (typing st' channelName) = Some user ∧ about = []
    | None => jm_get userId (typing st' channelName) = None ∧ about = []
    end.
Proof.
  intros Hwf st' about. pose proof Hwf as [Ho Hi].
  destruct (typingCleanup_result env st) as (t & Hr & Hb).
  assert (st' = sweep_state (Date_now env) st) as ->.
  { subst st'. unfold final. by rewrite Hr. }
  assert (about = (λ e, (channelName, MEMBER_STOP_TYPING,
                         sweep_payload e.1 (username e.2)))
                    <$> filter (λ e, e.1 = userId ∧ stale (Date_now env) e.2)
                          (typing st channelName)) as ->.
  { subst about. unfold broadcasts_about, trace. rewrite Hr. cbn [snd]. rewrite Hb.
    by apply sweep_broadcasts_about. }
  split; [by apply typing_wf_sweep|].
  pose proof (typing_wf_lookup st channelName Hwf) as Hwfm.
  rewrite typing_sweep, sweep_map_lookup by done.
  rewrite (filter_key (stale (Date_now env))) by done.
  destruct (jm_get userId (typing st channelName)) as [user|] eqn:Hget.
  - destruct (decide (stale (Date_now env) user)) as [Hs|Hs].
    + split; [|done]. rewrite decide_True; [done|].
      apply Exists_exists. exists (userId, user). split; [|done].
      by apply jm_get_Some_elem.
    + split; [|done]. rewrite decide_False; [done|].
      intros ([u' user'] & Hin & Hu & Hs')%Exists_exists. cbn [fst snd] in *. subst u'.
      apply (jm_elem_get _ _ _ Hwfm) in Hin. congruence.
  - split; [|done]. by case_decide.
Qed.

Lemma run_cons_final env op steps st :
  final (run ((env, op) :: steps)) st = final (run steps) (final (exec env op) st).
Proof. done. Qed.

Lemma run_cons_trace env op steps st :
  trace (run ((env, op) :: steps)) st
  = trace (exec env op) st ++ trace (run steps) (final (exec env op) st).
Proof. done. Qed.

Lemma broadcasts_about_app channelName userId t1 t2 :
  broadcasts_about channelName userId (t1 ++ t2)
  = broadcasts_about channelName userId t1 ++ broadcasts_about channelName userId t2.
Proof. unfold broadcasts_about. by rewrite broadcasts_app, filter_app. Qed.

Lemma sweep_steps_cons env envs :
  sweep_steps (env :: envs) = (env, TypingCleanup) :: sweep_steps envs.
Proof. done. Qed.

(** Sweeps neither add a typing entry nor mention an absent one. *)
Lemma sweeps_absent envs st channelName userId :
  typing_wf st → jm_get userId (typing st channelName) = None →
  jm_get userId (typing (final (run (sweep_steps envs)) st) channelName) = None
  ∧ broadcasts_about channelName userId (trace (run (sweep_steps envs)) st) = [].
Proof.
  revert st. induction envs as [|env envs IH]; intros st Hwf Hget; [done|].
  rewrite sweep_steps_cons, run_cons_final, run_cons_trace.
  cbn [exec]. destruct (sweep_once env st channelName userId Hwf) as [Hwf' H1].
  rewrite Hget in H1. destruct H1 as [Hget' Hb1].
  destruct (IH _ Hwf' Hget') as [Hget'' Hb2].
  split; [done|]. by rewrite broadcasts_about_app, Hb1, Hb2.
Qed.

(** A typing entry through any number of sweeps: it stays, unmentioned,
    as long as no sweep finds it stale; once a sweep has found it stale it
    is gone and exactly one broadcast has been made for it. *)
Lemma sweeps_entry envs st channelName userId user :
  typing_wf st →
  jm_get userId (typing st channelName) = Some user →
  let st' := final (run (sweep_steps envs)) st in
  let about := broadcasts_about channelName userId (trace (run (sweep_steps envs)) st) in
  (Exists (λ env, stale (Date_now env) user) envs →
     jm_get userId (typing st' channelName) = None
     ∧ about = [(channelName, MEMBER_STOP_TYPING, sweep_payload userId (username user))])
  ∧ (Forall (λ env, ¬ stale (Date_now env) user) envs →
       jm_get userId (typing st' channelName) = Some user ∧ about = []).
Proof.
  revert st. induction envs as [|env envs IH]; intros st Hwf Hget st' about.
  - split; [by intros ?%Exists_nil|done].
  - subst st' about.
    rewrite sweep_steps_cons, run_cons_final, run_cons_trace, broadcasts_about_app.
    cbn [exec].
    destruct (sweep_once env st channelName userId Hwf) as [Hwf' H1].
    rewrite Hget in H1.
    destruct (decide (stale (Date_now env) user)) as [Hs|Hs]; destruct H1 as [Hget' Hb1].
    + destruct (sweeps_absent envs _ channelName userId Hwf' Hget') as [Hget'' Hb2].
      split; [|by intros [? _]%Forall_cons].
      intros _. split; [done|]. by rewrite Hb1, Hb2.
    + destruct (IH _ Hwf' Hget') as [IHe IHf]. rewrite Hb1. split.
      * intros [?|Hex]%Exists_cons; [done|]. by apply IHe.
      * intros [_ Hall]%Forall_cons. by apply IHf.
Qed.

(** ** The payloads of [MEMBER_STOP_TYPING] *)

Lemma sweep_broadcasts_shape now entries b :
  b ∈ sweep_broadcasts now entries →
  b.1.2 = MEMBER_STOP_TYPING ∧ ∃ userId username, b.2 = sweep_payload userId username.
Proof.
  unfold sweep_broadcasts. intros (e & Hb & _)%list_elem_of_bind.
  unfold sweep_channel_broadcasts in Hb.
  apply list_elem_of_fmap in Hb as (x & -> & _). split; [done|]. by eauto.
Qed.

(** C10. A [MEMBER_STOP_TYPING] that the sweep broadcasts carries the
    payload [{userId, username}] and no other field; the one that
    [handleTyping] broadcasts on a stop signal, and every one that
    [handleWebSocketClosure] broadcasts, carries
    [{userId, username, remainingTypingUsers}]. *)
Theorem stop_typing_payloads :
  (∀ env st b, b ∈ broadcasts (trace (typingCleanup env) st) →
     b.1.2 = MEMBER_STOP_TYPING
     ∧ (∃ userId username, b.2 = sweep_payload userId username)
     ∧ json_keys b.2 = ["userId"; "username"])
  ∧ (∀ env channelName userId username st,
       broadcasts (trace (handleTyping env channelName userId username false) st)
       = [(channelName, MEMBER_STOP_TYPING,
           stop_typing_payload userId username
             (jm_delete userId (typing st channelName)))]
       ∧ json_keys (stop_typing_payload userId username
                      (jm_delete userId (typing st channelName)))
         = ["userId"; "username"; "remainingTypingUsers"])
  ∧ (∀ env c st b, b ∈ broadcasts (trace (handleWebSocketClosure env c) st) →
       b.1.2 = MEMBER_STOP_TYPING →
       (∃ userId username remaining,
          b.2 = stop_typing_payload userId username remaining)
       ∧ json_keys b.2 = ["userId"; "username"; "remainingTypingUsers"]).
Proof.
  split_and!.
  - intros env st b Hb. destruct (typingCleanup_result env st) as (t & Hr & Ht).
    unfold trace in Hb. rewrite Hr in Hb. cbn [snd] in Hb. rewrite Ht in Hb.
    apply sweep_broadcasts_shape in Hb as (Hev & u & n & Hp).
    split_and!; [done|by eauto|by rewrite Hp].
  - intros env channelName userId username st.
    destruct (handleTyping_result env channelName userId username false st)
      as (t & Hr & Ht).
    unfold trace. rewrite Hr. cbn [snd]. by rewrite Ht.
  - intros env c st b Hb Hev.
    destruct (closure_guard st c) as [[chs u]|] eqn:Hg.
    + destruct (handleWebSocketClosure_result env c st chs u Hg) as (t & Hr & Ht).
      unfold trace in Hb. rewrite Hr in Hb. cbn [snd] in Hb. rewrite Ht in Hb.
      apply closure_loop_broadcasts_shape in Hb
        as (_ & [(online & Hev' & _)|(n & remaining & _ & Hp)]); [congruence|].
      split; [by eauto|by rewrite Hp].
    + unfold trace in Hb. rewrite handleWebSocketClosure_noop in Hb by done.
      by apply elem_of_nil in Hb.
Qed.

(** The three paths on one typing entry. *)
Lemma stop_typing_payloads_witness :
  let env := demo_env [] [] 5000 in
  let st := final (run [(demo_env [] [] 0, Subscribe "a" (demo_sub 1 "u1"));
                        (demo_env [] [] 0, HandleTyping "a" "u1" "Alice" true)])
              empty_manager in
  (("a", MEMBER_STOP_TYPING, sweep_payload "u1" "Alice")
     ∈ broadcasts (trace (typingCleanup env) st)
   ∧ json_keys (sweep_payload "u1" "Alice") = ["userId"; "username"])
  ∧ broadcasts (trace (handleTyping env "a" "u1" "Alice" false) st)
    = [("a", MEMBER_STOP_TYPING, stop_typing_payload "u1" "Alice" [])]
  ∧ (("a", MEMBER_STOP_TYPING, stop_typing_payload "u1" "Alice" [])
       ∈ broadcasts (trace (handleWebSocketClosure env 1) st)
     ∧ json_keys (stop_typing_payload "u1" "Alice" [])
       = ["userId"; "username"; "remainingTypingUsers"]).
Proof.
  intros env st. destruct stop_typing_payloads as (Hsweep & Hstop & Hclose).
  assert (("a", MEMBER_STOP_TYPING, sweep_payload "u1" "Alice")
            ∈ broadcasts (trace (typingCleanup env) st)) as H1.
  { vm_compute. by left. }
  assert (("a", MEMBER_STOP_TYPING, stop_typing_payload "u1" "Alice" [])
            ∈ broadcasts (trace (handleWebSocketClosure env 1) st)) as H3.
  { vm_compute. right. by left. }
  split_and!.
  - done.
  - by destruct (Hsweep env st _ H1) as (_ & _ & ?).
  - by destruct (Hstop env "a" "u1" "Alice" st) as [? _].
  - done.
  - by destruct (Hclose env 1 st _ H3) as [_ ?].
Defined.

(** ** The cleanup of closed connections *)

Lemma wsToUser_cleanup env st : wsToUser (cleanup_state env st) = wsToUser st.
Proof.
  unfold cleanup_state. generalize (channels st). intros es. revert st.
  induction es as [|e es IH]; intros st; [done|]. cbn [foldl]. by rewrite IH.
Qed.

(** No entry point but [unsubscribe] and [handleWebSocketClosure] takes a
    connection out of the connection-to-userId map. *)
Lemma wsToUser_kept env op st c :
  ¬ purges_userId op → is_Some (wsToUser st !! c) →
  is_Some (wsToUser (final (exec env op) st) !! c).
Proof.
  intros Hop Hc. destruct op as [ch sub|ch c'|c'|ch u n b|ch ev d ex| |]; cbn [exec].
  - unfold final. rewrite subscribe_result.
    destruct (identity_mismatch env sub); [done|].
    destruct (decide (duplicate st ch sub)); [done|].
    cbv zeta. cbn [fst snd]. unfold subscribe_state. cbn [wsToUser].
    destruct (decide (ws sub = c)) as [->|Hne].
    + rewrite lookup_insert_eq. by eauto.
    + by rewrite lookup_insert_ne.
  - by destruct Hop.
  - by destruct Hop.
  - destruct (handleTyping_only_typing env ch u n b st) as (_ & _ & -> & _). done.
  - by rewrite broadcast_final.
  - destruct (typingCleanup_only_typing env st) as (_ & _ & -> & _). done.
  - by rewrite cleanupInactiveConnections_final, wsToUser_cleanup.
Qed.

Lemma unsubscribe_state_other channelName c st c' :
  c' ≠ c →
  wsToChannels (unsubscribe_state channelName c st) !! c' = wsToChannels st !! c'
  ∧ wsToUser (unsubscribe_state channelName c st) !! c' = wsToUser st !! c'.
Proof.
  intros Hne. unfold unsubscribe_state.
  destruct (jm_get channelName (channels st)) as [channel|]; [|done].
  cbn [wsToChannels wsToUser].
  destruct (wsToChannels st !! c) as [l|]; [|done].
  case_bool_decide; by rewrite ?lookup_delete_ne, ?lookup_insert_ne.
Qed.

Lemma unsubscribe_state_no_entry channelName c st :
  wsToChannels st !! c = None →
  wsToChannels (unsubscribe_state channelName c st) = wsToChannels st
  ∧ wsToUser (unsubscribe_state channelName c st) = wsToUser st.
Proof.
  intros Hnone. unfold unsubscribe_state.
  destruct (jm_get channelName (channels st)) as [channel|]; [|done].
  cbn [wsToChannels wsToUser]. by rewrite Hnone.
Qed.

Lemma closure_loop_other c' u chs st c :
  c ≠ c' →
  wsToChannels (closure_loop_state c' u chs st) !! c = wsToChannels st !! c
  ∧ wsToUser (closure_loop_state c' u chs st) !! c = wsToUser st !! c.
Proof.
  intros Hne. unfold closure_loop_state. revert st.
  induction chs as [|X chs IH]; intros st; [done|]. cbn [foldl].
  destruct (IH (closure_channel_state c' u X st)) as [-> ->].
  unfold closure_channel_state.
  destruct (unsubscribe_state_other X c'
              (closure_typing u X
                 (set_onlineUsers <[X:=set_delete u (presence st X)]> st)) c Hne)
    as [-> ->].
  unfold closure_typing. by destruct (jm_get u _).
Qed.

(** What deletes from the connection-to-userId map: an [unsubscribe] or a
    teardown of that very connection, which had an index entry before and
    has none afterwards. *)
Lemma wsToUser_deleted env op st c u :
  wsToUser st !! c = Some u →
  wsToUser (final (exec env op) st) !! c = None →
  is_Some (wsToChannels st !! c)
  ∧ wsToChannels (final (exec env op) st) !! c = None
  ∧ ((∃ channelName, op = Unsubscribe channelName c) ∨ op = HandleWebSocketClosure c).
Proof.
  intros Hu Hgone.
  assert (purges_userId op) as Hop.
  { destruct op as [ch sub|X c'|c'|ch u0 n b|ch ev d ex| |]; try exact I.
    all: exfalso.
    all: match type of Hgone with
         | wsToUser (final (exec _ ?op) _) !! _ = _ =>
             destruct (wsToUser_kept env op st c) as [u' Hu'];
               [by intros []|by eauto|congruence]
         end. }
  destruct op as [ch sub|X c'|c'|ch u0 n b|ch ev d ex| |]; try done; cbn [exec] in *.
  - rewrite unsubscribe_final in *.
    destruct (decide (c = c')) as [<-|Hne].
    2:{ destruct (unsubscribe_state_other X c' st c Hne) as [_ Hsame]. congruence. }
    rewrite wsToUser_unsubscribe in Hgone.
    case_decide as Hd; [|congruence]. destruct Hd as (_ & Hch & Hidx & Hempty).
    split_and!; [done| |left; by exists X].
    unfold unsubscribe_state. destruct Hch as [channel ->]. cbn [wsToChannels].
    destruct Hidx as [l Hl]. unfold index in Hempty. rewrite Hl in Hempty. rewrite Hl.
    cbv zeta. rewrite bool_decide_eq_true_2; [apply lookup_delete_eq|].
    cbn [default from_option id] in Hempty. by rewrite Hempty.
  - rewrite handleWebSocketClosure_final in *. unfold closure_state in *.
    destruct (closure_guard st c') as [[chs u']|] eqn:Hg; [|congruence].
    mgr_simpl in Hgone. mgr_simpl.
    destruct (decide (c = c')) as [<-|Hne].
    + split_and!; [|apply lookup_delete_eq|by right].
      unfold closure_guard in Hg. destruct (wsToChannels st !! c); [by eauto|done].
    + rewrite lookup_delete_ne in Hgone by done.
      destruct (closure_loop_other c' u' chs st c Hne) as [_ Hsame]. congruence.
Qed.

Lemma index_drop_no_entry channelName k m c :
  m !! c = None → index_drop channelName k m !! c = None.
Proof.
  intros Hnone. unfold index_drop. destruct (m !! k) as [l|] eqn:Hk; [|done].
  assert (k ≠ c) by (intros ->; congruence).
  case_bool_decide; by rewrite ?lookup_delete_ne, ?lookup_insert_ne.
Qed.

Lemma cleanup_state_no_entry env st c :
  wsToChannels st !! c = None → wsToChannels (cleanup_state env st) !! c = None.
Proof.
  unfold cleanup_state. generalize (channels st). intros es. revert st.
  induction es as [|[X subs] es IH]; intros st Hnone; [done|]. cbn [foldl]. apply IH.
  unfold cleanup_channel_state. mgr_simpl. cbn [fst snd].
  generalize (wsToChannels st) Hnone. clear. intros m.
  revert m. induction subs as [|sub subs IH]; intros m Hnone; [done|].
  rewrite cleanup_index_cons. apply IH. case_bool_decide; [|done].
  by apply index_drop_no_entry.
Qed.

(** A userId mapping without an index entry stays, whatever is called,
    as long as the connection does not subscribe again. *)
Lemma residue_kept env op st c u :
  ¬ subscribes c op →
  wsToChannels st !! c = None → wsToUser st !! c = Some u →
  wsToChannels (final (exec env op) st) !! c = None
  ∧ wsToUser (final (exec env op) st) !! c = Some u.
Proof.
  intros Hop Hnone Hu.
  destruct op as [ch sub|X c'|c'|ch u0 n b|ch ev d ex| |]; cbn [exec subscribes] in *.
  - unfold final. rewrite subscribe_result.
    destruct (identity_mismatch env sub); [done|].
    destruct (decide (duplicate st ch sub)); [done|].
    cbv zeta. cbn [fst snd]. unfold subscribe_state. cbn [wsToChannels wsToUser].
    by rewrite !lookup_insert_ne.
  - rewrite unsubscribe_final. destruct (decide (c = c')) as [<-|Hne].
    + destruct (unsubscribe_state_no_entry X c st Hnone) as [-> ->]. done.
    + destruct (unsubscribe_state_other X c' st c Hne) as [-> ->]. done.
  - rewrite handleWebSocketClosure_final. unfold closure_state.
    destruct (closure_guard st c') as [[chs u']|] eqn:Hg; [|done].
    assert (c ≠ c') as Hne.
    { intros <-. unfold closure_guard in Hg. by rewrite Hnone in Hg. }
    mgr_simpl. rewrite !lookup_delete_ne by done.
    destruct (closure_loop_other c' u' chs st c Hne) as [-> ->]. done.
  - destruct (handleTyping_only_typing env ch u0 n b st) as (_ & -> & -> & _). done.
  - by rewrite broadcast_final.
  - destruct (typingCleanup_only_typing env st) as (_ & -> & -> & _). done.
  - rewrite cleanupInactiveConnections_final, wsToUser_cleanup.
    split; [by apply cleanup_state_no_entry|done].
Qed.

Lemma residue_kept_run steps st c u :
  Forall (λ step, ¬ subscribes c step.2) steps →
  wsToChannels st !! c = None → wsToUser st !! c = Some u →
  wsToChannels (final (run steps) st) !! c = None
  ∧ wsToUser (final (run steps) st) !! c = Some u.
Proof.
  intros Hsteps. revert st.
  induction Hsteps as [|[env op] steps Hop _ IH]; intros st Hnone Hu; [done|].
  rewrite run_cons_final.
  destruct (residue_kept env op st c u Hop Hnone Hu) as [Hnone' Hu']. by apply IH.
Qed.

(** C9, as stated, fails in its last clause: once the cleanup has evicted
    a connection completely, neither its teardown nor an [unsubscribe]
    purges the userId mapping that is left. *)
Lemma cleanup_residue_counterexample :
  let env := demo_env [] [] 0 in
  let closing := demo_env [1] [] 0 in
  let st := final (run [(env, Subscribe "a" (demo_sub 1 "u1"))]) empty_manager in
  let st' := final (cleanupInactiveConnections closing) st in
  (∀ X, subscribers st' X = []) ∧ wsToChannels st' !! 1 = None
  ∧ wsToUser st' !! 1 = Some "u1"
  ∧ wsToUser (final (handleWebSocketClosure closing 1) st') !! 1 = Some "u1"
  ∧ wsToUser (final (unsubscribe "a" 1) st') !! 1 = Some "u1".
Proof. by vm_compute. Qed.

(** C9, amended. [cleanupInactiveConnections] keeps, in every channel,
    exactly the subscriptions whose connection is open, and leaves no empty
    channel; it takes a channel out of a connection's index entry exactly
    when it removes a subscription of that connection from the channel, and
    deletes index entries that become empty; it leaves the
    connection-to-userId map as it was.  Hence a closed connection, in a
    consistent registry, loses all its subscriptions and its index entry
    and keeps its userId mapping.  An entry of that map is deleted only by
    an [unsubscribe] or a teardown of its own connection, and only when the
    connection has an index entry before the call and none after it; so a
    userId mapping without an index entry, as the cleanup leaves it, stays
    through every run in which the connection does not subscribe again. *)
Theorem cleanup_leaves_userId env st :
  jm_wf (channels st) →
  let st' := final (cleanupInactiveConnections env) st in
  (∀ X, subscribers st' X
        = filter (λ sub, readyState env (ws sub) = OPEN) (subscribers st X))
  ∧ (∀ X, jm_get X (channels st') ≠ Some [])
  ∧ (∀ c X, X ∈ index st' c
        ↔ X ∈ index st c
          ∧ ¬ (∃ s, s ∈ subscribers st X ∧ ws s = c ∧ readyState env c ≠ OPEN))
  ∧ ((∀ c, wsToChannels st !! c ≠ Some []) → ∀ c, wsToChannels st' !! c ≠ Some [])
  ∧ wsToUser st' = wsToUser st
  ∧ (∀ uid c u, consistent uid st → readyState env c ≠ OPEN →
       wsToUser st !! c = Some u →
       (∀ X s, s ∈ subscribers st' X → ws s ≠ c)
       ∧ wsToChannels st' !! c = None
       ∧ wsToUser st' !! c = Some u)
  ∧ (∀ env' op s c u,
       wsToUser s !! c = Some u → wsToUser (final (exec env' op) s) !! c = None →
       is_Some (wsToChannels s !! c)
       ∧ wsToChannels (final (exec env' op) s) !! c = None
       ∧ ((∃ channelName, op = Unsubscribe channelName c)
          ∨ op = HandleWebSocketClosure c))
  ∧ (∀ steps s c u,
       Forall (λ step, ¬ subscribes c step.2) steps →
       wsToChannels s !! c = None → wsToUser s !! c = Some u →
       wsToChannels (final (run steps) s) !! c = None
       ∧ wsToUser (final (run steps) s) !! c = Some u).
Proof.
  intros Hwf st'.
  assert (st' = cleanup_state env st) as -> by apply cleanupInactiveConnections_final.
  destruct (cleanup_state_views env st Hwf) as (Hch & Hidx & Hu & _ & _ & Hne).
  split_and!.
  - intros X. by apply subscribers_cleanup.
  - intros X. rewrite Hch. cbv zeta. case_bool_decide as Hlen; [done|].
    intros [= Heq]. by rewrite Heq in Hlen.
  - done.
  - done.
  - done.
  - intros uid c u Hcons Hclosed Hc. split_and!.
    + intros X s. rewrite subscribers_cleanup by done.
      intros [Hopen _]%list_elem_of_filter Hws. by rewrite Hws in Hopen.
    + assert (index (cleanup_state env st) c = []) as Hnil.
      { destruct (index (cleanup_state env st) c) as [|X l] eqn:Heq; [done|].
        assert (X ∈ index (cleanup_state env st) c) as HX by (rewrite Heq; left).
        apply Hidx in HX as [HX Hno]. exfalso. apply Hno.
        apply (consistent_index _ _ Hcons) in HX as (s & Hs & Hws). by exists s. }
      unfold index in Hnil.
      destruct (wsToChannels (cleanup_state env st) !! c) as [l|] eqn:Hl; [|done].
      cbn in Hnil. subst l. exfalso.
      by apply (Hne (consistent_nonempty _ _ Hcons) c).
    + by rewrite Hu.
  - intros env' op s c u. apply wsToUser_deleted.
  - intros steps s c u. apply residue_kept_run.
Qed.

Lemma cleanup_leaves_userId_witness :
  let env := demo_env [] [] 0 in
  let st := final (run [(env, Subscribe "a" (demo_sub 1 "u1"));
                        (env, Subscribe "b" (demo_sub 1 "u1"));
                        (env, Subscribe "a" (demo_sub 2 "u2"))]) empty_manager in
  let closing := demo_env [1] [] 0 in
  let st' := final (cleanupInactiveConnections closing) st in
  let later := [(closing, HandleWebSocketClosure 1); (env, Unsubscribe "a" 1);
                (env, Subscribe "b" (demo_sub 2 "u2")); (closing, CleanupInactiveConnections);
                (env, HandleWebSocketClosure 2)] in
  subscribers st' "a" = [demo_sub 2 "u2"]
  ∧ subscribers st' "b" = []
  ∧ wsToChannels st' !! 1 = None
  ∧ wsToUser st' !! 1 = Some "u1"
  ∧ wsToUser (final (run later) st') !! 1 = Some "u1".
Proof.
  intros env st closing st' later.
  destruct (cleanup_leaves_userId closing st) as (Hsubs & _ & _ & _ & Hu & _ & _ & Hkept).
  - apply (bool_decide_unpack (jm_wf (channels st))). by vm_compute.
  - subst st'. split_and!.
    + by rewrite Hsubs.
    + by rewrite Hsubs.
    + by vm_compute.
    + rewrite Hu. by vm_compute.
    + apply (Hkept later _ 1 "u1").
      * apply (bool_decide_unpack _). by vm_compute.
      * by vm_compute.
      * rewrite Hu. by vm_compute.
Defined.

(** ** Keys stay unique in every run *)

Lemma elem_of_jm_set {V} (k : string) (v : V) (m : list (string * V)) e :
  e ∈ jm_set k v m → e = (k, v) ∨ e ∈ m.
Proof.
  induction m as [|[k' v'] m IH]; csimpl.
  - intros ->%list_elem_of_singleton. by left.
  - case_decide.
    + intros [->|?]%elem_of_cons; [by left|]. right. by right.
    + intros [->|?]%elem_of_cons; [right; by left|].
      destruct IH as [->|?]; [done|by left|]. right. by right.
Qed.

Lemma typing_wf_set channelName typingMap st :
  typing_wf st → jm_wf typingMap →
  typing_wf (set_typingUsers (jm_set channelName typingMap) st).
Proof.
  intros [Ho Hi] Hm. split; mgr_simpl; [by apply jm_wf_set|].
  apply Forall_forall. intros e [->|He]%elem_of_jm_set; [done|].
  rewrite Forall_forall in Hi. by apply Hi.
Qed.

Lemma typing_wf_same st st' :
  typingUsers st' = typingUsers st → typing_wf st → typing_wf st'.
Proof. unfold typing_wf. by intros ->. Qed.

Lemma typingUsers_cleanup env st : typingUsers (cleanup_state env st) = typingUsers st.
Proof.
  unfold cleanup_state. generalize (channels st). intros es. revert st.
  induction es as [|e es IH]; intros st; [done|]. cbn [foldl]. by rewrite IH.
Qed.

Lemma typing_wf_closure_channel ws0 userId channelName st :
  typing_wf st → typing_wf (closure_channel_state ws0 userId channelName st).
Proof.
  intros Hwf. unfold closure_channel_state.
  eapply typing_wf_same; [apply typingUsers_unsubscribe|].
  unfold closure_typing. set (st1 := set_onlineUsers _ st).
  assert (typing_wf st1) as Hwf1 by done.
  destruct (jm_get userId (typing st1 channelName)); [|done].
  apply typing_wf_set; [done|]. apply jm_wf_delete. by apply typing_wf_lookup.
Qed.

Lemma typing_wf_exec env op st :
  typing_wf st → typing_wf (final (exec env op) st).
Proof.
  intros Hwf. destruct op as [ch sub|ch c|c|ch u n b|ch ev d ex| |]; cbn [exec].
  - unfold final. rewrite subscribe_result.
    destruct (identity_mismatch env sub); [done|].
    by destruct (decide (duplicate st ch sub)).
  - rewrite unsubscribe_final. eapply typing_wf_same; [apply typingUsers_unsubscribe|done].
  - rewrite handleWebSocketClosure_final. unfold closure_state.
    destruct (closure_guard st c) as [[chs u]|]; [|done].
    eapply typing_wf_same; [done|]. unfold closure_loop_state.
    revert st Hwf. induction chs as [|X chs IH]; intros st Hwf; [done|].
    cbn [foldl]. apply IH. by apply typing_wf_closure_channel.
  - destruct (handleTyping_result env ch u n b st) as (t & Hr & _).
    unfold final. rewrite Hr. cbn [fst snd]. apply typing_wf_set; [done|].
    unfold handleTyping_map.
    destruct b; [apply jm_wf_set|apply jm_wf_delete]; by apply typing_wf_lookup.
  - by rewrite broadcast_final.
  - destruct (typingCleanup_result env st) as (t & Hr & _).
    unfold final. rewrite Hr. by apply typing_wf_sweep.
  - rewrite cleanupInactiveConnections_final.
    eapply typing_wf_same; [apply typingUsers_cleanup|done].
Qed.

Lemma channels_wf_unsubscribe channelName ws0 st :
  jm_wf (channels st) → jm_wf (channels (unsubscribe_state channelName ws0 st)).
Proof.
  intros Hwf. unfold unsubscribe_state.
  destruct (jm_get channelName (channels st)); [|done]. cbn [channels].
  case_bool_decide; [by apply jm_wf_delete|by apply jm_wf_set].
Qed.

Lemma channels_wf_closure_loop ws0 userId chs st :
  jm_wf (channels st) → jm_wf (channels (closure_loop_state ws0 userId chs st)).
Proof.
  unfold closure_loop_state. revert st.
  induction chs as [|X chs IH]; intros st Hwf; [done|].
  cbn [foldl]. apply IH. unfold closure_channel_state.
  apply channels_wf_unsubscribe. unfold closure_typing.
  by destruct (jm_get userId _).
Qed.

Lemma channels_wf_exec env op st :
  jm_wf (channels st) → jm_wf (channels (final (exec env op) st)).
Proof.
  intros Hwf. destruct op as [ch sub|ch c|c|ch u n b|ch ev d ex| |]; cbn [exec].
  - unfold final. rewrite subscribe_result.
    destruct (identity_mismatch env sub); [done|].
    destruct (decide (duplicate st ch sub)); [done|].
    cbv zeta. cbn [fst snd]. unfold subscribe_state. cbn [channels]. by apply jm_wf_set.
  - rewrite unsubscribe_final. by apply channels_wf_unsubscribe.
  - rewrite handleWebSocketClosure_final. unfold closure_state.
    destruct (closure_guard st c) as [[chs u]|]; [|done].
    mgr_simpl. by apply channels_wf_closure_loop.
  - destruct (handleTyping_only_typing env ch u n b st) as (-> & _). done.
  - by rewrite broadcast_final.
  - destruct (typingCleanup_only_typing env st) as (-> & _). done.
  - rewrite cleanupInactiveConnections_final. by apply cleanup_state_wf.
Qed.

(** In every registry that the entry points can reach, the keys of
    [channels], of [typingUsers] and of each typing map are unique. *)
Lemma reachable_wf steps :
  let st := final (run steps) empty_manager in
  jm_wf (channels st) ∧ typing_wf st.
Proof.
  assert (∀ st, jm_wf (channels st) ∧ typing_wf st →
            jm_wf (channels (final (run steps) st)) ∧ typing_wf (final (run steps) st))
    as H.
  { induction steps as [|[env op] steps IH]; intros st [Hc Ht]; [done|].
    rewrite run_cons_final. apply IH.
    split; [by apply channels_wf_exec|by apply typing_wf_exec]. }
  apply H. split; [apply NoDup_nil_2|]. split; [apply NoDup_nil_2|apply Forall_nil_2].
Qed.

(** ** The counters of [broadcast] *)

(** When no [ws.send] throws, the loop of [broadcast] ends with the number
    of frames sent, of subscriptions of the excluded connection, and of
    other subscriptions that are not open. *)
Lemma broadcast_loop_counts env message excludeWs subs stats :
  (∀ sub, sub ∈ subs → deliverable env excludeWs sub →
     send_throws env (ws sub) message = false) →
  (broadcast_loop env message excludeWs subs stats).2
  = Some {|
      messageSent :=
        messageSent stats + length (filter (deliverable env excludeWs) subs);
      excluded :=
        excluded stats + length (filter (λ sub, Some (ws sub) = excludeWs) subs);
      closedConnections :=
        closedConnections stats
        + length (filter (λ sub, Some (ws sub) ≠ excludeWs
                                 ∧ readyState env (ws sub) ≠ OPEN) subs);
    |}.
Proof.
  revert stats. induction subs as [|sub subs IH]; intros stats Hok.
  - cbn. destruct stats. cbn. by rewrite !Nat.add_0_r.
  - assert (∀ s, s ∈ subs → deliverable env excludeWs s →
              send_throws env (ws s) message = false) as Hrest.
    { intros s Hs. apply Hok. by right. }
    cbn [broadcast_loop]. rewrite !filter_cons.
    case_bool_decide as Hex.
    + rewrite IH by done. cbn [messageSent excluded closedConnections].
      rewrite decide_False by (by intros [? _]). rewrite decide_True by done.
      rewrite decide_False by (by intros [? _]). cbn [length]. f_equal. f_equal; lia.
    + case_bool_decide as Hopen.
      * rewrite Hok; [|left|done]. cbn [snd]. rewrite IH by done.
        cbn [messageSent excluded closedConnections].
        rewrite decide_True by done. rewrite decide_False by done.
        rewrite decide_False by (by intros [_ ?]). cbn [length]. f_equal. f_equal; lia.
      * rewrite IH by done. cbn [messageSent excluded closedConnections].
        rewrite decide_False by (by intros [_ ?]). rewrite decide_False by done.
        rewrite decide_True by done. cbn [length]. f_equal. f_equal; lia.
Qed.

(** ** Expiry of a typing entry *)

(** C7. A typing entry inserted by [handleTyping] at time [Date_now env0]
    and then neither refreshed nor stopped, through any number of sweeps:
    as long as no sweep runs with the entry older than [TYPING_TIMEOUT]
    (3000 ms, three periods of the timer) the entry stays and no broadcast
    mentions it; once a sweep has run with the entry older than that (for
    an entry of time 0, the sweep at 4000 ms), the entry is gone from the
    typing map and the sweeps have made exactly one [MEMBER_STOP_TYPING]
    broadcast for it. *)
Theorem typing_expiry env0 envs st0 channelName userId name :
  typing_wf st0 →
  let user := {| typing_userId := userId; username := name;
                 timestamp := Date_now env0 |} in
  let st := final (handleTyping env0 channelName userId name true) st0 in
  let st' := final (run (sweep_steps envs)) st in
  let about := broadcasts_about channelName userId (trace (run (sweep_steps envs)) st) in
  jm_get userId (typing st channelName) = Some user
  ∧ (Exists (λ env, (Date_now env - Date_now env0 > TYPING_TIMEOUT)%Z) envs →
       jm_get userId (typing st' channelName) = None
       ∧ about = [(channelName, MEMBER_STOP_TYPING, sweep_payload userId name)])
  ∧ (Forall (λ env, (Date_now env - Date_now env0 ≤ TYPING_TIMEOUT)%Z) envs →
       jm_get userId (typing st' channelName) = Some user ∧ about = []).
Proof.
  intros Hwf0 user st st' about.
  assert (typing_wf st) as Hwf.
  { apply (typing_wf_exec env0 (HandleTyping channelName userId name true)), Hwf0. }
  assert (jm_get userId (typing st channelName) = Some user) as Hget.
  { subst st. destruct (handleTyping_result env0 channelName userId name true st0)
      as (t & Hr & _).
    unfold final. rewrite Hr. cbn [fst snd]. unfold typing at 1. mgr_simpl.
    rewrite jm_get_set_eq. cbn [default from_option id].
    unfold handleTyping_map. apply jm_get_set_eq. }
  destruct (sweeps_entry envs st channelName userId user Hwf Hget) as [Hstale Hfresh].
  split_and!; [done| |].
  - intros Hex. apply Hstale. eapply Exists_impl; [done|]. by intros env ?.
  - intros Hall. apply Hfresh. eapply Forall_impl; [done|].
    intros env Henv. unfold stale. subst user. cbn [timestamp]. cbv beta in Henv. lia.
Qed.

(** An entry of time 0 under the sweeps of the first four periods of the
    timer, at 1000, 2000, 3000 and 4000 ms. *)
Lemma typing_expiry_witness :
  let tick (n : Z) := demo_env [] [] (n * TYPING_CLEANUP_INTERVAL) in
  let st := final (handleTyping (tick 0%Z) "x" "u1" "Alice" true) empty_manager in
  let user := {| typing_userId := "u1"; username := "Alice"; timestamp := 0 |} in
  let early := [tick 1%Z; tick 2%Z; tick 3%Z] in
  let all := early ++ [tick 4%Z] in
  (jm_get "u1" (typing (final (run (sweep_steps early)) st) "x") = Some user
   ∧ broadcasts_about "x" "u1" (trace (run (sweep_steps early)) st) = [])
  ∧ (jm_get "u1" (typing (final (run (sweep_steps all)) st) "x") = None
     ∧ broadcasts_about "x" "u1" (trace (run (sweep_steps all)) st)
       = [("x", MEMBER_STOP_TYPING, sweep_payload "u1" "Alice")]).
Proof.
  intros tick st user early all.
  assert (typing_wf empty_manager) as Hwf.
  { apply (bool_decide_unpack (typing_wf empty_manager)). by vm_compute. }
  split.
  - destruct (typing_expiry (tick 0%Z) early empty_manager "x" "u1" "Alice" Hwf)
      as (_ & _ & Hfresh).
    apply Hfresh. subst tick early. unfold TYPING_TIMEOUT, TYPING_CLEANUP_INTERVAL.
    repeat apply Forall_cons_2; try apply Forall_nil_2; cbn; lia.
  - destruct (typing_expiry (tick 0%Z) all empty_manager "x" "u1" "Alice" Hwf)
      as (_ & Hstale & _).
    apply Hstale. subst tick all early. unfold TYPING_TIMEOUT, TYPING_CLEANUP_INTERVAL.
    do 3 apply Exists_cons_tl. apply Exists_cons_hd. cbn. lia.
Defined.

(** ** No empty entries in any run *)

Lemma set_add_nonempty {A} `{EqDecision A} (x : A) s : set_add x s ≠ [].
Proof.
  unfold set_add. case_decide as Hin.
  - intros ->. by apply not_elem_of_nil in Hin.
  - by destruct s.
Qed.

Lemma no_empty_entries_unsubscribe channelName ws0 st :
  no_empty_entries st → no_empty_entries (unsubscribe_state channelName ws0 st).
Proof.
  intros [Hc Hi]. unfold unsubscribe_state.
  destruct (jm_get channelName (channels st)) as [channel|] eqn:E; [|done].
  split; cbn [channels wsToChannels].
  - intros X. case_bool_decide as Hlen.
    + destruct (decide (channelName = X)) as [->|Hne].
      * by rewrite jm_get_delete_eq.
      * rewrite jm_get_delete_ne by done. apply Hc.
    + destruct (decide (channelName = X)) as [->|Hne].
      * rewrite jm_get_set_eq. intros [= Heq]. by rewrite Heq in Hlen.
      * rewrite jm_get_set_ne by done. apply Hc.
  - intros c. destruct (wsToChannels st !! ws0) as [l|] eqn:El; [|apply Hi].
    case_bool_decide as Hlen.
    + destruct (decide (c = ws0)) as [->|Hne].
      * by rewrite lookup_delete_eq.
      * rewrite lookup_delete_ne by done. apply Hi.
    + destruct (decide (c = ws0)) as [->|Hne].
      * rewrite lookup_insert_eq. intros [= Heq]. by rewrite Heq in Hlen.
      * rewrite lookup_insert_ne by done. apply Hi.
Qed.

Lemma no_empty_entries_same st st' :
  channels st' = channels st → wsToChannels st' = wsToChannels st →
  no_empty_entries st → no_empty_entries st'.
Proof. unfold no_empty_entries. by intros -> ->. Qed.

Lemma no_empty_entries_closure_loop ws0 userId chs st :
  no_empty_entries st → no_empty_entries (closure_loop_state ws0 userId chs st).
Proof.
  unfold closure_loop_state. revert st.
  induction chs as [|X chs IH]; intros st Hne; [done|].
  cbn [foldl]. apply IH. unfold closure_channel_state.
  apply no_empty_entries_unsubscribe. unfold closure_typing.
  by destruct (jm_get userId _).
Qed.

Lemma no_empty_entries_exec env op st :
  jm_wf (channels st) → no_empty_entries st →
  no_empty_entries (final (exec env op) st).
Proof.
  intros Hwf Hne. destruct op as [ch sub|ch c|c|ch u n b|ch ev d ex| |]; cbn [exec].
  - unfold final. rewrite subscribe_result.
    destruct (identity_mismatch env sub); [done|].
    destruct (decide (duplicate st ch sub)); [done|].
    cbv zeta. cbn [fst snd]. destruct Hne as [Hc Hi].
    split; unfold subscribe_state; cbn [channels wsToChannels].
    + intros X. destruct (decide (ch = X)) as [->|Hx].
      * rewrite jm_get_set_eq. intros [= Heq]. by destruct (subscribers st X).
      * rewrite jm_get_set_ne by done. apply Hc.
    + intros c. destruct (decide (c = ws sub)) as [->|Hx].
      * rewrite lookup_insert_eq. intros [= Heq]. by apply set_add_nonempty in Heq.
      * rewrite lookup_insert_ne by done. apply Hi.
  - rewrite unsubscribe_final. by apply no_empty_entries_unsubscribe.
  - rewrite handleWebSocketClosure_final. unfold closure_state.
    destruct (closure_guard st c) as [[chs u]|]; [|done].
    destruct (no_empty_entries_closure_loop c u chs st Hne) as [Hc Hi].
    split; mgr_simpl; [done|]. intros c'.
    destruct (decide (c' = c)) as [->|Hx].
    + by rewrite lookup_delete_eq.
    + rewrite lookup_delete_ne by done. apply Hi.
  - destruct (handleTyping_only_typing env ch u n b st) as (H1 & H2 & _).
    by eapply no_empty_entries_same.
  - by rewrite broadcast_final.
  - destruct (typingCleanup_only_typing env st) as (H1 & H2 & _).
    by eapply no_empty_entries_same.
  - rewrite cleanupInactiveConnections_final.
    destruct (cleanup_state_views env st Hwf) as (Hc & _ & _ & _ & _ & Hi).
    split; [|apply Hi, Hne]. intros X. rewrite Hc. cbv zeta.
    case_bool_decide as Hlen; [done|]. intros [= Heq]. by rewrite Heq in Hlen.
Qed.

Lemma reachable_no_empty_entries steps :
  no_empty_entries (final (run steps) empty_manager).
Proof.
  assert (∀ st, jm_wf (channels st) → no_empty_entries st →
            no_empty_entries (final (run steps) st)) as H.
  { induction steps as [|[env op] steps IH]; intros st Hwf Hne; [done|].
    rewrite run_cons_final. apply IH.
    - by apply channels_wf_exec.
    - by apply no_empty_entries_exec. }
  apply H; [apply NoDup_nil_2|]. split; [done|]. intros c. cbn. by rewrite lookup_empty.
Qed.

(** ** [getChannelStats] *)

(** X1. In every registry that the entry points can reach from the empty
    one, [getChannelStats] reports each channel that has a subscriber once,
    with the size of its subscriber set, and reports no other channel: no
    channel is listed with zero subscribers.  [totalChannels] is the length
    of the list.  The call leaves the registry as it is and only logs. *)
Theorem getChannelStats_lists_live_channels steps :
  let st := final (run steps) empty_manager in
  let stats := (getChannelStats st).1.1 in
  final getChannelStats st = st
  ∧ trace getChannelStats st = [ELog DEBUG "Channel statistics"]
  ∧ totalChannels stats = length (stats_channels stats)
  ∧ NoDup (stat_name <$> stats_channels stats)
  ∧ (∀ X n, {| stat_name := X; stat_subscribers := n |} ∈ stats_channels stats
            ↔ subscribers st X ≠ [] ∧ n = length (subscribers st X)).
Proof.
  intros st stats.
  destruct (reachable_wf steps) as [Hwf _].
  destruct (reachable_no_empty_entries steps) as [Hne _].
  fold st in Hwf, Hne.
  assert (stats = {| totalChannels := length (channels st);
                     stats_channels :=
                       (λ entry, {| stat_name := entry.1;
                                    stat_subscribers := length entry.2 |})
                         <$> channels st |}) as -> by done.
  cbn [totalChannels stats_channels].
  split_and!; [done|done|by rewrite length_fmap| |].
  - rewrite <- list_fmap_compose. apply Hwf.
  - intros X n. rewrite list_elem_of_fmap. split.
    + intros ([k v] & [= -> ->] & Hin). cbn [fst snd].
      pose proof (jm_elem_get _ _ _ Hwf Hin) as Hget.
      unfold subscribers. rewrite Hget. cbn. split; [|done].
      intros ->. by apply (Hne k).
    + intros [Hsub ->]. unfold subscribers in *.
      destruct (jm_get X (channels st)) as [subs|] eqn:Hget; [|done].
      exists (X, subs). split; [done|]. by apply jm_get_Some_elem.
Qed.

(** ** [unsubscribe]: absent connections, and [subscribe] undone *)

Lemma unsubscribe_loop_absent c l :
  (∀ s, s ∈ l → ws s ≠ c) → unsubscribe_loop c l = (None, l).
Proof.
  induction l as [|s l IH]; intros Hl; [done|]. cbn [unsubscribe_loop].
  rewrite decide_False by (apply Hl; left).
  rewrite IH; [done|]. intros s' Hs'. apply Hl. by right.
Qed.

Lemma unsubscribe_loop_snoc c l sub :
  (∀ s, s ∈ l → ws s ≠ c) → ws sub = c →
  unsubscribe_loop c (l ++ [sub]) = (Some (userId sub), l).
Proof.
  intros Hl Hsub. induction l as [|s l IH]; cbn [app unsubscribe_loop].
  - by rewrite decide_True.
  - rewrite decide_False by (apply Hl; left).
    rewrite IH; [done|]. intros s' Hs'. apply Hl. by right.
Qed.

Lemma jm_delete_absent {V} (k : string) (m : list (string * V)) :
  jm_get k m = None → jm_delete k m = m.
Proof.
  induction m as [|[k' v] m IH]; [done|]. cbn [jm_get jm_delete].
  case_decide; [done|]. intros Hget. by rewrite IH.
Qed.

Lemma index_lookup st c :
  wsToChannels st !! c ≠ Some [] →
  wsToChannels st !! c = if decide (index st c = []) then None else Some (index st c).
Proof.
  unfold index. destruct (wsToChannels st !! c) as [l|]; cbn; [|done].
  intros Hl. case_decide; [by subst|done].
Qed.

Lemma subscribers_lookup st X :
  jm_get X (channels st) ≠ Some [] →
  jm_get X (channels st)
  = if decide (subscribers st X = []) then None else Some (subscribers st X).
Proof.
  unfold subscribers. destruct (jm_get X (channels st)) as [l|]; cbn; [|done].
  intros Hl. case_decide; [by subst|done].
Qed.

Lemma unsubscribe_state_absent uid st channelName c :
  consistent uid st → no_empty_entries st → channelName ∉ index st c →
  unsubscribe_state channelName c st = st.
Proof.
  intros Hcons [Hc Hi] Hnot. unfold unsubscribe_state.
  destruct (jm_get channelName (channels st)) as [channel|] eqn:Hget; [|done].
  assert (subscribers st channelName = channel) as Hsubs.
  { unfold subscribers. by rewrite Hget. }
  assert (∀ s, s ∈ channel → ws s ≠ c) as Habs.
  { intros s Hs Hws. apply Hnot. apply (consistent_index _ _ Hcons).
    exists s. by rewrite Hsubs. }
  rewrite unsubscribe_loop_absent by done. cbn [snd].
  assert (channel ≠ []) as Hne. { intros ->. by apply (Hc channelName). }
  rewrite bool_decide_eq_false_2 by (by destruct channel).
  rewrite jm_set_id by done.
  rewrite (index_lookup st c (Hi c)).
  case_decide as Hidx.
  - by destruct st.
  - rewrite set_delete_notin by done.
    rewrite bool_decide_eq_false_2 by (by destruct (index st c)).
    rewrite insert_id; [by destruct st|].
    rewrite (index_lookup st c (Hi c)). by rewrite decide_False.
Qed.

Lemma reachable_invariants uid steps :
  Forall (respects uid) steps →
  let st := final (run steps) empty_manager in
  consistent uid st ∧ no_empty_entries st.
Proof.
  intros Hsteps st. split.
  - apply consistent_run; [done|apply consistent_empty].
  - apply reachable_no_empty_entries.
Qed.

(** X2. In a run in which each connection subscribes under a single
    userId, [unsubscribe] for a connection that holds no subscription in
    the channel (the channel may not exist at all) leaves the registry as
    it is and makes no broadcast. *)
Theorem unsubscribe_absent uid steps channelName c :
  Forall (respects uid) steps →
  let st := final (run steps) empty_manager in
  channelName ∉ index st c →
  final (unsubscribe channelName c) st = st
  ∧ sends (trace (unsubscribe channelName c) st) = []
  ∧ broadcasts (trace (unsubscribe channelName c) st) = [].
Proof.
  intros Hsteps st Hnot.
  destruct (reachable_invariants uid steps Hsteps) as [Hcons Hne]. fold st in Hcons, Hne.
  rewrite unsubscribe_final. split_and!.
  - by eapply unsubscribe_state_absent.
  - rewrite unsubscribe_trace. destruct (jm_get channelName (channels st)); [|done].
    destruct (from_option truthy false _), (bool_decide _); done.
  - apply unsubscribe_broadcasts.
Qed.

Lemma unsubscribe_absent_witness :
  let env := demo_env [] [] 0 in
  let st := final (run [(env, Subscribe "a" (demo_sub 1 "u1"));
                        (env, Subscribe "b" (demo_sub 2 "u2"))]) empty_manager in
  final (unsubscribe "b" 1) st = st ∧ final (unsubscribe "zz" 1) st = st.
Proof.
  intros env st.
  assert (Forall (respects (λ c, "u" +:+ pretty c))
            [(env, Subscribe "a" (demo_sub 1 "u1"));
             (env, Subscribe "b" (demo_sub 2 "u2"))]) as Hsteps.
  { repeat constructor. }
  split.
  - apply (unsubscribe_absent _ _ "b" 1 Hsteps). apply (bool_decide_unpack _). by vm_compute.
  - apply (unsubscribe_absent _ _ "zz" 1 Hsteps). apply (bool_decide_unpack _). by vm_compute.
Defined.

(** X3. In a run in which each connection subscribes under a single
    userId, [unsubscribe] is idempotent: a second call for the same channel
    and connection leaves the registry as the first call left it, and
    makes no broadcast. *)
Theorem unsubscribe_idempotent uid steps channelName c :
  Forall (respects uid) steps →
  let st := final (run steps) empty_manager in
  let st1 := final (unsubscribe channelName c) st in
  final (unsubscribe channelName c) st1 = st1
  ∧ broadcasts (trace (unsubscribe channelName c) st1) = [].
Proof.
  intros Hsteps st st1.
  destruct (reachable_invariants uid steps Hsteps) as [Hcons Hne]. fold st in Hcons, Hne.
  split; [|apply unsubscribe_broadcasts].
  subst st1. rewrite !unsubscribe_final.
  eapply unsubscribe_state_absent.
  - by apply consistent_unsubscribe.
  - by apply no_empty_entries_unsubscribe.
  - rewrite index_unsubscribe. case_decide as Hd.
    + rewrite elem_of_set_delete. by intros [? _].
    + intros Hin. apply (consistent_index _ _ Hcons) in Hin as (s & Hs & _).
      apply Hd. split; [done|]. unfold subscribers in Hs.
      destruct (jm_get channelName (channels st)); [eauto|].
      by apply not_elem_of_nil in Hs.
Qed.

Lemma unsubscribe_idempotent_witness :
  let env := demo_env [] [] 0 in
  let st := final (run [(env, Subscribe "a" (demo_sub 1 "u1"));
                        (env, Subscribe "a" (demo_sub 2 "u2"))]) empty_manager in
  let st1 := final (unsubscribe "a" 1) st in
  subscribers st1 "a" = [demo_sub 2 "u2"]
  ∧ final (unsubscribe "a" 1) st1 = st1.
Proof.
  intros env st st1. split; [by vm_compute|].
  refine (proj1 (unsubscribe_idempotent (λ c, "u" +:+ pretty c) _ "a" 1 _)).
  repeat constructor.
Defined.

(** X4. [subscribe] undone by [unsubscribe].  In a run in which each
    connection subscribes under a single userId, when a connection that
    holds no subscription in a channel subscribes to it and is then
    unsubscribed from it, the channel map, the connection-to-channels
    index and the typing maps are back as they were; the connection's
    userId mapping is as it was when the connection has other
    subscriptions, and is deleted otherwise; but the userId stays in the
    presence set of the channel, since [unsubscribe] does not touch it. *)
Theorem subscribe_unsubscribe uid steps env channelName subscription :
  Forall (respects uid) steps →
  let st := final (run steps) empty_manager in
  let c := ws subscription in
  identity_mismatch env subscription = false →
  userId subscription = uid c →
  channelName ∉ index st c →
  let st2 := final (unsubscribe channelName c)
               (final (subscribe env channelName subscription) st) in
  channels st2 = channels st
  ∧ wsToChannels st2 = wsToChannels st
  ∧ typingUsers st2 = typingUsers st
  ∧ wsToUser st2
    = (if decide (index st c = []) then delete c (wsToUser st) else wsToUser st)
  ∧ onlineUsers st2
    = <[channelName := set_add (userId subscription) (presence st channelName)]>
        (onlineUsers st).
Proof.
  intros Hsteps st c Hid Huid Hnot st2.
  destruct (reachable_invariants uid steps Hsteps) as [Hcons [Hc Hi]].
  fold st in Hcons, Hc, Hi.
  assert (∀ s, s ∈ subscribers st channelName → ws s ≠ c) as Habs.
  { intros s Hs Hws. apply Hnot. apply (consistent_index _ _ Hcons). by exists s. }
  assert (¬ duplicate st channelName subscription) as Hdup.
  { intros (s & Hs & Hws & _). by apply (Habs s). }
  subst st2. rewrite (subscribe_final_new env) by done. rewrite unsubscribe_final.
  unfold unsubscribe_state, subscribe_state.
  cbn [channels wsToChannels typingUsers wsToUser onlineUsers].
  rewrite jm_get_set_eq. rewrite unsubscribe_loop_snoc by done. cbn [snd].
  fold c. rewrite lookup_insert_eq.
  assert (set_delete channelName (set_add channelName (index st c)) = index st c) as ->.
  { unfold set_add. rewrite decide_False by done. unfold set_delete.
    rewrite filter_app, filter_cons, decide_False by (by intros ?).
    rewrite filter_nil, app_nil_r. by apply set_delete_notin. }
  split_and!; cbn [channels wsToChannels typingUsers wsToUser onlineUsers];
    [| | done | | done].
  - case_bool_decide as Hlen.
    + rewrite jm_delete_set. apply jm_delete_absent.
      rewrite (subscribers_lookup st channelName (Hc channelName)).
      rewrite decide_True; [done|]. by apply nil_length_inv.
    + rewrite jm_set_set. apply jm_set_id.
      rewrite (subscribers_lookup st channelName (Hc channelName)).
      rewrite decide_False; [done|]. intros Heq. by rewrite Heq in Hlen.
  - pose proof (index_lookup st c (Hi c)) as Hl.
    case_bool_decide as Hlen.
    + rewrite decide_True in Hl by (by apply nil_length_inv).
      by apply delete_insert_id.
    + rewrite decide_False in Hl by (intros Heq; by rewrite Heq in Hlen).
      rewrite insert_insert_eq. by apply insert_id.
  - case_bool_decide as Hlen.
    + rewrite decide_True by (by apply nil_length_inv).
      by rewrite delete_insert_eq.
    + assert (index st c ≠ []) as Hidx by (intros Heq; by rewrite Heq in Hlen).
      rewrite decide_False by done. apply insert_id.
      rewrite Huid. by apply (consistent_user _ _ Hcons).
Qed.

Lemma subscribe_unsubscribe_witness :
  let env := demo_env [] [] 0 in
  let st := final (run [(env, Subscribe "a" (demo_sub 1 "u1"));
                        (env, Subscribe "a" (demo_sub 2 "u2"))]) empty_manager in
  let st2 := final (unsubscribe "b" 1) (final (subscribe env "b" (demo_sub 1 "u1")) st) in
  channels st2 = channels st
  ∧ wsToChannels st2 = wsToChannels st
  ∧ wsToUser st2 = wsToUser st
  ∧ presence st "b" = [] ∧ presence st2 "b" = ["u1"].
Proof.
  intros env st st2.
  assert (Forall (respects (λ c, "u" +:+ pretty c))
            [(env, Subscribe "a" (demo_sub 1 "u1"));
             (env, Subscribe "a" (demo_sub 2 "u2"))]) as Hsteps.
  { repeat constructor. }
  destruct (subscribe_unsubscribe _ _ env "b" (demo_sub 1 "u1") Hsteps)
    as (H1 & H2 & _ & H4 & H5).
  - done.
  - done.
  - apply (bool_decide_unpack _). by vm_compute.
  - split_and!; [exact H1|exact H2|exact H4|done|by vm_compute].
Defined.

(** ** Subscribed users are shown online *)

Lemma presence_covers_shrink st st' :
  (∀ X, subscribers st' X ⊆ subscribers st X) → onlineUsers st' = onlineUsers st →
  presence_covers st → presence_covers st'.
Proof.
  intros Hsub Ho H X s Hs. unfold presence. rewrite Ho. apply H. by apply Hsub.
Qed.

Lemma presence_covers_closure_channel uid ws0 channelName st :
  Inj (=) (=) uid → consistent uid st → presence_covers st →
  presence_covers (closure_channel_state ws0 (uid ws0) channelName st).
Proof.
  intros Hinj Hcons H X s.
  rewrite presence_closure_channel, subscribers_closure_channel.
  case_decide as HX; [subst X|apply H].
  intros Hs. apply elem_of_unsubscribe_loop in Hs as [Hs Hws];
    [|apply (consistent_once _ _ Hcons)].
  apply elem_of_set_delete. split; [|by apply H].
  rewrite (consistent_userId _ _ Hcons _ _ Hs). intros Heq. by apply Hws, Hinj.
Qed.

Lemma presence_covers_closure uid ws0 st :
  Inj (=) (=) uid → consistent uid st → presence_covers st →
  presence_covers (closure_state ws0 st).
Proof.
  intros Hinj Hcons H. unfold closure_state.
  destruct (closure_guard st ws0) as [[chs u]|] eqn:Hg; [|done].
  rewrite (closure_guard_userId uid st ws0 chs u Hcons Hg).
  eapply presence_covers_shrink; [intros X; reflexivity|done|].
  clear Hg. revert st Hcons H.
  induction chs as [|channelName chs IH]; intros st Hcons H; [done|].
  cbn [closure_loop_state foldl]. apply IH.
  - by apply consistent_closure_channel.
  - by apply presence_covers_closure_channel.
Qed.

Lemma presence_covers_exec uid env op st :
  Inj (=) (=) uid → consistent uid st → presence_covers st →
  presence_covers (final (exec env op) st).
Proof.
  intros Hinj Hcons H.
  destruct op as [ch sub|ch c|c|ch u n b|ch ev d ex| |]; cbn [exec].
  - unfold final. rewrite subscribe_result.
    destruct (identity_mismatch env sub); [done|].
    destruct (decide (duplicate st ch sub)); [done|].
    cbv zeta. cbn [fst snd]. intros X s.
    rewrite presence_subscribe, subscribers_subscribe.
    case_decide as HX; [subst X|apply H].
    rewrite elem_of_set_add.
    intros [Hs| ->%list_elem_of_singleton]%elem_of_app; [right; by apply H|by left].
  - rewrite unsubscribe_final. eapply presence_covers_shrink; [|apply onlineUsers_unsubscribe|done].
    intros X. rewrite subscribers_unsubscribe. case_decide as HX; [subst X|done].
    intros s Hs. eapply elem_of_sublist; [done|]. apply unsubscribe_loop_sublist.
  - rewrite handleWebSocketClosure_final. by eapply presence_covers_closure.
  - destruct (handleTyping_only_typing env ch u n b st) as (Hc & _ & _ & Ho).
    eapply presence_covers_shrink; [|done..]. intros X. unfold subscribers. by rewrite Hc.
  - by rewrite broadcast_final.
  - destruct (typingCleanup_only_typing env st) as (Hc & _ & _ & Ho).
    eapply presence_covers_shrink; [|done..]. intros X. unfold subscribers. by rewrite Hc.
  - rewrite cleanupInactiveConnections_final.
    destruct (cleanup_state_views env st (consistent_wf _ _ Hcons))
      as (_ & _ & _ & Ho & _).
    eapply presence_covers_shrink; [|done..]. intros X.
    rewrite subscribers_cleanup by apply (consistent_wf _ _ Hcons).
    intros s. rewrite list_elem_of_filter. by intros [_ ?].
Qed.

(** X5. In a run of any of the entry points (stand-alone [unsubscribe]
    and the cleanup of closed connections included) in which each
    connection subscribes under a single userId and no two connections
    share a userId, whoever holds a subscription in a channel is in the
    presence set of the channel. *)
Theorem subscribed_is_online uid steps :
  Inj (=) (=) uid →
  Forall (respects uid) steps →
  let st := final (run steps) empty_manager in
  ∀ X s, s ∈ subscribers st X → userId s ∈ presence st X.
Proof.
  intros Hinj Hsteps.
  assert (∀ st, consistent uid st → presence_covers st →
            presence_covers (final (run steps) st)) as Hrun.
  { induction Hsteps as [|[env op] steps Hop _ IH]; intros st Hcons H; [done|].
    rewrite run_cons_final. apply IH.
    - by apply consistent_exec.
    - by apply presence_covers_exec with uid. }
  apply Hrun; [apply consistent_empty|]. intros X s Hs. by apply not_elem_of_nil in Hs.
Qed.

Lemma subscribed_is_online_witness :
  let env := with_user (λ c, Some (demo_token (pretty c))) (demo_env [] [] 0) in
  let st := final (run [(env, Subscribe "a" (demo_sub 1 "1"));
                        (env, Subscribe "a" (demo_sub 2 "2"));
                        (env, Subscribe "b" (demo_sub 2 "2"));
                        (env, Unsubscribe "b" 2);
                        (demo_env [1] [] 0, CleanupInactiveConnections)]) empty_manager in
  subscribers st "a" = [demo_sub 2 "2"] ∧ ("2" ∈ presence st "a").
Proof.
  intros env st.
  assert (subscribers st "a" = [demo_sub 2 "2"]) as Hsubs by (by vm_compute).
  split; [done|].
  apply (subscribed_is_online pretty _ pretty_nat_inj) with (s := demo_sub 2 "2").
  - repeat constructor.
  - change (demo_sub 2 "2" ∈ subscribers st "a"). rewrite Hsubs. by left.
Defined.

(** ** One subscription per connection, under the userId of the index *)

(** X6. In a run in which each connection subscribes under a single
    userId, a channel holds at most one subscription of each connection,
    and the connection-to-userId map gives, for the connection of every
    subscription, the userId of that subscription. *)
Theorem subscriptions_unique_and_mapped uid steps :
  Forall (respects uid) steps →
  let st := final (run steps) empty_manager in
  ∀ X, NoDup (ws <$> subscribers st X)
       ∧ ∀ s, s ∈ subscribers st X → wsToUser st !! ws s = Some (userId s).
Proof.
  intros Hsteps st X.
  assert (consistent uid st) as Hcons.
  { apply consistent_run; [done|apply consistent_empty]. }
  split; [apply (consistent_once _ _ Hcons)|].
  intros s Hs. rewrite (consistent_userId _ _ Hcons _ _ Hs).
  apply (consistent_user _ _ Hcons).
  assert (X ∈ index st (ws s)) as Hin.
  { apply (consistent_index _ _ Hcons). by exists s. }
  intros Heq. rewrite Heq in Hin. by apply not_elem_of_nil in Hin.
Qed.

Lemma subscriptions_unique_and_mapped_witness :
  let env := with_user (λ c, Some (demo_token (pretty c))) (demo_env [] [] 0) in
  let st := final (run [(env, Subscribe "a" (demo_sub 1 "1"));
                        (env, Subscribe "a" (demo_sub 1 "7"));
                        (env, Subscribe "a" (demo_sub 2 "2"));
                        (env, Subscribe "a" (demo_sub 1 "1"))]) empty_manager in
  subscribers st "a" = [demo_sub 1 "1"; demo_sub 2 "2"]
  ∧ NoDup (ws <$> subscribers st "a")
  ∧ wsToUser st !! 1 = Some "1".
Proof.
  intros env st.
  assert (Forall (respects pretty)
            [(env, Subscribe "a" (demo_sub 1 "1"));
             (env, Subscribe "a" (demo_sub 1 "7"));
             (env, Subscribe "a" (demo_sub 2 "2"));
             (env, Subscribe "a" (demo_sub 1 "1"))]) as Hsteps.
  { repeat constructor; by vm_compute. }
  assert (subscribers st "a" = [demo_sub 1 "1"; demo_sub 2 "2"]) as Hsubs
    by (by vm_compute).
  destruct (subscriptions_unique_and_mapped pretty _ Hsteps "a") as [Hnd Hmap].
  split_and!; [done|exact Hnd|].
  apply (Hmap (demo_sub 1 "1")).
  change (demo_sub 1 "1" ∈ subscribers st "a"). rewrite Hsubs. by left.
Defined.

(** ** [subscribe]: who hears the announcement *)

Lemma filter_deliverable_None env (l : list ChannelSubscription) :
  filter (deliverable env None) l = filter (λ sub, readyState env (ws sub) = OPEN) l.
Proof.
  apply list_filter_iff. intros sub. unfold deliverable.
  split; [by intros [_ ?]|by intros ?].
Qed.

Lemma sends_cons e t : sends (e :: t) = sends [e] ++ sends t.
Proof. by destruct e. Qed.

Lemma broadcast_sends env channelName event data excludeWs st :
  let message := JSON_stringify env (frame_payload event data) in
  (∀ sub, sub ∈ subscribers st channelName → deliverable env excludeWs sub →
     send_throws env (ws sub) message = false) →
  sends (trace (broadcast env channelName event data excludeWs) st)
  = (λ sub, (ws sub, message))
      <$> filter (deliverable env excludeWs) (subscribers st channelName).
Proof.
  intros message Hok. unfold subscribers in *.
  destruct (jm_get channelName (channels st)) as [channel|] eqn:Hget.
  - rewrite (broadcast_trace_existing _ _ _ _ _ _ _ Hget). cbv zeta.
    destruct (broadcast_loop_delivers env message excludeWs channel
                {| messageSent := 0; excluded := 0; closedConnections := 0 |} Hok)
      as [Hev [stats Hst]].
    fold message. rewrite Hev, Hst.
    rewrite (sends_cons (EBroadcast _ _ _ _)), (sends_cons (EStringify _)).
    rewrite sends_app, sends_ESend. cbn [default]. apply app_nil_r.
  - by rewrite broadcast_trace_missing.
Qed.

(** X7. A [subscribe] that adds a subscription puts it last in the
    subscriber set and the userId in the presence set, and then announces
    it: when no [ws.send] throws, every open subscriber of the channel, the
    new one included, is sent one and the same frame, the
    [MEMBER_STATUS_UPDATE] whose [onlineUsers] is the presence set as it is
    after the update; nobody else is sent anything. *)
Theorem subscribe_announces env st channelName subscription :
  identity_mismatch env subscription = false →
  ¬ duplicate st channelName subscription →
  let st' := final (subscribe env channelName subscription) st in
  let message :=
    JSON_stringify env
      (frame_payload MEMBER_STATUS_UPDATE
         (status_payload (userId subscription) true (presence st' channelName))) in
  (∀ sub, sub ∈ subscribers st' channelName → readyState env (ws sub) = OPEN →
     send_throws env (ws sub) message = false) →
  subscribers st' channelName = subscribers st channelName ++ [subscription]
  ∧ userId subscription ∈ presence st' channelName
  ∧ sends (trace (subscribe env channelName subscription) st)
    = (λ sub, (ws sub, message))
        <$> filter (λ sub, readyState env (ws sub) = OPEN) (subscribers st' channelName).
Proof.
  intros Hid Hdup st' message Hok.
  assert (st' = subscribe_state channelName subscription st) as Hst'.
  { by apply subscribe_final_new. }
  split_and!.
  - rewrite Hst', subscribers_subscribe. by rewrite decide_True.
  - rewrite Hst', presence_subscribe, decide_True by done.
    apply elem_of_set_add. by left.
  - unfold trace. rewrite subscribe_result, Hid.
    rewrite decide_False by done. cbv zeta. cbn [snd]. rewrite <- Hst'.
    rewrite sends_app. cbn [sends omap]. rewrite app_nil_r.
    rewrite broadcast_sends.
    + by rewrite filter_deliverable_None.
    + intros sub Hsub [_ Hopen]. by apply Hok.
Qed.

Lemma subscribe_announces_witness :
  let env := demo_env [2] [] 0 in
  let st := final (run [(env, Subscribe "x" (demo_sub 1 "u1"));
                        (env, Subscribe "x" (demo_sub 2 "u2"))]) empty_manager in
  sends (trace (subscribe env "x" (demo_sub 3 "u3")) st)
  = [(1, "{event:MEMBER_STATUS_UPDATE;data:{userId:u3;isOnline:true;onlineUsers:[u1;u2;u3;];};}");
     (3, "{event:MEMBER_STATUS_UPDATE;data:{userId:u3;isOnline:true;onlineUsers:[u1;u2;u3;];};}")].
Proof.
  intros env st.
  destruct (subscribe_announces env st "x" (demo_sub 3 "u3")) as (_ & _ & Hsends).
  - done.
  - apply (bool_decide_unpack _). by vm_compute.
  - intros sub _ _. by vm_compute.
  - rewrite Hsends. by vm_compute.
Defined.

(** ** The sweep as a whole *)

Lemma filter_ext_in {A} (P Q : A → Prop) `{!∀ x, Decision (P x)} `{!∀ x, Decision (Q x)}
    (l : list A) :
  (∀ x, x ∈ l → P x ↔ Q x) → filter P l = filter Q l.
Proof.
  induction l as [|x l IH]; intros Hl; [done|].
  rewrite !filter_cons. rewrite IH by (intros y Hy; apply Hl; by right).
  destruct (decide (P x)) as [HP|HP].
  - rewrite decide_True; [done|]. apply Hl; [left|done].
  - rewrite decide_False; [done|]. intros HQ. apply HP, Hl; [left|done].
Qed.

Lemma filter_all {A} (P : A → Prop) `{!∀ x, Decision (P x)} (l : list A) :
  (∀ x, x ∈ l → P x) → filter P l = l.
Proof.
  induction l as [|x l IH]; intros Hl; [done|].
  rewrite filter_cons, decide_True by (apply Hl; left).
  rewrite IH; [done|]. intros y Hy. apply Hl. by right.
Qed.

Lemma jm_delete_filter {V} (k : string) (m : list (string * V)) :
  jm_delete k m = filter (λ e, e.1 ≠ k) m.
Proof.
  induction m as [|[k' v] m IH]; [done|]. cbn [jm_delete]. rewrite filter_cons. cbn [fst].
  case_decide as Hk.
  - by rewrite decide_False by (by intros ?).
  - rewrite decide_True by done. by rewrite IH.
Qed.

Lemma sweep_map_filter_keys now l m :
  sweep_map now l m
  = filter (λ e, ¬ Exists (λ e', e'.1 = e.1 ∧ stale now e'.2) l) m.
Proof.
  revert m. induction l as [|e' l IH]; intros m.
  - cbn. symmetry. apply filter_all. intros x _ Hex. by apply Exists_nil in Hex.
  - rewrite sweep_map_cons, IH. case_decide as Hs.
    + rewrite jm_delete_filter, list_filter_filter. apply list_filter_iff.
      intros x. rewrite Exists_cons. split.
      * intros [Hx Hne] [[Heq _]|Hex]; [by apply Hne|by apply Hx].
      * intros Hx. split; [intros Hex; apply Hx; by right|].
        intros Heq. apply Hx. left. by split.
    + apply list_filter_iff. intros x. rewrite Exists_cons. split.
      * intros Hx [[_ ?]|Hex]; [done|by apply Hx].
      * intros Hx Hex. apply Hx. by right.
Qed.

Lemma sweep_map_filter now m :
  jm_wf m → sweep_map now m m = filter (λ e, ¬ stale now e.2) m.
Proof.
  intros Hwf. rewrite sweep_map_filter_keys. apply filter_ext_in.
  intros [u user] Hin. cbn [fst snd]. split.
  - intros Hex Hs. apply Hex. apply Exists_exists. by exists (u, user).
  - intros Hs ([u' user'] & Hin' & Hu & Hs')%Exists_exists. cbn [fst snd] in *. subst u'.
    apply (jm_elem_get _ _ _ Hwf) in Hin, Hin'. congruence.
Qed.

Lemma typingUsers_sweep now st X :
  jm_wf (typingUsers st) →
  jm_get X (typingUsers (sweep_state now st))
  = (let m := sweep_map now (typing st X) (typing st X) in
     if bool_decide (length m = 0) then None else Some m).
Proof.
  intros Hwf. unfold sweep_state.
  rewrite (sweep_fold now (typingUsers st) st Hwf).
  - case_decide as Hin; [done|].
    rewrite elem_of_jm_keys in Hin. apply eq_None_not_Some in Hin.
    unfold typing. by rewrite Hin.
  - intros k v Hin. by apply jm_elem_get.
Qed.

Lemma sweep_user_fixed now channelName m st :
  Forall (λ e, ¬ stale now e.2) m →
  foldl (λ s e, sweep_user_state now channelName e s) st m = st.
Proof.
  induction 1 as [|e m He _ IH]; [done|]. cbn [foldl].
  unfold sweep_user_state at 2. by rewrite decide_False.
Qed.

Lemma sweep_fixed now es st :
  (∀ k m, (k, m) ∈ es → Forall (λ e, ¬ stale now e.2) m ∧ typing st k ≠ []) →
  foldl (λ s entry, sweep_channel_state now entry s) st es = st.
Proof.
  induction es as [|[k m] es IH]; intros Hes; [done|]. cbn [foldl].
  destruct (Hes k m) as [Hm Hk]; [left|].
  assert (sweep_channel_state now (k, m) st = st) as ->.
  { unfold sweep_channel_state. cbn [fst snd]. rewrite sweep_user_fixed by done.
    rewrite bool_decide_eq_false_2; [done|]. by destruct (typing st k). }
  apply IH. intros k' m' Hin. apply Hes. by right.
Qed.

Lemma sweep_broadcasts_none now es :
  (∀ k m, (k, m) ∈ es → Forall (λ e, ¬ stale now e.2) m) →
  sweep_broadcasts now es = [].
Proof.
  unfold sweep_broadcasts. induction es as [|[k m] es IH]; intros Hes; [done|].
  cbn [mbind list_bind]. rewrite IH by (intros k' m' Hin; eapply Hes; by right).
  unfold sweep_channel_broadcasts. cbn [fst snd].
  rewrite filter_none; [done|]. intros e He Hs.
  specialize (Hes k m). rewrite Forall_forall in Hes. apply (Hes ltac:(left) e He Hs).
Qed.

(** X8. One sweep of the typing maps, at clock reading [now]: afterwards
    the typing map of every channel holds exactly the entries that are not
    older than [TYPING_TIMEOUT], in their order, and no channel is left
    with an empty typing map; the sweep broadcasts a [MEMBER_STOP_TYPING]
    with payload [{userId, username}] for a user and a channel exactly when
    it evicts the entry of that user in that channel; and it touches
    nothing but the typing maps. *)
Theorem sweep_evicts_stale env st :
  typing_wf st →
  let now := Date_now env in
  let st' := final (typingCleanup env) st in
  let t := trace (typingCleanup env) st in
  (∀ X, typing st' X = filter (λ e, ¬ stale now e.2) (typing st X))
  ∧ (∀ X, jm_get X (typingUsers st') ≠ Some [])
  ∧ (∀ b, b ∈ broadcasts t ↔
       ∃ X u user, jm_get u (typing st X) = Some user ∧ stale now user
                   ∧ b = (X, MEMBER_STOP_TYPING, sweep_payload u (username user)))
  ∧ only_typing st st'.
Proof.
  intros Hwf now st' t. pose proof Hwf as [Ho Hi].
  destruct (typingCleanup_result env st) as (t0 & Hr & Hb).
  assert (st' = sweep_state now st) as Hst'.
  { subst st'. unfold final. by rewrite Hr. }
  assert (broadcasts t = sweep_broadcasts now (typingUsers st)) as Ht.
  { subst t. unfold trace. by rewrite Hr. }
  split_and!.
  - intros X. rewrite Hst', typing_sweep by done.
    apply sweep_map_filter. by apply typing_wf_lookup.
  - intros X. rewrite Hst', typingUsers_sweep by done. cbv zeta.
    case_bool_decide as Hlen; [done|]. intros [= Heq]. by rewrite Heq in Hlen.
  - intros b. rewrite Ht. unfold sweep_broadcasts. rewrite list_elem_of_bind. split.
    + intros ([X m] & Hb' & Hin). unfold sweep_channel_broadcasts in Hb'.
      cbn [fst snd] in Hb'.
      apply list_elem_of_fmap in Hb' as ([u user] & -> & [Hs He]%list_elem_of_filter).
      cbn [fst snd] in *. exists X, u, user. split_and!; [|done|done].
      apply (jm_elem_get _ _ _ Ho) in Hin. unfold typing. rewrite Hin. cbn.
      apply jm_elem_get; [|done]. rewrite Forall_forall in Hi.
      apply (Hi (X, m)). by apply jm_get_Some_elem.
    + intros (X & u & user & Hget & Hs & ->). unfold typing in Hget.
      destruct (jm_get X (typingUsers st)) as [m|] eqn:Hm; [|done]. cbn in Hget.
      exists (X, m). split; [|by apply jm_get_Some_elem].
      unfold sweep_channel_broadcasts. cbn [fst snd].
      apply list_elem_of_fmap. exists (u, user). split; [done|].
      apply list_elem_of_filter. split; [done|]. by apply jm_get_Some_elem.
  - apply typingCleanup_only_typing.
Qed.

Lemma sweep_evicts_stale_witness :
  let st := final (run [(demo_env [] [] 0, HandleTyping "a" "u1" "Alice" true);
                        (demo_env [] [] 2000, HandleTyping "a" "u2" "Bob" true);
                        (demo_env [] [] 2000, HandleTyping "b" "u1" "Alice" false)])
              empty_manager in
  let env := demo_env [] [] 3001 in
  typing (final (typingCleanup env) st) "a"
    = [("u2", {| typing_userId := "u2"; username := "Bob"; timestamp := 2000 |})]
  ∧ typingUsers (final (typingCleanup env) st)
    = [("a", [("u2", {| typing_userId := "u2"; username := "Bob"; timestamp := 2000 |})])]
  ∧ (("a", MEMBER_STOP_TYPING, sweep_payload "u1" "Alice")
       ∈ broadcasts (trace (typingCleanup env) st)).
Proof.
  intros st env.
  assert (typing_wf st) as Hwf.
  { apply (bool_decide_unpack (typing_wf st)). by vm_compute. }
  destruct (sweep_evicts_stale env st Hwf) as (Htyping & _ & Hb & _).
  split_and!.
  - rewrite Htyping. by vm_compute.
  - by vm_compute.
  - apply Hb. exists "a", "u1",
      {| typing_userId := "u1"; username := "Alice"; timestamp := 0 |}.
    split_and!; [by vm_compute| |done]. unfold stale, TYPING_TIMEOUT. cbn. lia.
Defined.

(** X9. A sweep that follows another one without the clock having moved
    forward is a no-op: it leaves the registry as the first sweep left it
    and makes no broadcast. *)
Theorem sweep_settles env1 env2 st :
  typing_wf st →
  (Date_now env2 ≤ Date_now env1)%Z →
  let st1 := final (typingCleanup env1) st in
  final (typingCleanup env2) st1 = st1
  ∧ broadcasts (trace (typingCleanup env2) st1) = [].
Proof.
  intros Hwf Hclock st1. pose proof Hwf as [Ho Hi].
  destruct (typingCleanup_result env1 st) as (t1 & Hr1 & _).
  assert (st1 = sweep_state (Date_now env1) st) as Hst1.
  { subst st1. unfold final. by rewrite Hr1. }
  assert (typing_wf st1) as Hwf1. { rewrite Hst1. by apply typing_wf_sweep. }
  assert (∀ k m, (k, m) ∈ typingUsers st1 →
            Forall (λ e, ¬ stale (Date_now env2) e.2) m ∧ typing st1 k ≠ []) as Hentries.
  { intros k m Hin. apply (jm_elem_get _ _ _ (proj1 Hwf1)) in Hin.
    assert (typing st1 k = m) as Htk. { unfold typing. by rewrite Hin. }
    rewrite Htk. rewrite Hst1, typingUsers_sweep in Hin by done. cbv zeta in Hin.
    case_bool_decide as Hlen; [done|]. injection Hin as Hm. split.
    - rewrite <- Hm, sweep_map_filter by (by apply typing_wf_lookup).
      apply Forall_forall. intros e [He _]%list_elem_of_filter.
      unfold stale in *. lia.
    - intros Hnil. rewrite Hm, Hnil in Hlen. by apply Hlen. }
  destruct (typingCleanup_result env2 st1) as (t2 & Hr2 & Hb2).
  unfold final, trace. rewrite Hr2. cbn [fst snd]. split.
  - unfold sweep_state. by apply sweep_fixed.
  - rewrite Hb2. apply sweep_broadcasts_none. intros k m Hin. by apply (Hentries k m).
Qed.

Lemma sweep_settles_witness :
  let st := final (run [(demo_env [] [] 0, HandleTyping "a" "u1" "Alice" true);
                        (demo_env [] [] 2000, HandleTyping "a" "u2" "Bob" true)])
              empty_manager in
  let env := demo_env [] [] 3001 in
  let st1 := final (typingCleanup env) st in
  final (typingCleanup env) st1 = st1
  ∧ broadcasts (trace (typingCleanup env) st1) = [].
Proof.
  intros st env st1. apply (sweep_settles env env st).
  - apply (bool_decide_unpack (typing_wf st)). by vm_compute.
  - done.
Defined.

(** ** [handleTyping]: start and stop *)

Lemma typing_set st channelName m X :
  typing (set_typingUsers (jm_set channelName m) st) X
  = if decide (X = channelName) then m else typing st X.
Proof.
  unfold typing. mgr_simpl. case_decide as HX.
  - subst X. by rewrite jm_get_set_eq.
  - by rewrite jm_get_set_ne.
Qed.

(** X10. A start-typing signal followed by a stop-typing signal of the
    same user in the same channel: after the first call the user's entry
    carries the clock reading of the call, after the second the user has
    no entry, and the entries of every other user and channel are as they
    were before the two calls.  The [MEMBER_TYPING] broadcast lists the
    typing users of the channel as they are after the insertion, the
    [MEMBER_STOP_TYPING] broadcast those that remain after the deletion.
    Neither call touches anything but the typing maps. *)
Theorem handleTyping_start_stop env1 env2 st channelName userId name1 name2 :
  let st1 := final (handleTyping env1 channelName userId name1 true) st in
  let st2 := final (handleTyping env2 channelName userId name2 false) st1 in
  jm_get userId (typing st1 channelName)
    = Some {| typing_userId := userId; username := name1; timestamp := Date_now env1 |}
  ∧ jm_get userId (typing st2 channelName) = None
  ∧ (∀ X u, ¬ (X = channelName ∧ u = userId) →
       jm_get u (typing st2 X) = jm_get u (typing st X))
  ∧ broadcasts (trace (handleTyping env1 channelName userId name1 true) st)
    = [(channelName, MEMBER_TYPING,
        JObj [("typingUsers",
               JArr (TypingUser_json <$> jm_values (typing st1 channelName)))])]
  ∧ broadcasts (trace (handleTyping env2 channelName userId name2 false) st1)
    = [(channelName, MEMBER_STOP_TYPING,
        stop_typing_payload userId name2 (typing st2 channelName))]
  ∧ only_typing st st2.
Proof.
  intros st1 st2.
  destruct (handleTyping_result env1 channelName userId name1 true st) as (t1 & Hr1 & Hb1).
  destruct (handleTyping_result env2 channelName userId name2 false st1) as (t2 & Hr2 & Hb2).
  assert (st1 = set_typingUsers
            (jm_set channelName
               (handleTyping_map env1 userId name1 true (typing st channelName))) st)
    as Hst1.
  { subst st1. unfold final. by rewrite Hr1. }
  assert (st2 = set_typingUsers
            (jm_set channelName
               (handleTyping_map env2 userId name2 false (typing st1 channelName))) st1)
    as Hst2.
  { subst st2. unfold final. by rewrite Hr2. }
  assert (∀ X, typing st1 X
               = if decide (X = channelName)
                 then handleTyping_map env1 userId name1 true (typing st channelName)
                 else typing st X) as Ht1.
  { intros X. rewrite Hst1 at 1. apply typing_set. }
  assert (∀ X, typing st2 X
               = if decide (X = channelName)
                 then handleTyping_map env2 userId name2 false (typing st1 channelName)
                 else typing st1 X) as Ht2.
  { intros X. rewrite Hst2 at 1. apply typing_set. }
  unfold handleTyping_map in Ht1, Ht2.
  split_and!.
  - rewrite Ht1, decide_True by done. apply jm_get_set_eq.
  - rewrite Ht2, decide_True by done. apply jm_get_delete_eq.
  - intros X u Hne. rewrite Ht2. case_decide as HX.
    + subst X. assert (u ≠ userId) as Hu by (intros ->; by apply Hne).
      rewrite jm_get_delete_ne by done. rewrite Ht1, decide_True by done.
      by rewrite jm_get_set_ne.
    + by rewrite Ht1, decide_False.
  - unfold trace. rewrite Hr1. cbn [snd]. rewrite Hb1. unfold handleTyping_broadcast.
    by rewrite Ht1, decide_True.
  - unfold trace. rewrite Hr2. cbn [snd]. rewrite Hb2. unfold handleTyping_broadcast.
    by rewrite Ht2, decide_True.
  - eapply only_typing_trans; apply handleTyping_only_typing.
Qed.

(** ** The cleanup of closed connections, as a whole *)

Lemma only_logs_app t1 t2 : only_logs t1 → only_logs t2 → only_logs (t1 ++ t2).
Proof. apply Forall_app_2. Qed.

Lemma only_logs_log level message : only_logs [ELog level message].
Proof. apply Forall_singleton. eauto. Qed.

Lemma only_logs_silent t :
  only_logs t → sends t = [] ∧ broadcasts t = [] ∧ stringify_calls t = [].
Proof.
  induction 1 as [|e t (level & message & ->) _ IH]; [done|].
  destruct IH as (Hs & Hb & Hj). split_and!; [exact Hs|exact Hb|exact Hj].
Qed.

Lemma forEach_trace {A} (P : list Event → Prop) (l : list A) (body : A → M unit) st :
  P [] → (∀ t1 t2, P t1 → P t2 → P (t1 ++ t2)) →
  (∀ x s, x ∈ l → P (trace (body x) s)) → P (trace (forEach l body) st).
Proof.
  intros Hnil Happ. revert st.
  induction l as [|x l IH]; intros st Hbody; [done|].
  cbn [forEach]. rewrite trace_bind. apply Happ; [apply Hbody; left|].
  apply IH. intros y s Hy. apply Hbody. by right.
Qed.

Lemma cleanup_channel_logs env entry st : only_logs (trace (cleanup_channel env entry) st).
Proof.
  destruct entry as [channelName subs]. unfold cleanup_channel, trace.
  cbv zeta. rewrite (bind_result _ _ _ _ _ _ (cleanup_loop_result _ _ _ _)).
  msteps. cbn [fst snd]. case_bool_decide.
  - msteps. apply only_logs_log.
  - destruct (bool_decide _); [apply only_logs_log|apply Forall_nil_2].
Qed.

Lemma cleanupInactiveConnections_logs env st :
  only_logs (trace (cleanupInactiveConnections env) st).
Proof.
  unfold cleanupInactiveConnections. rewrite trace_bind.
  apply only_logs_app; [apply only_logs_log|].
  rewrite trace_bind. apply only_logs_app; [apply Forall_nil_2|].
  rewrite trace_bind. apply only_logs_app; [|apply only_logs_log].
  apply forEach_trace; [apply Forall_nil_2|apply only_logs_app|].
  intros x s _. apply cleanup_channel_logs.
Qed.

Lemma onlineUsers_cleanup env st : onlineUsers (cleanup_state env st) = onlineUsers st.
Proof.
  unfold cleanup_state. generalize (channels st). intros es. revert st.
  induction es as [|e es IH]; intros st; [done|]. cbn [foldl]. by rewrite IH.
Qed.

Lemma cleanup_index_open env channelName subs m :
  Forall (λ sub, readyState env (ws sub) = OPEN) subs →
  cleanup_index env channelName subs m = m.
Proof.
  induction 1 as [|sub subs Hopen _ IH]; [done|].
  rewrite cleanup_index_cons, bool_decide_eq_false_2 by (by intros ?). apply IH.
Qed.

Lemma cleanup_fixed env es st :
  (∀ k v, (k, v) ∈ es →
     jm_get k (channels st) = Some v ∧ v ≠ []
     ∧ Forall (λ sub, readyState env (ws sub) = OPEN) v) →
  foldl (λ s entry, cleanup_channel_state env entry s) st es = st.
Proof.
  induction es as [|[k v] es IH]; intros Hes; [done|]. cbn [foldl].
  destruct (Hes k v) as (Hget & Hne & Hopen); [left|].
  assert (cleanup_channel_state env (k, v) st = st) as ->.
  { unfold cleanup_channel_state. cbn [fst snd].
    rewrite filter_all by (by apply Forall_forall).
    rewrite bool_decide_eq_false_2 by (by destruct v).
    unfold set_channels, set_wsToChannels. cbn [channels wsToChannels typingUsers
      wsToUser onlineUsers].
    rewrite jm_set_id by done. rewrite cleanup_index_open by done. by destruct st. }
  apply IH. intros k' v' Hin. apply Hes. by right.
Qed.

(** X11. [cleanupInactiveConnections] works in silence: it broadcasts
    nothing and sends nothing (it only logs), and it leaves the presence
    sets and the typing maps as they are, also for the users whose
    subscriptions it removes. *)
Theorem cleanup_is_silent env st :
  let t := trace (cleanupInactiveConnections env) st in
  let st' := final (cleanupInactiveConnections env) st in
  only_logs t
  ∧ sends t = [] ∧ broadcasts t = []
  ∧ onlineUsers st' = onlineUsers st
  ∧ typingUsers st' = typingUsers st.
Proof.
  intros t st'. pose proof (cleanupInactiveConnections_logs env st) as Hlogs.
  destruct (only_logs_silent _ Hlogs) as (Hs & Hb & _).
  subst st'. rewrite cleanupInactiveConnections_final.
  split_and!; [done|done|done|apply onlineUsers_cleanup|apply typingUsers_cleanup].
Qed.

(** X12. [cleanupInactiveConnections] is idempotent: run again with the
    same connections open, it leaves the registry as the first run left
    it. *)
Theorem cleanup_idempotent env env' st :
  jm_wf (channels st) →
  (∀ c, readyState env' c = OPEN ↔ readyState env c = OPEN) →
  let st1 := final (cleanupInactiveConnections env) st in
  final (cleanupInactiveConnections env') st1 = st1.
Proof.
  intros Hwf Henv st1. subst st1. rewrite !cleanupInactiveConnections_final.
  destruct (cleanup_state_views env st Hwf) as (Hc & _).
  pose proof (cleanup_state_wf env st Hwf) as Hwf1.
  unfold cleanup_state at 1. apply cleanup_fixed. intros k v Hin.
  apply (jm_elem_get _ _ _ Hwf1) in Hin. split; [done|].
  rewrite Hc in Hin. cbv zeta in Hin. case_bool_decide as Hlen; [done|].
  injection Hin as <-. split.
  - intros Hnil. by rewrite Hnil in Hlen.
  - apply Forall_forall. intros sub [Hopen _]%list_elem_of_filter. by apply Henv.
Qed.

Lemma cleanup_idempotent_witness :
  let env := demo_env [] [] 0 in
  let st := final (run [(env, Subscribe "a" (demo_sub 1 "u1"));
                        (env, Subscribe "a" (demo_sub 2 "u2"));
                        (env, Subscribe "b" (demo_sub 1 "u1"))]) empty_manager in
  let closing := demo_env [1] [] 0 in
  let st1 := final (cleanupInactiveConnections closing) st in
  subscribers st1 "a" = [demo_sub 2 "u2"]
  ∧ final (cleanupInactiveConnections closing) st1 = st1.
Proof.
  intros env st closing st1. split; [by vm_compute|].
  apply (cleanup_idempotent closing closing st); [|done].
  apply (bool_decide_unpack _). by vm_compute.
Defined.

(** X13. Teardown after eviction.  In a run in which each connection
    subscribes under a single userId, once [cleanupInactiveConnections]
    has run while a connection was not open, [handleWebSocketClosure] for
    that connection does nothing at all: it makes no presence-offline
    broadcast, and the presence sets, which the cleanup did not touch, keep
    the userId of the connection. *)
Theorem closure_after_cleanup uid steps env env' c :
  Forall (respects uid) steps →
  let st := final (run steps) empty_manager in
  readyState env c ≠ OPEN →
  let st' := final (cleanupInactiveConnections env) st in
  handleWebSocketClosure env' c st' = (tt, st', [])
  ∧ (∀ X, presence st' X = presence st X)
  ∧ (∀ X s, s ∈ subscribers st' X → ws s ≠ c).
Proof.
  intros Hsteps st Hclosed st'.
  assert (consistent uid st) as Hcons.
  { apply consistent_run; [done|apply consistent_empty]. }
  pose proof (consistent_wf _ _ Hcons) as Hwf.
  assert (st' = cleanup_state env st) as Hst'.
  { subst st'. apply cleanupInactiveConnections_final. }
  destruct (cleanup_state_views env st Hwf) as (_ & Hidx & _ & Ho & _ & Hne).
  rewrite <- Hst' in Hidx, Ho, Hne.
  assert (wsToChannels st' !! c = None) as Hnone.
  { destruct (wsToChannels st' !! c) as [l|] eqn:Hl; [|done].
    destruct l as [|X l]. { by apply (Hne (consistent_nonempty _ _ Hcons) c) in Hl. }
    assert (X ∈ index st' c) as Hin. { unfold index. rewrite Hl. left. }
    apply Hidx in Hin as [Hin Hno]. destruct Hno.
    apply (consistent_index _ _ Hcons) in Hin as (s & Hs & Hws). by exists s. }
  split_and!.
  - apply handleWebSocketClosure_noop. unfold closure_guard. by rewrite Hnone.
  - intros X. unfold presence. by rewrite Ho.
  - intros X s. rewrite Hst', subscribers_cleanup by done.
    intros [Hopen _]%list_elem_of_filter Hws. apply Hclosed. by rewrite <- Hws.
Qed.

Lemma closure_after_cleanup_witness :
  let env := demo_env [] [] 0 in
  let steps := [(env, Subscribe "a" (demo_sub 1 "u1"));
                (env, Subscribe "a" (demo_sub 2 "u2"))] in
  let st' := final (cleanupInactiveConnections (demo_env [1] [] 0))
               (final (run steps) empty_manager) in
  handleWebSocketClosure (demo_env [1] [] 0) 1 st' = (tt, st', [])
  ∧ presence st' "a" = ["u1"; "u2"]
  ∧ subscribers st' "a" = [demo_sub 2 "u2"].
Proof.
  intros env steps st'.
  assert (Forall (respects (λ c, "u" +:+ pretty c)) steps) as Hsteps.
  { repeat constructor. }
  destruct (closure_after_cleanup _ _ (demo_env [1] [] 0) (demo_env [1] [] 0) 1 Hsteps)
    as (Hnoop & _ & _); [done|].
  split_and!; [exact Hnoop|by vm_compute|by vm_compute].
Defined.

(** ** [handleWebSocketClosure]: what the teardown of one connection leaves alone *)

Lemma unsubscribe_loop_filter c l :
  NoDup (ws <$> l) → (unsubscribe_loop c l).2 = filter (λ s, ws s ≠ c) l.
Proof.
  induction l as [|s l IH]; [done|]. csimpl. intros [Hs Hl]%NoDup_cons.
  rewrite filter_cons. case_decide as Hc; csimpl.
  - rewrite decide_False by (by intros ?). symmetry. apply filter_all.
    intros s' Hs' Heq. apply Hs. rewrite Hc, <- Heq. by apply list_elem_of_fmap_2.
  - rewrite decide_True by done. by rewrite IH.
Qed.

Lemma filter_filter_same {A} (P : A → Prop) `{!∀ x, Decision (P x)} (l : list A) :
  filter P (filter P l) = filter P l.
Proof. apply filter_all. by intros x [? _]%list_elem_of_filter. Qed.

Lemma typing_closure_channel ws0 userId channelName st X u :
  jm_get u (typing (closure_channel_state ws0 userId channelName st) X)
  = if decide (X = channelName ∧ u = userId) then None else jm_get u (typing st X).
Proof.
  destruct (decide (X = channelName)) as [->|HX].
  - unfold closure_channel_state, typing at 1. rewrite typingUsers_unsubscribe.
    unfold closure_typing.
    assert (∀ f, typing (set_onlineUsers f st) channelName = typing st channelName) as ->
      by done.
    destruct (jm_get userId (typing st channelName)) as [user|] eqn:Hget.
    + mgr_simpl. rewrite jm_get_set_eq. cbn [default from_option id].
      case_decide as Hd.
      * destruct Hd as [_ ->]. apply jm_get_delete_eq.
      * apply jm_get_delete_ne. intros <-. by apply Hd.
    + mgr_simpl. fold (typing st channelName). case_decide as Hd; [|done].
      by destruct Hd as [_ ->].
  - rewrite typing_closure_channel_ne by done.
    rewrite decide_False; [done|]. by intros [? _].
Qed.

Lemma closure_loop_views uid c chs st :
  consistent uid st →
  let st' := closure_loop_state c (uid c) chs st in
  (∀ X, subscribers st' X
        = if decide (X ∈ chs) then filter (λ s, ws s ≠ c) (subscribers st X)
          else subscribers st X)
  ∧ (∀ c', c' ≠ c → index st' c' = index st c' ∧ wsToUser st' !! c' = wsToUser st !! c')
  ∧ (∀ X, presence st' X
          = if decide (X ∈ chs) then set_delete (uid c) (presence st X)
            else presence st X)
  ∧ (∀ X u, jm_get u (typing st' X)
            = if decide (X ∈ chs ∧ u = uid c) then None else jm_get u (typing st X)).
Proof.
  revert st. induction chs as [|X0 chs IH]; intros st Hcons st'.
  - subst st'. cbn [closure_loop_state foldl]. split_and!.
    + intros X. rewrite decide_False; [done|]. apply not_elem_of_nil.
    + done.
    + intros X. rewrite decide_False; [done|]. apply not_elem_of_nil.
    + intros X u. rewrite decide_False; [done|]. intros [Hin _]. by apply not_elem_of_nil in Hin.
  - set (st1 := closure_channel_state c (uid c) X0 st).
    assert (consistent uid st1) as Hcons1 by (by apply consistent_closure_channel).
    destruct (IH st1 Hcons1) as (Hs & Hi & Hp & Ht).
    assert (st' = closure_loop_state c (uid c) chs st1) as -> by done.
    split_and!.
    + intros X. rewrite Hs. subst st1. rewrite subscribers_closure_channel.
      rewrite unsubscribe_loop_filter by apply (consistent_once _ _ Hcons).
      destruct (decide (X = X0)) as [->|HX].
      * rewrite (decide_True (P := X0 ∈ X0 :: chs)) by left.
        case_decide; [apply filter_filter_same|done].
      * destruct (decide (X ∈ chs)) as [Hin|Hin].
        -- by rewrite decide_True by (by right).
        -- rewrite decide_False; [done|]. by intros [?|?]%elem_of_cons.
    + intros c' Hc'. destruct (Hi c' Hc') as [-> ->]. subst st1.
      unfold closure_channel_state. rewrite index_unsubscribe, wsToUser_unsubscribe.
      rewrite !decide_False by (by intros [? _]).
      unfold closure_typing. by destruct (jm_get (uid c) _).
    + intros X. rewrite Hp. subst st1. rewrite presence_closure_channel.
      destruct (decide (X = X0)) as [->|HX].
      * rewrite (decide_True (P := X0 ∈ X0 :: chs)) by left.
        case_decide; [apply filter_filter_same|done].
      * destruct (decide (X ∈ chs)) as [Hin|Hin].
        -- by rewrite decide_True by (by right).
        -- rewrite decide_False; [done|]. by intros [?|?]%elem_of_cons.
    + intros X u. rewrite Ht. subst st1. rewrite typing_closure_channel.
      repeat case_decide; try done; exfalso;
        repeat match goal with H : context [_ ∈ _ :: _] |- _ => rewrite elem_of_cons in H end;
        intuition congruence.
Qed.

Lemma closure_state_views uid st c :
  consistent uid st →
  uid c ≠ EmptyString →
  let st' := closure_state c st in
  (∀ X, subscribers st' X = filter (λ s, ws s ≠ c) (subscribers st X))
  ∧ (∀ c', c' ≠ c → index st' c' = index st c' ∧ wsToUser st' !! c' = wsToUser st !! c')
  ∧ (∀ X, presence st' X
          = if decide (X ∈ index st c) then set_delete (uid c) (presence st X)
            else presence st X)
  ∧ (∀ X u, jm_get u (typing st' X)
            = if decide (X ∈ index st c ∧ u = uid c) then None
              else jm_get u (typing st X)).
Proof.
  intros Hcons Huid st'. subst st'.
  assert (∀ X, X ∉ index st c →
            filter (λ s, ws s ≠ c) (subscribers st X) = subscribers st X) as Hout.
  { intros X HX. apply filter_all. intros s Hs Hws. apply HX.
    apply (consistent_index _ _ Hcons). by exists s. }
  unfold closure_state.
  destruct (decide (index st c = [])) as [Hidx|Hidx].
  - assert (closure_guard st c = None) as ->.
    { unfold closure_guard.
      destruct (wsToChannels st !! c) as [l|] eqn:Hl; [|done].
      unfold index in Hidx. rewrite Hl in Hidx. cbn in Hidx. subst l.
      by apply (consistent_nonempty _ _ Hcons) in Hl. }
    rewrite Hidx. split_and!.
    + intros X. rewrite Hout; [done|]. rewrite Hidx. apply not_elem_of_nil.
    + done.
    + intros X. rewrite decide_False; [done|]. apply not_elem_of_nil.
    + intros X u. rewrite decide_False; [done|]. intros [Hin _].
      by apply not_elem_of_nil in Hin.
  - rewrite (closure_guard_consistent uid st c Hcons Hidx Huid).
    destruct (closure_loop_views uid c (index st c) st Hcons) as (Hs & Hi & Hp & Ht).
    split_and!.
    + intros X. unfold subscribers at 1. mgr_simpl.
      fold (subscribers (closure_loop_state c (uid c) (index st c) st) X).
      rewrite Hs. case_decide; [done|]. by rewrite Hout.
    + intros c' Hc'. destruct (Hi c' Hc') as [<- <-].
      unfold index. mgr_simpl. by rewrite !lookup_delete_ne.
    + intros X. rewrite <- Hp. done.
    + intros X u. rewrite <- Ht. done.
Qed.

(** X14. The teardown of one connection, seen from the rest of the
    registry.  On a registry in which each connection subscribes under a
    single userId, [handleWebSocketClosure] for a connection with a
    non-empty userId removes from every subscriber set the subscription of
    that connection and nothing else, keeping the order of the others;
    leaves the index entry and the userId mapping of every other
    connection as they are; removes the userId from the presence sets of
    the channels the connection was subscribed to, and from no other; and
    removes, among the typing entries, only those of that userId in those
    channels. *)
Theorem closure_frame uid env st c :
  consistent uid st →
  uid c ≠ EmptyString →
  let st' := final (handleWebSocketClosure env c) st in
  (∀ X, subscribers st' X = filter (λ s, ws s ≠ c) (subscribers st X))
  ∧ (∀ c', c' ≠ c → index st' c' = index st c' ∧ wsToUser st' !! c' = wsToUser st !! c')
  ∧ (∀ X, presence st' X
          = if decide (X ∈ index st c) then set_delete (uid c) (presence st X)
            else presence st X)
  ∧ (∀ X u, jm_get u (typing st' X)
            = if decide (X ∈ index st c ∧ u = uid c) then None
              else jm_get u (typing st X)).
Proof.
  intros Hcons Huid st'. subst st'. rewrite handleWebSocketClosure_final.
  by apply closure_state_views.
Qed.

Lemma closure_frame_witness :
  let env := with_user (λ c, Some (demo_token (pretty c))) (demo_env [] [] 0) in
  let st := final (run [(env, Subscribe "a" (demo_sub 1 "1"));
                        (env, Subscribe "a" (demo_sub 2 "2"));
                        (env, Subscribe "a" (demo_sub 3 "3"));
                        (env, Subscribe "b" (demo_sub 2 "2"))]) empty_manager in
  let st' := final (handleWebSocketClosure env 2) st in
  subscribers st' "a" = [demo_sub 1 "1"; demo_sub 3 "3"]
  ∧ index st' 1 = ["a"] ∧ wsToUser st' !! 3 = Some "3"
  ∧ presence st' "a" = ["1"; "3"].
Proof.
  intros env st st'.
  assert (consistent pretty st) as Hcons.
  { apply consistent_run; [|apply consistent_empty]. repeat constructor. }
  destruct (closure_frame pretty env st 2 Hcons) as (Hs & Hi & Hp & _); [done|].
  split_and!.
  - etrans; [apply (Hs "a")|by vm_compute].
  - etrans; [apply (Hi 1); done|by vm_compute].
  - etrans; [apply (Hi 3); done|by vm_compute].
  - etrans; [apply (Hp "a")|by vm_compute].
Defined.

(** ** [broadcast]: channels without subscribers, and the counters *)

(** X15. In every registry that the entry points can reach from the
    empty one, a channel without subscribers has no entry in [channels];
    so a [broadcast] to it serializes nothing and sends nothing: it logs
    its warning and returns, with the registry as it was. *)
Theorem broadcast_without_subscribers steps env channelName event data excludeWs :
  let st := final (run steps) empty_manager in
  subscribers st channelName = [] →
  broadcast env channelName event data excludeWs st
  = (tt, st, [EBroadcast channelName event data excludeWs;
              ELog WARN "Attempted to broadcast to non-existent channel"]).
Proof.
  intros st Hsubs.
  destruct (reachable_no_empty_entries steps) as [Hne _]. fold st in Hne.
  assert (jm_get channelName (channels st) = None) as Hget.
  { rewrite (subscribers_lookup st channelName (Hne channelName)).
    by rewrite decide_True. }
  rewrite broadcast_result. f_equal. by apply broadcast_trace_missing.
Qed.

Lemma broadcast_without_subscribers_witness :
  let env := demo_env [] [] 0 in
  let st := final (run [(env, Subscribe "a" (demo_sub 1 "u1"));
                        (env, Unsubscribe "a" 1)]) empty_manager in
  sends (trace (broadcast env "a" NEW_MESSAGE JNull None) st) = []
  ∧ stringify_calls (trace (broadcast env "a" NEW_MESSAGE JNull None) st) = [].
Proof.
  intros env st.
  assert (broadcast env "a" NEW_MESSAGE JNull None st
          = (tt, st, [EBroadcast "a" NEW_MESSAGE JNull None;
                      ELog WARN "Attempted to broadcast to non-existent channel"])) as Hb.
  { apply (broadcast_without_subscribers
             [(env, Subscribe "a" (demo_sub 1 "u1")); (env, Unsubscribe "a" 1)]).
    by vm_compute. }
  unfold trace. by rewrite Hb.
Defined.

Lemma broadcast_partition env excludeWs (subs : list ChannelSubscription) :
  length (filter (deliverable env excludeWs) subs)
  + length (filter (λ sub, Some (ws sub) = excludeWs) subs)
  + length (filter (λ sub, Some (ws sub) ≠ excludeWs
                           ∧ readyState env (ws sub) ≠ OPEN) subs)
  = length subs.
Proof.
  induction subs as [|sub subs IH]; [done|]. rewrite !filter_cons.
  destruct (decide (Some (ws sub) = excludeWs)) as [Hex|Hex].
  - rewrite (decide_False (P := deliverable _ _ _)) by (by intros [? _]).
    rewrite (decide_False (P := _ ∧ _)) by (by intros [? _]). cbn [length]. lia.
  - destruct (decide (readyState env (ws sub) = OPEN)) as [Hopen|Hopen].
    + rewrite (decide_True (P := deliverable _ _ _)) by done.
      rewrite (decide_False (P := _ ∧ _)) by (by intros [_ ?]). cbn [length]. lia.
    + rewrite (decide_False (P := deliverable _ _ _)) by (by intros [_ ?]).
      rewrite (decide_True (P := _ ∧ _)) by done. cbn [length]. lia.
Qed.

(** X16. The counters of [broadcast].  When no [ws.send] throws, the loop
    over the subscriber set ends normally; [messageSent] is the number of
    frames it sent, and [messageSent], [excluded] and [closedConnections]
    add up to the size of the subscriber set: every subscription is counted
    once. *)
Theorem broadcast_counters env message excludeWs subs :
  (∀ sub, sub ∈ subs → deliverable env excludeWs sub →
     send_throws env (ws sub) message = false) →
  let r := broadcast_loop env message excludeWs subs
             {| messageSent := 0; excluded := 0; closedConnections := 0 |} in
  ∃ stats, r.2 = Some stats
    ∧ messageSent stats = length (sends r.1)
    ∧ messageSent stats + excluded stats + closedConnections stats = length subs.
Proof.
  intros Hok r. subst r.
  rewrite (broadcast_loop_counts _ _ _ _ _ Hok).
  destruct (broadcast_loop_delivers env message excludeWs subs
              {| messageSent := 0; excluded := 0; closedConnections := 0 |} Hok)
    as [-> _].
  eexists. split; [done|]. cbn [messageSent excluded closedConnections].
  split.
  - by rewrite sends_ESend, !length_fmap.
  - rewrite !Nat.add_0_l. apply broadcast_partition.
Qed.

Lemma broadcast_counters_witness :
  let env := demo_env [3] [] 0 in
  let subs := [demo_sub 1 "u1"; demo_sub 2 "u2"; demo_sub 3 "u3"; demo_sub 4 "u4"] in
  (broadcast_loop env "frame" (Some 2) subs
     {| messageSent := 0; excluded := 0; closedConnections := 0 |}).2
  = Some {| messageSent := 2; excluded := 1; closedConnections := 1 |}.
Proof.
  intros env subs.
  destruct (broadcast_counters env "frame" (Some 2) subs) as (stats & Hr & _).
  - intros sub _ _. done.
  - rewrite Hr. by vm_compute in Hr.
Defined.

(** ** The event types on the wire *)

Lemma WSEventType_of_value e :
  WSEventType_of (Some (JStr (WSEventType_value e))) = Some e.
Proof. by destruct e. Qed.

(** X17. The strings of [enum WSEventType] are pairwise different, and
    the check [Object.values(WSEventType).includes(type)] of the broadcast
    endpoint accepts exactly these strings: the value of each member is
    accepted as that member, and whatever is accepted as a member is its
    value. *)
Theorem WSEventType_round_trip :
  (∀ e, WSEventType_of (Some (JStr (WSEventType_value e))) = Some e)
  ∧ (∀ type e, WSEventType_of type = Some e → type = Some (JStr (WSEventType_value e)))
  ∧ Inj (=) (=) WSEventType_value.
Proof.
  pose proof WSEventType_of_value as Hof.
  split_and!; [done| |].
  - intros type e Hsome. destruct type as [[| | |s| |]|]; try done.
    unfold WSEventType_of in Hsome. apply fmap_Some in Hsome as ([i e'] & Hfind & ->).
    apply list_find_Some in Hfind as (_ & <- & _). done.
  - intros e1 e2 Heq. pose proof (Hof e1) as H1. rewrite Heq, Hof in H1. by injection H1.
Qed.

(** ** [broadcastHandler] *)

Lemma broadcastHandler_cases env req_body st :
  ∃ response t,
    broadcastHandler env req_body st = (response, st, t)
    ∧ ((res_status response = 500 ∧ (req_body = None ∨ req_body = Some JNull)
        ∧ only_logs t)
       ∨ (res_status response = 400 ∧ req_body ≠ None ∧ req_body ≠ Some JNull
          ∧ only_logs t)
       ∨ (res_status response = 200 ∧ req_body ≠ None ∧ req_body ≠ Some JNull))
    ∧ ∀ env' st', (broadcastHandler env' req_body st').1.1 = response.
Proof.
  assert (∀ t1 t2, only_logs t1 → only_logs t2 → only_logs (t1 ++ t2)) as Happ
    by apply only_logs_app.
  destruct req_body as [body|]; [|].
  2:{ eexists _, _. split; [reflexivity|]. split; [|done].
      left. split_and!; [done|by left|]. apply only_logs_log. }
  assert (body = JNull ∨ body ≠ JNull) as [->|Hnull].
  { destruct body; (by left) || (by right). }
  { eexists _, _. split; [reflexivity|]. split; [|done].
    left. split_and!; [done|by right|]. apply only_logs_log. }
  assert (∀ env st,
    broadcastHandler env (Some body) st
    = (let type := json_field "type" body in
       let channelName := json_field "channelName" body in
       let message := json_field "message" body in
       bind (logger DEBUG "Received broadcast request") (λ _,
         match WSEventType_of type with
         | None =>
             logger WARN "Invalid event type" ;;
             ret {| res_status := 400;
                    res_body :=
                      JObj [("error",
                             JStr ("Invalid event type. Must be one of: "
                                   +:+ String.concat ", "
                                         (WSEventType_value <$> WSEventType_values)))] |}
         | Some event =>
             let missing :=
               negb (js_truthy type) || negb (js_truthy channelName)
               || negb (js_truthy message) in
             match missing, message with
             | false, Some data =>
                 logger INFO "Broadcasting message" ;;
                 match channelName with
                 | Some (JStr channelName) => broadcast env channelName event data None
                 | _ => logger WARN "Attempted to broadcast to non-existent channel"
                 end ;;
                 logger DEBUG "Broadcast completed" ;;
                 ret {| res_status := 200; res_body := JObj [("success", JBool true)] |}
             | _, _ =>
                 logger WARN "Invalid broadcast request" ;;
                 ret {| res_status := 400;
                        res_body :=
                          JObj [("error",
                                 JStr "Missing required fields: type, channelName, or message")] |}
             end
         end) st)) as Hbody.
  { intros env0 st0. by destruct body. }
  assert (Some body ≠ Some JNull) as Hnull' by congruence.
  destruct (WSEventType_of (json_field "type" body)) as [event|] eqn:Hev.
  2:{ eexists _, _. split; [rewrite Hbody; cbv zeta; rewrite Hev; reflexivity|].
      split.
      - right. left. split_and!; [done..|].
        apply (Happ [_] [_]); apply only_logs_log.
      - intros env' st'. rewrite Hbody. cbv zeta. by rewrite Hev. }
  destruct (negb (js_truthy (json_field "type" body))
            || negb (js_truthy (json_field "channelName" body))
            || negb (js_truthy (json_field "message" body))) eqn:Hmissing.
  { eexists _, _. split; [rewrite Hbody; cbv zeta; rewrite Hev, Hmissing; reflexivity|].
    split.
    - right. left. split_and!; [done..|].
      apply (Happ [_] [_]); apply only_logs_log.
    - intros env' st'. rewrite Hbody. cbv zeta. by rewrite Hev, Hmissing. }
  destruct (json_field "message" body) as [data|] eqn:Hmsg.
  2:{ rewrite !orb_false_iff in Hmissing. by destruct Hmissing as [_ ?]. }
  assert (∀ env st, ∃ t,
    (match json_field "channelName" body with
     | Some (JStr channelName) => broadcast env channelName event data None
     | _ => logger WARN "Attempted to broadcast to non-existent channel"
     end) st = (tt, st, t)) as Hcall.
  { intros env0 st0. destruct (json_field "channelName" body) as [[| | |name| |]|];
      try (by eexists). eexists. apply broadcast_result. }
  destruct (Hcall env st) as [t Ht].
  eexists _, _. split.
  { rewrite Hbody. cbv zeta. rewrite Hev, Hmissing. msteps.
    rewrite (bind_result _ _ _ _ _ _ Ht). msteps. reflexivity. }
  split; [right; right; by split_and!|].
  intros env' st'. destruct (Hcall env' st') as [t' Ht'].
  rewrite Hbody. cbv zeta. rewrite Hev, Hmissing. msteps.
  rewrite (bind_result _ _ _ _ _ _ Ht'). by msteps.
Qed.

(** X18. What [broadcastHandler] answers depends on the request body
    alone: neither the registry nor the platform (a channel that does not
    exist, connections that are closed, a [ws.send] that throws) changes
    the answer.  The answer is 500 exactly for a body that is [undefined]
    or [null], and otherwise 400 or 200.  The handler never changes the
    registry, and a request that is not answered with 200 reaches nobody:
    the handler only logs. *)
Theorem broadcastHandler_answer env env' st st' req_body :
  let r := broadcastHandler env req_body st in
  r.1.2 = st
  ∧ (broadcastHandler env' req_body st').1.1 = r.1.1
  ∧ (res_status r.1.1 = 500 ↔ req_body = None ∨ req_body = Some JNull)
  ∧ (res_status r.1.1 = 500 ∨ res_status r.1.1 = 400 ∨ res_status r.1.1 = 200)
  ∧ (res_status r.1.1 ≠ 200 →
       only_logs r.2 ∧ sends r.2 = [] ∧ broadcasts r.2 = []).
Proof.
  intros r. subst r.
  destruct (broadcastHandler_cases env req_body st) as (response & t & -> & Hcases & Hsame).
  cbn [fst snd]. split_and!; [done|apply Hsame| | |].
  - destruct Hcases as [(-> & ? & _)|[(-> & ? & ? & _)|(-> & ? & ?)]];
      split; try done; by intros [?|?].
  - destruct Hcases as [(-> & _)|[(-> & _)|(-> & _)]]; auto.
  - intros Hne. assert (only_logs t) as Hlogs.
    { by destruct Hcases as [(_ & _ & ?)|[(_ & _ & _ & ?)|(? & _)]]. }
    split; [done|]. by destruct (only_logs_silent t Hlogs) as (? & ? & _).
Qed.

Lemma json_field_not_null key body v : json_field key body = Some v → body ≠ JNull.
Proof. by intros H ->. Qed.

(** X19. From the request to the sockets.  A request whose [type] is the
    string of an event type, whose [channelName] is a non-empty string and
    whose [message] is truthy is answered with 200 and [{success: true}];
    [broadcast] is called once, for that channel, event and message; and
    when no [ws.send] throws, the open subscribers of the channel are each
    sent, in the order of subscription, the one frame
    [JSON.stringify({event: type, data: message})]. *)
Theorem broadcastHandler_delivers env st body event channelName data :
  json_field "type" body = Some (JStr (WSEventType_value event)) →
  json_field "channelName" body = Some (JStr channelName) →
  channelName ≠ EmptyString →
  json_field "message" body = Some data →
  js_truthy (Some data) = true →
  let frame :=
    JSON_stringify env (JObj [("event", JStr (WSEventType_value event)); ("data", data)]) in
  (∀ sub, sub ∈ subscribers st channelName → readyState env (ws sub) = OPEN →
     send_throws env (ws sub) frame = false) →
  let r := broadcastHandler env (Some body) st in
  r.1.1 = {| res_status := 200; res_body := JObj [("success", JBool true)] |}
  ∧ r.1.2 = st
  ∧ broadcasts r.2 = [(channelName, event, data)]
  ∧ sends r.2
    = (λ sub, (ws sub, frame))
        <$> filter (λ sub, readyState env (ws sub) = OPEN) (subscribers st channelName).
Proof.
  intros Htype Hname Hne Hmsg Htruthy frame Hok r.
  assert (body ≠ JNull) as Hnull by (by eapply json_field_not_null).
  assert (r = (tell [ELog DEBUG "Received broadcast request";
                     ELog INFO "Broadcasting message"]
                 (bind (broadcast env channelName event data None) (λ _,
                    logger DEBUG "Broadcast completed" ;;
                    ret {| res_status := 200;
                           res_body := JObj [("success", JBool true)] |}) st))) as Hr.
  { subst r. destruct body; try done; cbn [broadcastHandler];
      rewrite Htype, Hname, Hmsg;
      rewrite WSEventType_of_value;
      rewrite Htruthy; cbn [js_truthy];
      (assert (truthy (WSEventType_value event) = true) as -> by (by destruct event));
      (assert (truthy channelName = true) as ->
         by (unfold truthy; by rewrite bool_decide_eq_false_2));
      cbn [negb orb]; msteps; by rewrite tell_tell. }
  rewrite Hr. rewrite (bind_result _ _ _ _ _ _ (broadcast_result _ _ _ _ _ _)).
  msteps. unfold ret, tell. cbn [fst snd].
  split_and!; [done|done| |].
  - rewrite !broadcasts_app, broadcast_broadcasts. done.
  - rewrite !sends_app, broadcast_sends.
    + rewrite filter_deliverable_None. cbn [sends omap app]. by rewrite app_nil_r.
    + intros sub Hsub [_ Hopen]. by apply Hok.
Qed.

Lemma broadcastHandler_delivers_witness :
  let env := demo_env [2] [] 0 in
  let st := final (run [(env, Subscribe "x" (demo_sub 1 "u1"));
                        (env, Subscribe "x" (demo_sub 2 "u2"));
                        (env, Subscribe "x" (demo_sub 3 "u3"))]) empty_manager in
  let body := JObj [("type", JStr "new-message"); ("channelName", JStr "x");
                    ("message", JObj [("id", JStr "m1")])] in
  let r := broadcastHandler env (Some body) st in
  res_status r.1.1 = 200
  ∧ sends r.2 = [(1, "{event:new-message;data:{id:m1;};}");
                 (3, "{event:new-message;data:{id:m1;};}")].
Proof.
  intros env st body r.
  destruct (broadcastHandler_delivers env st body NEW_MESSAGE "x" (JObj [("id", JStr "m1")]))
    as (Hres & _ & _ & Hsends); [done|done|done|done|done|by intros sub _ _|].
  fold r in Hres, Hsends. split; [by rewrite Hres|].
  rewrite Hsends. by vm_compute.
Defined.

(** ** The registry while the server runs *)

Lemma final_log_then {A} level message (m : M A) st :
  final (logger level message ;; m) st = final m st.
Proof. by rewrite final_bind. Qed.

Lemma subscribe_frame_cases env ws0 channelName userId0 userInfo0 m :
  subscribe_frame env ws0 channelName userId0 userInfo0 = Some m →
  (∃ ch u, channelName = Some (JStr ch) ∧ userId0 = Some (JStr u)
           ∧ m = subscribe env ch {| ws := ws0; userId := u; userInfo := userInfo0 |})
  ∨ (∃ token, user env ws0 = Some token
              ∧ userId0 ≠ Some (JStr (token_userId token))
              ∧ m = logger WARN "User ID mismatch in subscription request").
Proof.
  unfold subscribe_frame.
  destruct channelName as [[| | |ch| |]|], userId0 as [[| | |u| |]|];
    try (intros [= <-]; left; by eauto);
    (destruct (user env ws0) as [token|]; [|done]);
    try (case_bool_decide; [|done]);
    intros [= <-]; right; exists token; split_and!; congruence.
Qed.

Lemma subscribe_frame_is_Some env ws0 channelName userId0 userInfo0 :
  is_Some (subscribe_frame env ws0 channelName userId0 userInfo0)
  ↔ (∃ ch u, channelName = Some (JStr ch) ∧ userId0 = Some (JStr u))
    ∨ (∃ token, user env ws0 = Some token
                ∧ userId0 ≠ Some (JStr (token_userId token))).
Proof.
  split.
  - intros [m [(ch & u & -> & -> & _)|(token & ? & ? & _)]%subscribe_frame_cases];
      [left|right]; by eauto.
  - intros [(ch & u & -> & ->)|(token & Htoken & Hne)]; [by eexists|].
    unfold subscribe_frame. rewrite Htoken.
    destruct channelName as [[| | |ch| |]|], userId0 as [[| | |u| |]|];
      try (by eexists);
      (rewrite bool_decide_eq_true_2; [by eexists|congruence]).
Qed.

Lemma handleConnection_message_cases JSON_parse env ws0 message m :
  handleConnection_message JSON_parse env ws0 message = Some m →
  m = logger ERROR "Failed to process WebSocket message"
  ∨ m = ret tt
  ∨ (∃ data channelName userId,
       JSON_parse message = Some data
       ∧ json_field "userId" data = Some (JStr userId)
       ∧ m = (logger INFO "Client subscribing to channel" ;;
              subscribe env channelName
                {| ws := ws0; userId := userId;
                   userInfo := default JNull (json_field "userInfo" data) |}))
  ∨ m = (logger INFO "Client subscribing to channel" ;;
         logger WARN "User ID mismatch in subscription request").
Proof.
  unfold handleConnection_message.
  destruct (JSON_parse message) as [data|]; [|intros [= <-]; by left].
  assert (data = JNull ∨ data ≠ JNull) as [->|Hnull].
  { destruct data; (by left) || (by right). }
  { intros [= <-]. by left. }
  assert (∀ r : option (M unit),
    match data with JNull => Some (logger ERROR "Failed to process WebSocket message")
                  | _ => r end = r) as -> by (by destruct data).
  destruct (json_field "type" data) as [[| | |type| |]|];
    try (intros [= <-]; right; by left).
  destruct (decide (type = "subscribe")) as [->|Htype].
  - destruct (subscribe_frame env ws0 _ _ _) as [m0|] eqn:Hframe; [|done].
    intros [= <-].
    apply subscribe_frame_cases in Hframe as [(ch & u & _ & Hu & ->)|(_ & _ & _ & ->)].
    + right. right. left. by exists data, ch, u.
    + by do 3 right.
  - assert (∀ r : option (M unit),
      match type with "subscribe" => r | _ => Some (ret tt) end = Some (ret tt)) as Hother.
    { intros r. clear -Htype.
      repeat (destruct type as [|[[] [] [] [] [] [] [] []] type]; try done). }
    rewrite Hother. intros [= <-]. right. by left.
Qed.

(** The listener is defined on a frame exactly when the frame, if it is a
    subscribe frame, has [string_keys]. *)
Lemma handleConnection_message_is_Some JSON_parse env ws0 message :
  is_Some (handleConnection_message JSON_parse env ws0 message)
  ↔ ∀ data, JSON_parse message = Some data →
            json_field "type" data = Some (JStr "subscribe") →
            string_keys env ws0 data.
Proof.
  unfold handleConnection_message, string_keys.
  destruct (JSON_parse message) as [data|]; [|split; [by intros _ data|by eexists]].
  assert (data = JNull ∨ data ≠ JNull) as [->|Hnull].
  { destruct data; (by left) || (by right). }
  { split; [by intros _ data [= <-]|by eexists]. }
  assert (∀ r : option (M unit),
    match data with JNull => Some (logger ERROR "Failed to process WebSocket message")
                  | _ => r end = r) as -> by (by destruct data).
  destruct (json_field "type" data) as [[| | |type| |]|] eqn:Htype0;
    try (split; [by intros _ data' [= <-]; rewrite Htype0|by eexists]).
  destruct (decide (type = "subscribe")) as [->|Htype].
  - pose proof (subscribe_frame_is_Some env ws0 (json_field "channelName" data)
                  (json_field "userId" data)
                  (default JNull (json_field "userInfo" data))) as Hframe.
    destruct (subscribe_frame env ws0 _ _ _) as [m0|].
    + split; [|by eexists]. intros _ data' [= <-] _. apply Hframe. by eexists.
    + split; [by intros [? ?]|]. intros H. apply Hframe. by apply H.
  - assert (∀ r : option (M unit),
      match type with "subscribe" => r | _ => Some (ret tt) end = Some (ret tt)) as Hother.
    { intros r. clear -Htype.
      repeat (destruct type as [|[[] [] [] [] [] [] [] []] type]; try done). }
    rewrite Hother. split; [|by eexists]. intros _ data' [= <-]. rewrite Htype0. congruence.
Qed.

Lemma handleConnection_message_ops JSON_parse env ws0 message m :
  handleConnection_message JSON_parse env ws0 message = Some m →
  (∀ st, final m st = st)
  ∨ ∃ channelName subscription,
      ∀ st, final m st = final (exec env (Subscribe channelName subscription)) st.
Proof.
  intros [->|[->|[(data & ch & u & _ & _ & ->)| ->]]]%handleConnection_message_cases;
    [by left|by left| |by left].
  right. exists ch, {| ws := ws0; userId := u;
                       userInfo := default JNull (json_field "userInfo" data) |}.
  intros st. cbn [exec]. apply final_log_then.
Qed.

Lemma broadcastHandler_final env req_body st :
  final (broadcastHandler env req_body) st = st.
Proof.
  destruct (broadcastHandler_cases env req_body st) as (response & t & Hr & _).
  unfold final. by rewrite Hr.
Qed.

Lemma serve_ops JSON_parse env ev m :
  serve JSON_parse env ev = Some m →
  ∃ ops, Forall server_op ops
         ∧ ∀ st, final m st = final (run ((λ op, (env, op)) <$> ops)) st.
Proof.
  destruct ev as [c message|c|c|req_body| | |]; cbn [serve].
  - intros [Hst|(ch & sub & Hst)]%handleConnection_message_ops.
    + by exists [].
    + exists [Subscribe ch sub]. split; [by apply Forall_singleton|].
      intros st. rewrite Hst. cbn [fmap list_fmap]. by rewrite run_cons_final.
  - intros [= <-]. exists [HandleWebSocketClosure c]. split; [by apply Forall_singleton|].
    intros st. unfold handleConnection_close. rewrite final_log_then.
    cbn [fmap list_fmap]. by rewrite run_cons_final.
  - intros [= <-]. by exists [].
  - intros [= <-]. exists []. split; [done|].
    intros st. rewrite final_bind. apply broadcastHandler_final.
  - intros [= <-]. by exists [].
  - intros [= <-]. exists [CleanupInactiveConnections]. split; [by apply Forall_singleton|].
    intros st. unfold periodicCleanup. rewrite final_log_then.
    cbn [fmap list_fmap]. by rewrite run_cons_final.
  - intros [= <-]. exists [TypingCleanup]. split; [by apply Forall_singleton|].
    intros st. cbn [fmap list_fmap]. by rewrite run_cons_final.
Qed.

Lemma serve_all_run JSON_parse evs m :
  serve_all JSON_parse evs = Some m →
  ∃ steps, Forall (λ step, server_op step.2 ∧ step.1 ∈ evs.*1) steps
           ∧ ∀ st, final m st = final (run steps) st.
Proof.
  revert m. induction evs as [|[env ev] evs IH]; intros m; cbn [serve_all].
  - intros [= <-]. by exists [].
  - destruct (serve JSON_parse env ev) as [m1|] eqn:H1; [|done].
    destruct (serve_all JSON_parse evs) as [m2|] eqn:H2; [|done].
    intros [= <-]. destruct (serve_ops _ _ _ _ H1) as (ops & Hops & Hm1).
    destruct (IH m2 eq_refl) as (steps & Hsteps & Hm2).
    exists (((λ op, (env, op)) <$> ops) ++ steps). split.
    + apply Forall_app. split.
      * apply Forall_fmap. eapply Forall_impl; [done|]. intros op Hop. cbn.
        split; [done|]. left.
      * eapply Forall_impl; [done|]. intros step [? ?]. split; [done|]. cbn. by right.
    + intros st. rewrite final_bind, run_app, <- Hm1. apply Hm2.
Qed.

(** The run of a sequence of events is defined exactly when each of its
    events is [string_keyed]. *)
Lemma serve_all_is_Some JSON_parse evs :
  is_Some (serve_all JSON_parse evs) ↔ Forall (string_keyed JSON_parse) evs.
Proof.
  induction evs as [|[env ev] evs IH]; cbn [serve_all].
  - split; [by intros _|by eexists].
  - rewrite Forall_cons, <- IH. clear IH.
    assert (is_Some (serve JSON_parse env ev) ↔ string_keyed JSON_parse (env, ev)) as <-.
    { unfold string_keyed. destruct ev as [c message|c|c|req_body| | |]; cbn [serve fst snd];
        try (split; [done|by eexists]).
      apply handleConnection_message_is_Some. }
    destruct (serve JSON_parse env ev) as [m1|], (serve_all JSON_parse evs) as [m2|];
      split; try (by intros [? ?]); by intros [[? ?] [? ?]].
Qed.

Lemma serve_all_consistent JSON_parse uid evs m :
  serve_all JSON_parse evs = Some m →
  Forall (λ e, authenticated uid e.1) evs →
  consistent uid (final m empty_manager).
Proof.
  intros Hm Hauth. destruct (serve_all_run _ _ _ Hm) as (steps & Hsteps & ->).
  apply consistent_run; [|apply consistent_empty].
  eapply Forall_impl; [done|]. intros [env op] [_ Henv]. cbn in Henv.
  apply respects_verified. apply list_elem_of_fmap in Henv as ([env' ev] & -> & Hin).
  rewrite Forall_forall in Hauth. apply (Hauth _ Hin).
Qed.

(** X20. While the server runs, with every connection carrying a verified
    identity, every subscription in the registry is under the verified
    userId of its connection, and the connection-to-userId map says the
    same; a channel holds at most one subscription of a connection; and
    the channel map and the connection-to-channels index agree: this holds
    after every sequence of frames, closes, broadcast requests, health
    requests and runs of the two timers. *)
Theorem server_subscriptions_verified JSON_parse uid evs m :
  serve_all JSON_parse evs = Some m →
  Forall (λ e, authenticated uid e.1) evs →
  let st := final m empty_manager in
  (∀ X s, s ∈ subscribers st X →
     userId s = uid (ws s) ∧ wsToUser st !! ws s = Some (uid (ws s)))
  ∧ (∀ X, NoDup (ws <$> subscribers st X))
  ∧ (∀ c X, (∃ s, s ∈ subscribers st X ∧ ws s = c) ↔ X ∈ index st c).
Proof.
  intros Hm Hauth st.
  pose proof (serve_all_consistent _ _ _ _ Hm Hauth) as Hcons. fold st in Hcons.
  split_and!.
  - intros X s Hs. split; [by apply (consistent_userId _ _ Hcons X)|].
    apply (consistent_user _ _ Hcons).
    assert (X ∈ index st (ws s)) as Hin.
    { apply (consistent_index _ _ Hcons). by exists s. }
    intros Heq. rewrite Heq in Hin. by apply not_elem_of_nil in Hin.
  - apply (consistent_once _ _ Hcons).
  - intros c X. symmetry. apply (consistent_index _ _ Hcons).
Qed.

Lemma server_subscriptions_verified_witness :
  let env := with_user (λ c, Some (demo_token (pretty c))) (demo_env [] [] 0) in
  let evs := [(env, WsMessage 1 "1a"); (env, WsMessage 2 "2a");
              (env, WsMessage 2 "1b"); (env, WsMessage 1 EmptyString);
              (env, PostBroadcast (Some (JObj [("type", JStr "new-message")])));
              (env, WsMessage 1 "1b"); (env, WsClose 2)] in
  ∃ m, serve_all demo_parse evs = Some m
       ∧ subscribers (final m empty_manager) "a" = [demo_sub 1 "1"]
       ∧ index (final m empty_manager) 1 = ["a"; "b"]
       ∧ wsToUser (final m empty_manager) !! 1 = Some "1".
Proof.
  intros env evs. eexists. split; [reflexivity|].
  match goal with |- context [final ?m empty_manager] => set (st := final m empty_manager) end.
  assert (subscribers st "a" = [demo_sub 1 "1"]) as Ha by (by vm_compute).
  split_and!; [done|by vm_compute|].
  refine (proj2 (proj1 (server_subscriptions_verified demo_parse pretty evs _ eq_refl _)
                   "a" (demo_sub 1 "1") _)).
  - assert (authenticated pretty env) as Henv.
    { intros c. exists (demo_token (pretty c)). by split. }
    repeat apply Forall_cons_2; try apply Forall_nil_2; exact Henv.
  - change (demo_sub 1 "1" ∈ subscribers st "a"). rewrite Ha. by left.
Defined.

Lemma typingUsers_server_op env op st :
  server_op op → typingUsers st = [] → typingUsers (final (exec env op) st) = [].
Proof.
  intros Hop Hempty. destruct op as [ch sub|ch c|c|ch u n b|ch ev d ex| |]; try done;
    cbn [exec].
  - unfold final. rewrite subscribe_result.
    destruct (identity_mismatch env sub); [done|].
    by destruct (decide (duplicate st ch sub)).
  - rewrite handleWebSocketClosure_final. unfold closure_state.
    destruct (closure_guard st c) as [[chs u]|]; [|done].
    mgr_simpl. unfold closure_loop_state. clear -Hempty. revert st Hempty.
    induction chs as [|X chs IH]; intros st Hempty; [done|].
    cbn [foldl]. apply IH. unfold closure_channel_state.
    rewrite typingUsers_unsubscribe. unfold closure_typing, typing. mgr_simpl.
    by rewrite Hempty.
  - unfold final, typingCleanup. msteps. by rewrite Hempty.
  - rewrite cleanupInactiveConnections_final. by rewrite typingUsers_cleanup.
Qed.

(** X21. The server never calls [handleTyping]: after every sequence of
    frames, closes, requests and timer runs whose subscribe frames have
    [string_keys] (each carries strings as [channelName] and [userId], or
    is rejected by the identity check), the typing maps of the registry
    are empty, and the sweep that the timer of [startTypingCleanup] runs
    every second does nothing at all. *)
Theorem server_typing_idle JSON_parse evs :
  Forall (string_keyed JSON_parse) evs →
  ∃ m, serve_all JSON_parse evs = Some m
       ∧ let st := final m empty_manager in
         typingUsers st = [] ∧ ∀ env, typingCleanup env st = (tt, st, []).
Proof.
  intros [m Hm]%serve_all_is_Some. exists m. split; [done|]. intros st.
  destruct (serve_all_run _ _ _ Hm) as (steps & Hsteps & Hst).
  assert (typingUsers st = []) as Hempty.
  { subst st. rewrite Hst.
    assert (∀ st0, typingUsers st0 = [] → typingUsers (final (run steps) st0) = []) as H.
    { clear Hst. induction Hsteps as [|[env op] steps [Hop _] _ IH]; intros st0 H0; [done|].
      rewrite run_cons_final. apply IH. by apply typingUsers_server_op. }
    by apply H. }
  split; [done|]. intros env. unfold typingCleanup. msteps. by rewrite Hempty.
Qed.

(** Among the frames, one that names no userId and one whose channel is a
    number, both on connections that carry an identity. *)
Lemma server_typing_idle_witness :
  let env := with_user (λ c, Some (demo_token (pretty c))) (demo_env [] [] 5000) in
  let parse := λ message,
    if bool_decide (message = "anonymous")
    then Some (JObj [("type", JStr "subscribe"); ("channelName", JStr "a")])
    else if bool_decide (message = "numbered")
    then Some (JObj [("type", JStr "subscribe"); ("channelName", JNum 7);
                     ("userId", JStr "2")])
    else demo_parse message in
  let evs := [(env, WsMessage 1 "1a"); (env, WsMessage 1 "anonymous");
              (env, WsMessage 1 "numbered"); (env, TypingTimer); (env, WsClose 1)] in
  ∃ m, serve_all parse evs = Some m ∧ typingUsers (final m empty_manager) = [].
Proof.
  intros env parse evs.
  destruct (server_typing_idle parse evs) as (m & Hm & Hempty & _); [|by exists m].
  repeat apply Forall_cons_2; try apply Forall_nil_2; try exact I;
    intros data Hparse _; vm_compute in Hparse; injection Hparse as <-.
  - left. by eexists _, _.
  - right. exists (demo_token "1"). split; [reflexivity|by vm_compute].
  - right. exists (demo_token "1"). split; [reflexivity|by vm_compute].
Defined.

(** X22. When a connection closes.  After every sequence of events of the
    server on connections that all carry a verified identity, whose
    subscribe frames have [string_keys] (each carries strings as
    [channelName] and [userId], or is rejected by the identity check), the
    [close] listener of a connection whose userId is not empty leaves no
    subscription of that connection in any channel and no entry for it in
    the connection-to-channels index. *)
Theorem server_close_forgets JSON_parse uid evs env c :
  Forall (string_keyed JSON_parse) evs →
  Forall (λ e, authenticated uid e.1) evs →
  uid c ≠ EmptyString →
  ∃ m, serve_all JSON_parse evs = Some m
       ∧ let st := final (handleConnection_close env c) (final m empty_manager) in
         (∀ X s, s ∈ subscribers st X → ws s ≠ c)
         ∧ wsToChannels st !! c = None.
Proof.
  intros [m Hm]%serve_all_is_Some Hauth Huid. exists m. split; [done|]. intros st.
  pose proof (serve_all_consistent _ _ _ _ Hm Hauth) as Hcons.
  set (st0 := final m empty_manager) in *.
  assert (st = closure_state c st0) as ->.
  { subst st. unfold handleConnection_close. rewrite final_log_then.
    apply handleWebSocketClosure_final. }
  destruct (closure_state_views uid st0 c Hcons Huid) as (Hs & _).
  split.
  - intros X s. rewrite Hs. by intros [? _]%list_elem_of_filter.
  - pose proof (consistent_closure uid c st0 Hcons) as Hcons'.
    destruct (wsToChannels (closure_state c st0) !! c) as [l|] eqn:Hl; [|done].
    destruct l as [|X l]. { by apply (consistent_nonempty _ _ Hcons') in Hl. }
    assert (X ∈ index (closure_state c st0) c) as Hin. { unfold index. rewrite Hl. left. }
    apply (consistent_index _ _ Hcons') in Hin as (s & Hin & Hws).
    rewrite Hs in Hin. by apply list_elem_of_filter in Hin as [? _].
Qed.

Lemma server_close_forgets_witness :
  let env := with_user (λ c, Some (demo_token (pretty c))) (demo_env [] [] 0) in
  let evs := [(env, WsMessage 1 "1a"); (env, WsMessage 2 "2a"); (env, WsMessage 1 "1b");
              (env, WsMessage 1 "2b")] in
  ∃ m, serve_all demo_parse evs = Some m
       ∧ let st := final (handleConnection_close env 1) (final m empty_manager) in
         subscribers st "a" = [demo_sub 2 "2"] ∧ wsToChannels st !! 1 = None.
Proof.
  intros env evs. eexists. split; [reflexivity|].
  match goal with |- context [final ?m0 empty_manager] => set (m := m0) end.
  destruct (server_close_forgets demo_parse pretty evs env 1) as (m' & Hm' & _ & Hidx).
  - repeat apply Forall_cons_2; try apply Forall_nil_2;
      intros data [= <-] _; left; by eexists _, _.
  - assert (authenticated pretty env) as Henv.
    { intros c. exists (demo_token (pretty c)). by split. }
    repeat apply Forall_cons_2; try apply Forall_nil_2; exact Henv.
  - done.
  - assert (m' = m) as -> by (apply (inj Some); rewrite <- Hm'; reflexivity).
    split; [by vm_compute|exact Hidx].
Defined.

(** ** What one frame can do *)

(** X23. A frame cannot subscribe its connection under another user.  On
    a connection that carries a verified identity: a frame that names any
    other userId, or none, is answered by the [message] listener with log
    calls only, and changes nothing in the registry and reaches nobody,
    whatever else it holds; where a frame leads to a subscription with a
    string as channel, every subscription that is in the registry after
    the call and was not there before is a subscription of that very
    connection under the userId of its identity; and the only frames left
    are the subscribe frames that name the verified userId and whose
    [channelName] is not a string. *)
Theorem frame_cannot_impersonate JSON_parse env ws0 message token st :
  user env ws0 = Some token →
  ((∀ data, JSON_parse message = Some data →
      json_field "userId" data ≠ Some (JStr (token_userId token))) →
   ∃ m, handleConnection_message JSON_parse env ws0 message = Some m
        ∧ final m st = st ∧ only_logs (trace m st))
  ∧ (∀ m, handleConnection_message JSON_parse env ws0 message = Some m →
       ∀ X s, s ∈ subscribers (final m st) X →
         s ∈ subscribers st X ∨ (ws s = ws0 ∧ userId s = token_userId token))
  ∧ (handleConnection_message JSON_parse env ws0 message = None →
     ∃ data, JSON_parse message = Some data
             ∧ json_field "type" data = Some (JStr "subscribe")
             ∧ json_field "userId" data = Some (JStr (token_userId token))
             ∧ ¬ ∃ channelName, json_field "channelName" data = Some (JStr channelName)).
Proof.
  intros Htoken.
  assert (∀ m, handleConnection_message JSON_parse env ws0 message = Some m →
    (∀ X s, s ∈ subscribers (final m st) X →
       s ∈ subscribers st X ∨ (ws s = ws0 ∧ userId s = token_userId token))
    ∧ ((∀ data, JSON_parse message = Some data →
          json_field "userId" data ≠ Some (JStr (token_userId token))) →
       final m st = st ∧ only_logs (trace m st))) as Hsome.
  { intros m Hm.
    apply handleConnection_message_cases
      in Hm as [->|[->|[(data & ch & u & Hparse & Hu & ->)| ->]]].
    - split; [by left|]. intros _. split; [done|]. apply only_logs_log.
    - split; [by left|]. intros _. split; [done|]. apply Forall_nil_2.
    - set (sub := {| ws := ws0; userId := u;
                     userInfo := default JNull (json_field "userInfo" data) |}).
      assert (identity_mismatch env sub = bool_decide (token_userId token ≠ u)) as Hcheck.
      { unfold identity_mismatch. subst sub. cbn [ws userId]. by rewrite Htoken. }
      rewrite final_log_then.
      assert (trace (logger INFO "Client subscribing to channel" ;; subscribe env ch sub) st
              = ELog INFO "Client subscribing to channel" :: trace (subscribe env ch sub) st)
        as -> by (by rewrite trace_bind).
      unfold final, trace. rewrite subscribe_result, Hcheck.
      case_bool_decide as Hne; cbn [fst snd].
      + split; [by left|]. intros _. split; [done|].
        apply (only_logs_app [_] [_]); apply only_logs_log.
      + assert (token_userId token = u) as Heq
          by (by destruct (decide (token_userId token = u))).
        split.
        * destruct (decide (duplicate st ch sub)); [by left|]. cbv zeta. cbn [fst snd].
          intros X s. rewrite subscribers_subscribe. case_decide as HX; [subst X|by left].
          intros [Hs| ->%list_elem_of_singleton]%elem_of_app; [by left|by right].
        * intros Hother. destruct (Hother data Hparse). by rewrite Heq.
    - split; [by left|]. intros _. split; [done|].
      apply (only_logs_app [_] [_]); apply only_logs_log. }
  split_and!.
  - intros Hother.
    destruct (proj2 (handleConnection_message_is_Some JSON_parse env ws0 message))
      as [m Hm].
    { intros data Hparse _. right. exists token. split; [done|]. by apply Hother. }
    exists m. split; [done|]. by apply Hsome.
  - intros m Hm. by apply Hsome.
  - intros Hnone.
    destruct (JSON_parse message) as [data|] eqn:Hparse.
    2:{ unfold handleConnection_message in Hnone. by rewrite Hparse in Hnone. }
    exists data. split; [done|].
    assert (¬ (json_field "type" data = Some (JStr "subscribe") →
               string_keys env ws0 data)) as Hout.
    { intros H.
      destruct (proj2 (handleConnection_message_is_Some JSON_parse env ws0 message))
        as [m Hm]; [|congruence].
      intros data' Hparse'. rewrite Hparse in Hparse'. by injection Hparse' as <-. }
    assert (json_field "type" data = Some (JStr "subscribe")) as Htype.
    { destruct (json_field "type" data) as [[| | |type| |]|];
        try (by destruct Hout).
      destruct (decide (type = "subscribe")) as [->|?]; [done|].
      destruct Hout. congruence. }
    split; [done|].
    assert (¬ string_keys env ws0 data) as Hkeys by (intros ?; by apply Hout).
    assert (json_field "userId" data = Some (JStr (token_userId token))) as Hu.
    { destruct (json_field "userId" data) as [[| | |u| |]|] eqn:Hu;
        try (destruct Hkeys; right; exists token; by rewrite Hu).
      destruct (decide (u = token_userId token)) as [->|?]; [done|].
      destruct Hkeys. right. exists token. rewrite Hu. split; [done|]. congruence. }
    split; [done|]. intros [ch Hch]. apply Hkeys. left. by eexists _, _.
Qed.

(** A subscribe frame without a userId, for a channel that is a number, on
    the connection of user [1]: the listener logs and the registry stays
    as it is. *)
Lemma frame_cannot_impersonate_witness :
  let env := with_user (λ c, Some (demo_token (pretty c))) (demo_env [] [] 0) in
  let parse := λ _ : string,
    Some (JObj [("type", JStr "subscribe"); ("channelName", JNum 7)]) in
  ∃ m, handleConnection_message parse env 1 "frame" = Some m
       ∧ final m empty_manager = empty_manager.
Proof.
  intros env parse.
  destruct (proj1 (frame_cannot_impersonate parse env 1 "frame" (demo_token "1")
                     empty_manager eq_refl)) as (m & Hm & Hst & _).
  - by intros data [= <-].
  - by exists m.
Defined.
